(** * Gift Idea Saver: a shallow embedding of [gift_idea_saver_main.py]

    The program keeps one dict (recipient name -> list of gift records) in
    memory, rewrites a JSON file after every mutation, and is driven by
    console menus.  The development follows the program bottom-up.

    Definitions:
    - [Str]      Python [str] values: sequences of Unicode code points, with
                 the methods the program calls ([strip], [split], [join],
                 [lower], [isdigit], [int], comparison);
    - [Py]       the Python values that [json] reads and writes, and
                 insertion-ordered dicts;
    - [Utf8]     the byte encoding of the data file;
    - [Json]     [json.dump (indent=2)] and [json.load], on text;
    - [Run]      exceptions, the world (the dict, the disk, the console) and
                 the state-and-exception monad the program runs in;
    - [Gift]     the functions of the program, one definition per [def]:
                 [load_data], [save_data], the helpers, [choose_occasion],
                 the recipient and gift operations, and the two screens
                 that change the document ([add_recipient_screen],
                 [add_gift_screen]);
    - [Spec]     the notions the properties C1 to C10 are stated with;
    - [Menu]     the computations of the screens that call each other;
    - [Nav]      the screens that navigate ([main_menu],
                 [recipients_screen], [gift_list_screen]), [pause] and
                 [run_program] with its loop;
    - [Draft]    the earlier copy, [gift_idea_saver_main_program.py], where
                 it differs: its [load_data], its empty screens, its run;
    - [Whole]    the notions the further properties are stated with.

    Facts: [StrFacts], [DictFacts], [TextFacts] (what is written is plain
    ASCII), [Ops] (the domain operations), [Screens] (running the screens
    on given input), [RoundTrip] (reading back what was written),
    [Decoded] (what the decoder returns, and that it always comes to a
    verdict), [Loading] ([load_data] case by case), [Loaded] (loading in
    both copies, and from the file that was saved); then the properties
    of the program, C1 to C10.

    Further facts: [Helpers] ([int], [strip], [split], [clean_text]),
    [Closure] (relations that every step keeps), [Kept] (nothing is
    removed, the file follows the dict, the console moves forward, shaped
    and neat documents stay so), [Triples] (assertions), [Budget] (a run
    is no longer than its input), [Faults] (what a run can fail with, and
    what it keeps of a document that survives the file), [Order]
    (sorting), [Routes] (the screens on given input), [Runs]; then the
    further properties, X1 to X26. *)

From Stdlib Require Import String Ascii List NArith ZArith Bool Lia.
From Stdlib Require Import Sorting.Sorted Sorting.Permutation.
From Stdlib Require Init.Byte.
Import ListNotations.

Set Warnings "-register-all".

(* ================================================================== *)
(** * Python strings *)
(* ================================================================== *)

Module Str.

(** A Python [str] is a sequence of code points; a code point is a number
    below [0x110000]. *)
Definition char := N.
Definition str := list char.

(** String literals of the source, written as Rocq strings. *)
Definition lit (s : string) : str := map N_of_ascii (list_ascii_of_string s).
Arguments lit s%_string.

Definition in_range (c : char) (r : N * N) : bool :=
  (N.leb (fst r) c && N.leb c (snd r))%bool.

Definition in_ranges (rs : list (N * N)) (c : char) : bool :=
  existsb (in_range c) rs.

(** ** Equality and order: [==] and [<] compare code point by code point. *)

Fixpoint eqb (a b : str) : bool :=
  match a, b with
  | [], [] => true
  | x :: a', y :: b' => (N.eqb x y && eqb a' b')%bool
  | _, _ => false
  end.

Fixpoint ltb (a b : str) : bool :=
  match a, b with
  | _, [] => false
  | [], _ :: _ => true
  | x :: a', y :: b' =>
      if N.ltb x y then true
      else if N.eqb x y then ltb a' b' else false
  end.

(** ** Whitespace: the code points for which [str.isspace] holds; they are
    what [strip()] removes and what [split()] splits on. *)
Definition whitespace : list (N * N) :=
  [(9, 13); (28, 32); (133, 133); (160, 160); (5760, 5760); (8192, 8202);
   (8232, 8233); (8239, 8239); (8287, 8287); (12288, 12288)]%N.

Definition isspace (c : char) : bool := in_ranges whitespace c.

Fixpoint lstrip (s : str) : str :=
  match s with
  | c :: s' => if isspace c then lstrip s' else s
  | [] => []
  end.

Definition rstrip (s : str) : str := rev (lstrip (rev s)).

(** [s.strip()] *)
Definition strip (s : str) : str := rstrip (lstrip s).

(** [s.split()]: the maximal runs of non-whitespace characters, in order.
    [word] holds the current run, last character first. *)
Fixpoint split_from (word : str) (s : str) : list str :=
  match s with
  | [] => match word with [] => [] | _ => [rev word] end
  | c :: s' =>
      if isspace c
      then match word with
           | [] => split_from [] s'
           | _ => rev word :: split_from [] s'
           end
      else split_from (c :: word) s'
  end.

Definition split (s : str) : list str := split_from [] s.

(** [sep.join(parts)] *)
Fixpoint join (sep : str) (parts : list str) : str :=
  match parts with
  | [] => []
  | [p] => p
  | p :: ps => p ++ sep ++ join sep ps
  end.

(** ** [s.lower()].  The mapping is written out for U+0000..U+00FF and for
    the two characters above that range whose lower case contains an ASCII
    letter (U+0130, U+212A); other characters are left in place.  The
    program only compares the result with the ASCII word "cancel", and no
    other character lowers into ASCII, so that comparison is exact. *)
Definition lower_char (c : char) : list char :=
  if in_ranges [(65, 90); (192, 214); (216, 222)]%N c then [c + 32]%N
  else if N.eqb c 304 then [105; 775]%N
  else if N.eqb c 8490 then [107]%N
  else [c].

Definition lower (s : str) : str := flat_map lower_char s.

(** ** Digits.  [decimal_digits] are the characters of category Nd, in runs
    whose members have the values 0..9 in order; [other_digits] are the
    characters that are digits without being decimal (superscripts, circled
    digits, ...).  Unicode 14.0. *)
Definition decimal_digits : list (N * N) :=
  [(48, 57); (1632, 1641); (1776, 1785); (1984, 1993); (2406, 2415);
   (2534, 2543); (2662, 2671); (2790, 2799); (2918, 2927); (3046, 3055);
   (3174, 3183); (3302, 3311); (3430, 3439); (3558, 3567); (3664, 3673);
   (3792, 3801); (3872, 3881); (4160, 4169); (4240, 4249); (6112, 6121);
   (6160, 6169); (6470, 6479); (6608, 6617); (6784, 6793); (6800, 6809);
   (6992, 7001); (7088, 7097); (7232, 7241); (7248, 7257); (42528, 42537);
   (43216, 43225); (43264, 43273); (43472, 43481); (43504, 43513);
   (43600, 43609); (44016, 44025); (65296, 65305); (66720, 66729);
   (68912, 68921); (69734, 69743); (69872, 69881); (69942, 69951);
   (70096, 70105); (70384, 70393); (70736, 70745); (70864, 70873);
   (71248, 71257); (71360, 71369); (71472, 71481); (71904, 71913);
   (72016, 72025); (72784, 72793); (73040, 73049); (73120, 73129);
   (92768, 92777); (92864, 92873); (93008, 93017); (120782, 120831);
   (123200, 123209); (123632, 123641); (125264, 125273); (130032, 130041)]%N.

Definition other_digits : list (N * N) :=
  [(178, 179); (185, 185); (4969, 4977); (6618, 6618); (8304, 8304);
   (8308, 8313); (8320, 8329); (9312, 9320); (9332, 9340); (9352, 9360);
   (9450, 9450); (9461, 9469); (9471, 9471); (10102, 10110); (10112, 10120);
   (10122, 10130); (68160, 68163); (69216, 69224); (69714, 69722);
   (127232, 127242)]%N.

Definition isdecimal_char (c : char) : bool := in_ranges decimal_digits c.
Definition isdigit_char (c : char) : bool :=
  (isdecimal_char c || in_ranges other_digits c)%bool.

(** [s.isdigit()]: at least one character, and all of them digits. *)
Definition isdigit (s : str) : bool :=
  match s with
  | [] => false
  | _ => forallb isdigit_char s
  end.

(** The value of a decimal digit: its offset in its run, modulo 10. *)
Definition decimal_value (c : char) : option N :=
  match find (in_range c) decimal_digits with
  | Some r => Some ((c - fst r) mod 10)%N
  | None => None
  end.

(** The digits of a base-10 literal, most significant first; a single
    underscore may separate two digits.  [acc] is the value so far and
    [sep] tells that the previous character was a digit. *)
Fixpoint digits_value (acc : N) (sep : bool) (s : str) : option N :=
  match s with
  | [] => if sep then Some acc else None
  | c :: s' =>
      match decimal_value c with
      | Some d => digits_value (10 * acc + d)%N true s'
      | None =>
          if (N.eqb c 95 && sep)%bool
          then digits_value acc false s'
          else None
      end
  end.

(** [int(s)], base 10: surrounding whitespace, an optional sign, decimal
    digits of any script.  [None] stands for [ValueError].  The
    interpreter also refuses, by default, a literal of more than 4300
    digits; [to_int] does not, and is [int] on the texts that are
    [within_limit]. *)
Definition to_int (s : str) : option Z :=
  match strip s with
  | 43%N :: ds => option_map Z.of_N (digits_value 0 false ds)
  | 45%N :: ds => option_map (fun n => Z.opp (Z.of_N n)) (digits_value 0 false ds)
  | ds => option_map Z.of_N (digits_value 0 false ds)
  end.

(** A line within the limit that the interpreter puts, by default, on the
    digits of a number that [int] converts.  What is proved of the value
    that [int] returns is proved of lines within the limit. *)
Definition within_limit (line : str) : Prop :=
  (N.of_nat (length line) <= 4300)%N.

End Str.

(* ================================================================== *)
(** * Python values *)
(* ================================================================== *)

Module Py.
Import Str.

(** A [float] is carried as the decimal numeral it was read from (or as
    one of the three constants): its binary value is not modelled, and
    nothing below computes with floats or compares them. *)
Inductive float : Type :=
| FNaN
| FInf (negative : bool)
| FDec (numeral : Decimal.decimal).

(** The values [json.load] builds and [json.dump] prints. *)
Inductive value : Type :=
| VNone
| VBool (b : bool)
| VInt (z : Z)
| VFloat (f : float)
| VStr (s : str)
| VList (items : list value)
| VDict (entries : list (str * value)).

(** A dict with [str] keys keeps its entries in insertion order. *)
Definition dict := list (str * value).

(** [k in d] *)
Definition contains (k : str) (d : dict) : bool :=
  existsb (fun e => eqb (fst e) k) d.

(** [d[k]]; [None] stands for [KeyError]. *)
Fixpoint getitem (k : str) (d : dict) : option value :=
  match d with
  | [] => None
  | (k', v) :: d' => if eqb k' k then Some v else getitem k d'
  end.

(** [d[k] = v]: an existing key keeps its place, a new one goes last. *)
Fixpoint setitem (k : str) (v : value) (d : dict) : dict :=
  match d with
  | [] => [(k, v)]
  | (k', v') :: d' =>
      if eqb k' k then (k', v) :: d' else (k', v') :: setitem k v d'
  end.

(** [list(d.keys())] *)
Definition keys (d : dict) : list str := map fst d.

(** [d.get(k, default)] *)
Definition get (k : str) (default : value) (d : dict) : value :=
  match getitem k d with
  | Some v => v
  | None => default
  end.

(** [isinstance(v, list)] and [isinstance(v, dict)] *)
Definition is_list (v : value) : bool :=
  match v with VList _ => true | _ => false end.
Definition is_dict (v : value) : bool :=
  match v with VDict _ => true | _ => false end.

End Py.

(* ================================================================== *)
(** * UTF-8, the encoding the data file is opened with *)
(* ================================================================== *)

Module Utf8.
Import Str.

Definition byte := Init.Byte.byte.

Definition byte_of_N (n : N) : byte :=
  match Byte.of_N n with
  | Some b => b
  | None => Byte.x00
  end.

Definition between (lo hi b : N) : bool := (N.leb lo b && N.leb b hi)%bool.

(** Strict decoding: no overlong forms, no surrogates, nothing above
    U+10FFFF.  [None] stands for [UnicodeDecodeError]. *)
Fixpoint decode_N (bs : list N) : option str :=
  match bs with
  | [] => Some []
  | b0 :: r0 =>
      if N.ltb b0 128 then option_map (cons b0) (decode_N r0)
      else if between 194 223 b0 then
        match r0 with
        | b1 :: r1 =>
            if between 128 191 b1
            then option_map (cons ((b0 - 192) * 64 + (b1 - 128))%N) (decode_N r1)
            else None
        | _ => None
        end
      else if between 224 239 b0 then
        match r0 with
        | b1 :: b2 :: r2 =>
            if (between (if N.eqb b0 224 then 160 else 128)
                        (if N.eqb b0 237 then 159 else 191) b1
                && between 128 191 b2)%bool
            then option_map
                   (cons ((b0 - 224) * 4096 + (b1 - 128) * 64 + (b2 - 128))%N)
                   (decode_N r2)
            else None
        | _ => None
        end
      else if between 240 244 b0 then
        match r0 with
        | b1 :: b2 :: b3 :: r3 =>
            if (between (if N.eqb b0 240 then 144 else 128)
                        (if N.eqb b0 244 then 143 else 191) b1
                && between 128 191 b2 && between 128 191 b3)%bool
            then option_map
                   (cons ((b0 - 240) * 262144 + (b1 - 128) * 4096
                          + (b2 - 128) * 64 + (b3 - 128))%N)
                   (decode_N r3)
            else None
        | _ => None
        end
      else None
  end.

Definition decode (bs : list byte) : option str :=
  decode_N (map Byte.to_N bs).

(** Encoding; [None] stands for [UnicodeEncodeError] (a surrogate, or not a
    code point). *)
Definition encode_char (c : char) : option (list N) :=
  if N.ltb c 128 then Some [c]
  else if N.ltb c 2048 then Some [192 + c / 64; 128 + c mod 64]%N
  else if between 55296 57343 c then None
  else if N.ltb c 65536 then
    Some [224 + c / 4096; 128 + (c / 64) mod 64; 128 + c mod 64]%N
  else if N.ltb c 1114112 then
    Some [240 + c / 262144; 128 + (c / 4096) mod 64;
          128 + (c / 64) mod 64; 128 + c mod 64]%N
  else None.

Fixpoint encode_N (s : str) : option (list N) :=
  match s with
  | [] => Some []
  | c :: s' =>
      match encode_char c, encode_N s' with
      | Some bs, Some rest => Some (bs ++ rest)
      | _, _ => None
      end
  end.

Definition encode (s : str) : option (list byte) :=
  option_map (map byte_of_N) (encode_N s).

End Utf8.

(* ================================================================== *)
(** * JSON text: [json.dump(data, file, indent=2)] and [json.load(file)] *)
(* ================================================================== *)

Module Json.
Import Str Py.

(** ** Encoder *)

Definition hex_digit (n : N) : char :=
  if N.ltb n 10 then (48 + n)%N else (87 + n)%N.

(** [\uXXXX], four lower-case hexadecimal digits *)
Definition u_escape (n : N) : str :=
  [92; 117; hex_digit ((n / 4096) mod 16); hex_digit ((n / 256) mod 16);
   hex_digit ((n / 16) mod 16); hex_digit (n mod 16)]%N.

(** The default [ensure_ascii=True]: a quote, a backslash and the usual
    control characters get their short escape, printable ASCII stands for
    itself, anything else becomes [\uXXXX] (a surrogate pair above
    U+FFFF). *)
Definition escape_char (c : char) : str :=
  if N.eqb c 34 then [92; 34]%N
  else if N.eqb c 92 then [92; 92]%N
  else if N.eqb c 10 then [92; 110]%N
  else if N.eqb c 13 then [92; 114]%N
  else if N.eqb c 9 then [92; 116]%N
  else if N.eqb c 8 then [92; 98]%N
  else if N.eqb c 12 then [92; 102]%N
  else if (N.leb 32 c && N.leb c 126)%bool then [c]
  else if N.ltb c 65536 then u_escape c
  else u_escape (55296 + ((c - 65536) / 1024) mod 1024)
       ++ u_escape (56320 + (c - 65536) mod 1024).

Definition encode_string (s : str) : str :=
  [34%N] ++ flat_map escape_char s ++ [34%N].

Fixpoint uint_chars (d : Decimal.uint) : str :=
  match d with
  | Decimal.Nil => []
  | Decimal.D0 d => 48%N :: uint_chars d
  | Decimal.D1 d => 49%N :: uint_chars d
  | Decimal.D2 d => 50%N :: uint_chars d
  | Decimal.D3 d => 51%N :: uint_chars d
  | Decimal.D4 d => 52%N :: uint_chars d
  | Decimal.D5 d => 53%N :: uint_chars d
  | Decimal.D6 d => 54%N :: uint_chars d
  | Decimal.D7 d => 55%N :: uint_chars d
  | Decimal.D8 d => 56%N :: uint_chars d
  | Decimal.D9 d => 57%N :: uint_chars d
  end.

Definition int_chars (i : Decimal.int) : str :=
  match i with
  | Decimal.Pos d => uint_chars d
  | Decimal.Neg d => 45%N :: uint_chars d
  end.

Definition encode_int (z : Z) : str := int_chars (Z.to_int z).

Definition fraction_chars (f : Decimal.uint) : str :=
  match f with
  | Decimal.Nil => []
  | _ => 46%N :: uint_chars f
  end.

Definition encode_float (f : float) : str :=
  match f with
  | FNaN => lit "NaN"
  | FInf false => lit "Infinity"
  | FInf true => lit "-Infinity"
  | FDec (Decimal.Decimal i f) => int_chars i ++ fraction_chars f
  | FDec (Decimal.DecimalExp i f e) =>
      int_chars i ++ fraction_chars f ++ 101%N :: int_chars e
  end.

(** A line break followed by the indentation of nesting depth [level],
    two spaces per level. *)
Definition newline_indent (level : nat) : str :=
  10%N :: repeat 32%N (2 * level).

(** The text of [v] at nesting depth [level].  With an indent the item
    separator is a bare comma, and the key separator is a colon and a
    space; empty containers are printed closed. *)
Fixpoint encode (level : nat) (v : value) {struct v} : str :=
  match v with
  | VNone => lit "null"
  | VBool true => lit "true"
  | VBool false => lit "false"
  | VInt z => encode_int z
  | VFloat f => encode_float f
  | VStr s => encode_string s
  | VList items =>
      match items with
      | [] => lit "[]"
      | _ =>
          [91%N] ++ newline_indent (S level)
          ++ join (44%N :: newline_indent (S level))
                  (map (encode (S level)) items)
          ++ newline_indent level ++ [93%N]
      end
  | VDict entries =>
      match entries with
      | [] => lit "{}"
      | _ =>
          [123%N] ++ newline_indent (S level)
          ++ join (44%N :: newline_indent (S level))
                  (map (fun e => encode_string (fst e) ++ lit ": "
                                 ++ encode (S level) (snd e)) entries)
          ++ newline_indent level ++ [125%N]
      end
  end.

(** The whole text written by [json.dump(v, file, indent=2)]. *)
Definition dumps (v : value) : str := encode 0 v.

(** ** Decoder *)

(** The outcome of scanning a prefix of the text: a result and the text
    after it, malformed text, or recursion budget used up (which [loads]
    rules out, see [scan_once_enough]). *)
Inductive parsed (A : Type) : Type :=
| Parsed (a : A) (rest : str)
| Malformed
| Exhausted.
Arguments Parsed {A} a rest.
Arguments Malformed {A}.
Arguments Exhausted {A}.

(** JSON whitespace: space, tab, line feed, carriage return. *)
Definition is_ws (c : char) : bool :=
  (N.eqb c 32 || N.eqb c 9 || N.eqb c 10 || N.eqb c 13)%bool.

Fixpoint skip_ws (s : str) : str :=
  match s with
  | c :: s' => if is_ws c then skip_ws s' else s
  | [] => []
  end.

(** [strip_prefix p s]: the text after [p] when [s] starts with [p]. *)
Fixpoint strip_prefix (p s : str) : option str :=
  match p, s with
  | [], _ => Some s
  | x :: p', y :: s' => if N.eqb x y then strip_prefix p' s' else None
  | _ :: _, [] => None
  end.

Definition hex_value (c : char) : option N :=
  if (N.leb 48 c && N.leb c 57)%bool then Some (c - 48)%N
  else if (N.leb 97 c && N.leb c 102)%bool then Some (c - 87)%N
  else if (N.leb 65 c && N.leb c 70)%bool then Some (c - 55)%N
  else None.

Definition hex4 (a b c d : char) : option N :=
  match hex_value a, hex_value b, hex_value c, hex_value d with
  | Some x, Some y, Some z, Some w => Some (x * 4096 + y * 256 + z * 16 + w)%N
  | _, _, _, _ => None
  end.

(** The character a one-letter escape stands for. *)
Definition unescape (e : char) : option char :=
  if N.eqb e 34 then Some 34%N
  else if N.eqb e 92 then Some 92%N
  else if N.eqb e 47 then Some 47%N
  else if N.eqb e 98 then Some 8%N
  else if N.eqb e 102 then Some 12%N
  else if N.eqb e 110 then Some 10%N
  else if N.eqb e 114 then Some 13%N
  else if N.eqb e 116 then Some 9%N
  else None.

Definition is_high_surrogate (c : N) : bool :=
  (N.leb 55296 c && N.leb c 56319)%bool.
Definition is_low_surrogate (c : N) : bool :=
  (N.leb 56320 c && N.leb c 57343)%bool.

(** The body of a string literal, after its opening quote, up to the
    closing quote (strict mode: no raw control characters).  [acc] holds
    the characters read so far, last first.  A high surrogate escape
    directly followed by a low surrogate escape is one character. *)
Fixpoint scan_string (acc : str) (s : str) : option (str * str) :=
  match s with
  | [] => None
  | c :: r =>
      if N.eqb c 34 then Some (rev acc, r)
      else if N.eqb c 92 then
        match r with
        | [] => None
        | e :: r' =>
            if N.eqb e 117 then
              match r' with
              | h1 :: h2 :: h3 :: h4 :: r4 =>
                  match hex4 h1 h2 h3 h4 with
                  | None => None
                  | Some uni =>
                      if is_high_surrogate uni then
                        match r4 with
                        | b :: u :: g1 :: g2 :: g3 :: g4 :: r10 =>
                            if (N.eqb b 92 && N.eqb u 117)%bool then
                              match hex4 g1 g2 g3 g4 with
                              | None => None
                              | Some uni2 =>
                                  if is_low_surrogate uni2
                                  then scan_string
                                         ((65536 + (uni - 55296) * 1024
                                           + (uni2 - 56320))%N :: acc) r10
                                  else scan_string (uni :: acc) r4
                              end
                            else scan_string (uni :: acc) r4
                        | _ => scan_string (uni :: acc) r4
                        end
                      else scan_string (uni :: acc) r4
                  end
              | _ => None
              end
            else
              match unescape e with
              | Some c' => scan_string (c' :: acc) r'
              | None => None
              end
        end
      else if N.ltb c 32 then None
      else scan_string (c :: acc) r
  end.

Definition is_digit09 (c : char) : bool := (N.leb 48 c && N.leb c 57)%bool.

(** The longest run of ASCII digits at the front of [s], and what follows. *)
Fixpoint span_digits (s : str) : str * str :=
  match s with
  | c :: s' =>
      if is_digit09 c
      then let (ds, r) := span_digits s' in (c :: ds, r)
      else ([], s)
  | [] => ([], [])
  end.

Fixpoint chars_uint (ds : str) : Decimal.uint :=
  match ds with
  | [] => Decimal.Nil
  | c :: ds' =>
      let d := chars_uint ds' in
      if N.eqb c 48 then Decimal.D0 d else if N.eqb c 49 then Decimal.D1 d
      else if N.eqb c 50 then Decimal.D2 d else if N.eqb c 51 then Decimal.D3 d
      else if N.eqb c 52 then Decimal.D4 d else if N.eqb c 53 then Decimal.D5 d
      else if N.eqb c 54 then Decimal.D6 d else if N.eqb c 55 then Decimal.D7 d
      else if N.eqb c 56 then Decimal.D8 d else Decimal.D9 d
  end.

(** A number: an optional minus, an integer part without a leading zero,
    then an optional fraction and an optional exponent, each taken only
    when it has a digit.  Without fraction and exponent it is an [int],
    otherwise a [float]. *)
Definition scan_sign (s : str) : bool * str :=
  match s with
  | c :: r => if N.eqb c 45 then (true, r) else (false, s)
  | [] => (false, s)
  end.

Definition scan_int_part (s : str) : option (str * str) :=
  match s with
  | [] => None
  | d :: r =>
      if N.eqb d 48 then Some ([d], r)
      else if is_digit09 d
           then let (ds, r') := span_digits r in Some (d :: ds, r')
           else None
  end.

Definition scan_fraction (s : str) : option str * str :=
  match s with
  | p :: d1 :: r' =>
      if (N.eqb p 46 && is_digit09 d1)%bool
      then let (ds, r'') := span_digits r' in (Some (d1 :: ds), r'')
      else (None, s)
  | _ => (None, s)
  end.

Definition scan_exponent (s : str) : option Decimal.int * str :=
  match s with
  | e :: r' =>
      if (N.eqb e 101 || N.eqb e 69)%bool then
        let (minus, r'') :=
          match r' with
          | c :: t =>
              if N.eqb c 43 then (false, t)
              else if N.eqb c 45 then (true, t)
              else (false, r')
          | [] => (false, r')
          end in
        match span_digits r'' with
        | ([], _) => (None, s)
        | (ds, r''') =>
            (Some (if minus then Decimal.Neg (chars_uint ds)
                   else Decimal.Pos (chars_uint ds)), r''')
        end
      else (None, s)
  | [] => (None, s)
  end.

Definition scan_number (s : str) : option (value * str) :=
  let (negative, s1) := scan_sign s in
  match scan_int_part s1 with
  | None => None
  | Some (ip, r1) =>
      let i := if negative then Decimal.Neg (chars_uint ip)
               else Decimal.Pos (chars_uint ip) in
      let (frac, r2) := scan_fraction r1 in
      let (expo, r3) := scan_exponent r2 in
      match frac, expo with
      | None, None => Some (VInt (Z.of_int i), r3)
      | Some f, None =>
          Some (VFloat (FDec (Decimal.Decimal i (chars_uint f))), r3)
      | None, Some e =>
          Some (VFloat (FDec (Decimal.DecimalExp i Decimal.Nil e)), r3)
      | Some f, Some e =>
          Some (VFloat (FDec (Decimal.DecimalExp i (chars_uint f) e)), r3)
      end
  end.

(** The constants, and then the number, in the scanner's order. *)
Definition scan_constant (s : str) : option (value * str) :=
  match strip_prefix (lit "null") s with
  | Some r => Some (VNone, r)
  | None =>
  match strip_prefix (lit "true") s with
  | Some r => Some (VBool true, r)
  | None =>
  match strip_prefix (lit "false") s with
  | Some r => Some (VBool false, r)
  | None =>
  match strip_prefix (lit "NaN") s with
  | Some r => Some (VFloat FNaN, r)
  | None =>
  match strip_prefix (lit "Infinity") s with
  | Some r => Some (VFloat (FInf false), r)
  | None =>
  match strip_prefix (lit "-Infinity") s with
  | Some r => Some (VFloat (FInf true), r)
  | None => scan_number s
  end end end end end end.

(** One value at the front of [s].  [fuel] bounds the depth of the
    recursion; every call is made on a strictly shorter text or on the
    same text one step deeper, so twice the length of the text is enough.
    An array collects its items in order; an object stores its members one
    by one, so a repeated key keeps its first place and its last value. *)
Fixpoint scan_once (fuel : nat) (s : str) {struct fuel} : parsed value :=
  match fuel with
  | O => Exhausted
  | S n =>
      match s with
      | [] => Malformed
      | c :: r =>
          if N.eqb c 34 then
            match scan_string [] r with
            | Some (x, r') => Parsed (VStr x) r'
            | None => Malformed
            end
          else if N.eqb c 123 then
            match skip_ws r with
            | c' :: r' =>
                if N.eqb c' 125 then Parsed (VDict []) r'
                else object_items n [] (c' :: r')
            | [] => Malformed
            end
          else if N.eqb c 91 then
            match skip_ws r with
            | c' :: r' =>
                if N.eqb c' 93 then Parsed (VList []) r'
                else array_items n [] (c' :: r')
            | [] => Malformed
            end
          else
            match scan_constant s with
            | Some (v, r') => Parsed v r'
            | None => Malformed
            end
      end
  end

with array_items (fuel : nat) (acc : list value) (s : str) {struct fuel}
  : parsed value :=
  match fuel with
  | O => Exhausted
  | S n =>
      match scan_once n s with
      | Parsed v r =>
          match skip_ws r with
          | c :: r' =>
              if N.eqb c 93 then Parsed (VList (rev (v :: acc))) r'
              else if N.eqb c 44 then array_items n (v :: acc) (skip_ws r')
              else Malformed
          | [] => Malformed
          end
      | Malformed => Malformed
      | Exhausted => Exhausted
      end
  end

with object_items (fuel : nat) (acc : dict) (s : str) {struct fuel}
  : parsed value :=
  match fuel with
  | O => Exhausted
  | S n =>
      match s with
      | q :: r =>
          if N.eqb q 34 then
            match scan_string [] r with
            | Some (k, r1) =>
                match skip_ws r1 with
                | c1 :: r2 =>
                    if N.eqb c1 58 then
                      match scan_once n (skip_ws r2) with
                      | Parsed v r3 =>
                          match skip_ws r3 with
                          | c :: r4 =>
                              if N.eqb c 125
                              then Parsed (VDict (setitem k v acc)) r4
                              else if N.eqb c 44
                              then object_items n (setitem k v acc) (skip_ws r4)
                              else Malformed
                          | [] => Malformed
                          end
                      | Malformed => Malformed
                      | Exhausted => Exhausted
                      end
                    else Malformed
                | [] => Malformed
                end
            | None => Malformed
            end
          else Malformed
      | [] => Malformed
      end
  end.

(** [json.loads(s)]: one value, surrounded by whitespace only; a leading
    byte-order mark is refused.  [None] stands for [JSONDecodeError]. *)
Definition loads (s : str) : option value :=
  if match s with c :: _ => N.eqb c 65279 | [] => false end then None
  else
    let t := skip_ws s in
    match scan_once (2 * length t + 1) t with
    | Parsed v r =>
        match skip_ws r with
        | [] => Some v
        | _ => None
        end
    | _ => None
    end.

End Json.

(* ================================================================== *)
(** * The world the program runs in *)
(* ================================================================== *)

Module Run.
Import Str Py.

Inductive exn : Type :=
| OSError
| JSONDecodeError
| UnicodeDecodeError
| UnicodeEncodeError
| KeyError
| AttributeError
| ValueError
| EOFError.

Inductive outcome (A : Type) : Type :=
| Return (a : A)
| Raise (e : exn).
Arguments Return {A} a.
Arguments Raise {A} e.

(** [data] is the one dict of the program: [run_program] gets it from
    [load_data] and hands that same object to every screen and operation,
    which change it in place.  [disk] is the content of [DATA_FILE]
    ([None]: the file does not exist), [writes] counts how many times the
    file has been written.  [stdin] holds the lines still to be typed,
    [stdout] what has been printed, latest first. *)
Record world : Type := World {
  data : dict;
  disk : option (list Utf8.byte);
  writes : nat;
  stdin : list str;
  stdout : list str
}.

(** A computation changes the world and returns or raises; the world it
    leaves behind is kept in both cases. *)
Definition M (A : Type) : Type := world -> outcome A * world.

Definition ret {A} (a : A) : M A := fun w => (Return a, w).
Definition raise {A} (e : exn) : M A := fun w => (Raise e, w).
Definition bind {A B} (m : M A) (k : A -> M B) : M B :=
  fun w =>
    match m w with
    | (Return a, w') => k a w'
    | (Raise e, w') => (Raise e, w')
    end.

(** [try: body  except (the exceptions in caught): handler] *)
Definition try_except {A} (body : M A) (caught : exn -> bool) (handler : M A)
  : M A :=
  fun w =>
    match body w with
    | (Return a, w') => (Return a, w')
    | (Raise e, w') => if caught e then handler w' else (Raise e, w')
    end.

Definition get_data : M dict := fun w => (Return (data w), w).

Definition set_data (d : dict) : M unit :=
  fun w => (Return tt, World d (disk w) (writes w) (stdin w) (stdout w)).

(** [print(s)] *)
Definition print (s : str) : M unit :=
  fun w =>
    (Return tt, World (data w) (disk w) (writes w) (stdin w) (s :: stdout w)).

(** [input(prompt)]: the next line, without its line end; [EOFError] when
    there is none. *)
Definition input (prompt : str) : M str :=
  fun w =>
    match stdin w with
    | line :: rest =>
        (Return line,
         World (data w) (disk w) (writes w) rest (prompt :: stdout w))
    | [] =>
        (Raise EOFError,
         World (data w) (disk w) (writes w) [] (prompt :: stdout w))
    end.

(** [os.path.exists(DATA_FILE)] *)
Definition path_exists : M bool :=
  fun w => (Return (match disk w with Some _ => true | None => false end), w).

(** Reading in text mode turns every line end into a line feed. *)
Fixpoint universal_newlines (s : str) : str :=
  match s with
  | [] => []
  | c :: s' =>
      if N.eqb c 13 then
        match s' with
        | c' :: s'' =>
            if N.eqb c' 10 then 10%N :: universal_newlines s''
            else 10%N :: universal_newlines s'
        | [] => [10%N]
        end
      else c :: universal_newlines s'
  end.

(** [open(DATA_FILE, "r", encoding="utf-8")] and [file.read()] *)
Definition read_file : M str :=
  fun w =>
    match disk w with
    | None => (Raise OSError, w)
    | Some bytes =>
        match Utf8.decode bytes with
        | Some text => (Return (universal_newlines text), w)
        | None => (Raise UnicodeDecodeError, w)
        end
    end.

(** [open(DATA_FILE, "w", encoding="utf-8")] and the writing of [text]:
    the file is created or emptied, then filled. *)
Definition write_file (text : str) : M unit :=
  fun w =>
    match Utf8.encode text with
    | Some bytes =>
        (Return tt,
         World (data w) (Some bytes) (S (writes w)) (stdin w) (stdout w))
    | None =>
        (Raise UnicodeEncodeError,
         World (data w) (Some []) (S (writes w)) (stdin w) (stdout w))
    end.

End Run.

Declare Scope run_scope.
Delimit Scope run_scope with run.
Notation "x <- m ;; k" := (Run.bind m (fun x => k))
  (at level 61, m at next level, right associativity) : run_scope.
Notation "m ;; k" := (Run.bind m (fun _ => k))
  (at level 61, right associativity) : run_scope.

(* ================================================================== *)
(** * The program *)
(* ================================================================== *)

Module Gift.
Import Str Py Run.
Local Open Scope run_scope.

Definition nl : str := [10%N].
Definition quote : str := [34%N].

(** ** File load/save *)

(** The clean-up loop of [load_data]:
    [for name in list(data.keys()):
         if not isinstance(data[name], list): data[name] = []] *)
Fixpoint cleanup (names : list str) (data : dict) : M dict :=
  match names with
  | [] => ret data
  | name :: names' =>
      match getitem name data with
      | None => raise KeyError
      | Some v =>
          if negb (is_list v)
          then cleanup names' (setitem name (VList []) data)
          else cleanup names' data
      end
  end.

(** [json.load(file)] on the text read from the file *)
Definition json_load (text : str) : M value :=
  match Json.loads text with
  | Some v => ret v
  | None => raise JSONDecodeError
  end.

Definition load_data : M dict :=
  found <- path_exists ;;
  if negb found then ret []
  else
    try_except
      (text <- read_file ;;
       data <- json_load text ;;
       match data with
       | VDict entries => cleanup (keys entries) entries
       | _ => ret []
       end)
      (fun e => match e with OSError | JSONDecodeError => true | _ => false end)
      (ret []).

(** [os.makedirs] only prepares the directory, which the world does not
    describe; the file is then rewritten with the whole document. *)
Definition save_data : M unit :=
  data <- get_data ;;
  write_file (Json.dumps (VDict data)).

(** ** General helper functions *)

Definition get_input (prompt : str) : M str :=
  line <- input prompt ;;
  ret (strip line).

Definition is_number (text : str) : bool := isdigit text.

Definition clean_text (text : str) : str :=
  strip (join (lit " ") (split text)).

(** [int(text)] *)
Definition int (text : str) : M Z :=
  match to_int text with
  | Some z => ret z
  | None => raise ValueError
  end.

(** ** Occasion helper functions *)

Definition choose_occasion : M (option str) :=
  print (nl ++ lit "Choose an occasion:" ++ nl) ;;
  print (lit "[1] Birthday") ;;
  print (lit "[2] Christmas") ;;
  print (lit "[3] Other") ;;
  print (lit "[0] Cancel" ++ nl) ;;
  choice <- get_input (lit "Enter your choice: > ") ;;
  if negb (is_number choice) then ret None
  else
    choice <- int choice ;;
    if Z.eqb choice 0 then ret None
    else if Z.eqb choice 1 then ret (Some (lit "Birthday"))
    else if Z.eqb choice 2 then ret (Some (lit "Christmas"))
    else if Z.eqb choice 3 then
      other <- get_input (lit "Type the occasion: > ") ;;
      let other := clean_text other in
      if eqb other [] then ret None
      else ret (Some (lit "Other: " ++ other))
    else ret None.

(** ** Recipient logic *)

(** [list.sort()] on strings: ascending by [<], equal elements in their
    original order (insertion from the right keeps it). *)
Fixpoint insert_sorted (x : str) (l : list str) : list str :=
  match l with
  | [] => [x]
  | y :: l' => if ltb y x then y :: insert_sorted x l' else x :: l
  end.

Fixpoint sort (l : list str) : list str :=
  match l with
  | [] => []
  | x :: l' => insert_sorted x (sort l')
  end.

Definition list_recipients (data : dict) : list str :=
  let recipients := keys data in
  sort recipients.

Definition add_recipient_to_data (name : str) : M bool :=
  data <- get_data ;;
  if negb (contains name data) then
    set_data (setitem name (VList []) data) ;;
    save_data ;;
    ret true
  else ret false.

(** ** Gift logic *)

Definition gift_obj (gift_text occasion_text : str) : value :=
  VDict [(lit "idea", VStr gift_text); (lit "occasion", VStr occasion_text)].

(** [data[recipient_name].append(gift_obj)] raises [KeyError] when the key
    is missing and [AttributeError] when the value has no [append]. *)
Definition add_gift_to_recipient (recipient_name gift_text occasion_text : str)
  : M unit :=
  data <- get_data ;;
  match getitem recipient_name data with
  | None => raise KeyError
  | Some (VList gifts) =>
      set_data (setitem recipient_name
                        (VList (gifts ++ [gift_obj gift_text occasion_text]))
                        data) ;;
      save_data
  | Some _ => raise AttributeError
  end.

Definition get_gifts_for_recipient (data : dict) (recipient_name : str)
  : value :=
  get recipient_name (VList []) data.

(** ** Add Gifts screen *)

Definition add_gift_screen (recipient_name : str) : M unit :=
  print (nl ++ lit "Add a Gift Idea for " ++ recipient_name ++ nl) ;;
  gift_text <- get_input (lit "Enter the gift idea (or type 'cancel'): > ") ;;
  if eqb (lower gift_text) (lit "cancel") then
    print (nl ++ lit "No gift idea was added." ++ nl)
  else
    let gift_text := clean_text gift_text in
    if eqb gift_text [] then
      print (nl ++ lit "Gift idea cannot be empty." ++ nl)
    else
      occasion <- choose_occasion ;;
      match occasion with
      | None => print (nl ++ lit "No gift idea was added." ++ nl)
      | Some occasion =>
          print (nl ++ lit "[1] Confirm and save") ;;
          print (lit "[2] Cancel" ++ nl) ;;
          choice <- get_input (lit "Enter your choice: > ") ;;
          if eqb choice (lit "2") then
            print (nl ++ lit "No gift idea was added." ++ nl)
          else
            add_gift_to_recipient recipient_name gift_text occasion ;;
            print (nl ++ lit "Gift idea " ++ quote ++ gift_text ++ quote
                   ++ lit " saved for " ++ recipient_name ++ lit ".") ;;
            print (lit "Occasion: " ++ occasion ++ nl)
      end.

(** ** Add Recipients screen *)

Definition add_recipient_screen : M unit :=
  print (nl ++ lit "Add a New Recipient" ++ nl) ;;
  name <- get_input (lit "Enter the recipient's name (or type 'cancel'): > ") ;;
  if eqb (lower name) (lit "cancel") then
    print (nl ++ lit "No recipient was added." ++ nl)
  else
    let name := clean_text name in
    if eqb name [] then
      print (nl ++ lit "Recipient name cannot be empty." ++ nl)
    else
      print (nl ++ lit "[1] Confirm") ;;
      print (lit "[2] Cancel" ++ nl) ;;
      choice <- get_input (lit "Enter your choice: > ") ;;
      if eqb choice (lit "2") then
        print (nl ++ lit "No recipient was added." ++ nl)
      else
        was_added <- add_recipient_to_data name ;;
        (if was_added
         then print (nl ++ lit "Recipient " ++ quote ++ name ++ quote
                     ++ lit " added successfully." ++ nl)
         else print (nl ++ lit "Recipient " ++ quote ++ name ++ quote
                     ++ lit " already exists." ++ nl)) ;;
        print (lit "[1] Add a gift idea for this recipient") ;;
        print (lit "[0] Return to main menu" ++ nl) ;;
        next_choice <- get_input (lit "Enter your choice: > ") ;;
        if eqb next_choice (lit "1") then add_gift_screen name
        else ret tt.

End Gift.

(* ================================================================== *)
(** * Notions used to state the properties *)
(* ================================================================== *)

Module Spec.
Import Str Py Json Run Gift.
Local Open Scope run_scope.

(** [le a b]: [a] does not come after [b] in the order of [<]. *)
Definition le (a b : str) : Prop := ltb b a = false.

(** The characters [json.dump] writes: printable ASCII and the line feed. *)
Definition is_plain (c : char) : bool :=
  (N.eqb c 10 || (N.leb 32 c && N.leb c 126))%bool.

Definition plain (s : str) : Prop := forallb is_plain s = true.

(** The bytes of the data file after document [d] has been saved. *)
Definition saved (d : dict) : list Utf8.byte :=
  map Utf8.byte_of_N (Json.dumps (VDict d)).

(** A run of [add_gift_to_recipient] calls for one recipient, in order. *)
Fixpoint add_gifts (recipient_name : str) (gifts : list (str * str))
  : M unit :=
  match gifts with
  | [] => ret tt
  | (gift_text, occasion_text) :: rest =>
      add_gift_to_recipient recipient_name gift_text occasion_text ;;
      add_gifts recipient_name rest
  end.

(** ** What a computation may do to the document and the file *)

(** Nothing: the dict, the file and the number of writes are the same. *)
Definition same_store (w w' : world) : Prop :=
  data w' = data w /\ disk w' = disk w /\ writes w' = writes w.

(** Gifts may have been added: the keys are the same, and a file that held
    the document still holds it. *)
Definition gifts_added (w w' : world) : Prop :=
  keys (data w') = keys (data w) /\
  (writes w <= writes w')%nat /\
  (disk w = Some (saved (data w)) -> disk w' = Some (saved (data w'))).

(** [always R m]: whatever the input, and whether [m] returns or raises,
    the world it leaves is related to the one it found. *)
Definition always (R : world -> world -> Prop) {A} (m : M A) : Prop :=
  forall w, R w (snd (m w)).

(** The lines typed at the occasion prompt that pick an occasion: [picks
    lines occasion rest] when [choose_occasion], reading [lines], returns
    [occasion] and leaves [rest] unread.  The line that holds the choice
    is within the limit of [int]. *)
Inductive picks : list str -> str -> list str -> Prop :=
| pick_birthday (c : str) (rest : list str) :
    within_limit c ->
    is_number (strip c) = true -> to_int (strip c) = Some 1%Z ->
    picks (c :: rest) (lit "Birthday") rest
| pick_christmas (c : str) (rest : list str) :
    within_limit c ->
    is_number (strip c) = true -> to_int (strip c) = Some 2%Z ->
    picks (c :: rest) (lit "Christmas") rest
| pick_other (c label : str) (rest : list str) :
    within_limit c ->
    is_number (strip c) = true -> to_int (strip c) = Some 3%Z ->
    clean_text (strip label) <> [] ->
    picks (c :: label :: rest) (lit "Other: " ++ clean_text (strip label)) rest.

(** ** Documents and the values that survive the file *)

(** Text that a JSON string literal gives back unchanged: code points, in
    which no high surrogate is directly followed by a low surrogate (the
    two would be written as two escapes and read back as one character).
    Valid Unicode text, which has no surrogates at all, always qualifies. *)
Definition code_point (c : char) : Prop := (c < 1114112)%N.

Fixpoint pair_free (s : str) : Prop :=
  match s with
  | c :: s' =>
      match s' with
      | c' :: _ => (is_high_surrogate c && is_low_surrogate c')%bool = false
      | [] => True
      end /\ pair_free s'
  | [] => True
  end.

Definition str_ok (s : str) : Prop := Forall code_point s /\ pair_free s.

(** The text after the escape of a lone high surrogate does not start
    with the escape of a low surrogate. *)
Definition lookahead_ok (t : str) : Prop :=
  match t with
  | b :: u :: g1 :: g2 :: g3 :: g4 :: _ =>
      (N.eqb b 92 && N.eqb u 117)%bool = true ->
      exists uni2,
        hex4 g1 g2 g3 g4 = Some uni2 /\ is_low_surrogate uni2 = false
  | _ => True
  end.

(** The recursion budget that reading [v] back takes. *)
Fixpoint cost (v : value) : nat :=
  match v with
  | VList items => S (fold_right (fun x a => S (cost x) + a) 0 items)
  | VDict entries =>
      S (fold_right (fun e a => S (cost (snd e)) + a) 0 entries)
  | _ => 1
  end.

(** The values that are read back as they were written: no numbers,
    strings that are [str_ok], no key twice in a dict. *)
Fixpoint safe (v : value) : Prop :=
  match v with
  | VNone | VBool _ => True
  | VInt _ | VFloat _ => False
  | VStr s => str_ok s
  | VList items => fold_right (fun x a => safe x /\ a) True items
  | VDict entries =>
      NoDup (keys entries) /\
      fold_right (fun e a => str_ok (fst e) /\ safe (snd e) /\ a) True entries
  end.

(** What the clean-up of [load_data] makes of a value. *)
Definition norm_value (v : value) : value :=
  if is_list v then v else VList [].

(** A document as the program builds it: distinct recipient names, each
    with a list of gift records; the strings are text that a JSON string
    literal gives back unchanged ([str_ok]). *)
Definition gift_record (v : value) : Prop :=
  exists idea occasion,
    v = VDict [(lit "idea", VStr idea); (lit "occasion", VStr occasion)] /\
    str_ok idea /\ str_ok occasion.

Definition document (d : dict) : Prop :=
  NoDup (keys d) /\
  Forall (fun e => str_ok (fst e) /\
                   exists gifts, snd e = VList gifts /\ Forall gift_record gifts)
         d.

End Spec.

(* ================================================================== *)
(** * The screens that navigate, and the main loop *)
(* ================================================================== *)

(** The menu screens call each other for as long as the user goes back
    and forth, and display values of any shape.  Their computations may
    therefore also fail with [TypeError] or [IndexError], and may go on
    calling: a screen is given a budget for the screens it may open
    inside itself, and is [Unfinished] when the budget is used up.  A
    run is never longer than its input ([Budget]), so that a budget above
    the number of lines typed is never used up and any such budget gives
    the same run.  (The interpreter's own limit on nested calls is not
    modelled.) *)
Module Menu.
Import Str Py Run Gift.

Inductive fault : Type :=
| Exn (e : exn)
| TypeError
| IndexError.

Inductive ended (A : Type) : Type :=
| Finished (a : A)
| Failed (f : fault)
| Unfinished.
Arguments Finished {A} a.
Arguments Failed {A} f.
Arguments Unfinished {A}.

Definition Flow (A : Type) : Type := world -> ended A * world.

Definition finish {A} (a : A) : Flow A := fun w => (Finished a, w).
Definition fail {A} (f : fault) : Flow A := fun w => (Failed f, w).
Definition unfinished {A} : Flow A := fun w => (Unfinished, w).

Definition and_then {A B} (n : Flow A) (k : A -> Flow B) : Flow B :=
  fun w =>
    match n w with
    | (Finished a, w') => k a w'
    | (Failed f, w') => (Failed f, w')
    | (Unfinished, w') => (Unfinished, w')
    end.

(** A computation of [Run] as a computation of the menus. *)
Definition lift {A} (m : M A) : Flow A :=
  fun w =>
    match m w with
    | (Return a, w') => (Finished a, w')
    | (Raise e, w') => (Failed (Exn e), w')
    end.

End Menu.

Declare Scope menu_scope.
Delimit Scope menu_scope with menu.
Notation "x <- n ;; k" := (Menu.and_then n (fun x => k))
  (at level 61, n at next level, right associativity) : menu_scope.
Notation "n ;; k" := (Menu.and_then n (fun _ => k))
  (at level 61, right associativity) : menu_scope.

Module Nav.
Import Str Py Run Gift Menu.
Local Open Scope menu_scope.

(** [str(n)] for an [int]: its decimal numeral. *)
Definition decimal (z : Z) : str := Json.encode_int z.

(** [pause()], which no screen calls. *)
Definition pause : M unit :=
  Run.bind (input (nl ++ lit "Press Enter to continue... "))
           (fun _ => ret tt).

(** [len(v)] *)
Definition len (v : value) : Flow nat :=
  match v with
  | VList items => finish (length items)
  | VDict entries => finish (length entries)
  | VStr s => finish (length s)
  | _ => fail TypeError
  end.

(** What [for x in v] goes through: the items of a list, the keys of a
    dict, the characters of a string. *)
Definition iterate (v : value) : Flow (list value) :=
  match v with
  | VList items => finish items
  | VDict entries => finish (map (fun e => VStr (fst e)) entries)
  | VStr s => finish (map (fun c => VStr [c]) s)
  | _ => fail TypeError
  end.

(** [v[key]] for a string [key]: only a dict can be asked, and raises
    [KeyError] when it has no such key. *)
Definition subscript (v : value) (key : str) : Flow value :=
  match v with
  | VDict entries =>
      match getitem key entries with
      | Some x => finish x
      | None => fail (Exn KeyError)
      end
  | _ => fail TypeError
  end.

Section Display.

(** The text [str(v)] of a value that is not a string (the numeral of a
    float, the display of a list or a dict); the interpreter computes it,
    here it is a parameter. *)
Variable show : value -> str.

(** What an f-string puts for [{v}]. *)
Definition text_of (v : value) : str :=
  match v with
  | VStr s => s
  | _ => show v
  end.

(** [for i in range(len(recipients)): print(f"[{i + 1}] {recipients[i]}")],
    from index [i] on. *)
Fixpoint print_recipients (i : nat) (recipients : list str) : Flow unit :=
  match recipients with
  | [] => finish tt
  | name :: rest =>
      lift (print (lit "[" ++ decimal (Z.of_nat i + 1) ++ lit "] " ++ name)) ;;
      print_recipients (S i) rest
  end.

(** [for gift in gifts: print(f"- {gift['idea']} ({gift['occasion']})")] *)
Fixpoint print_gifts (gifts : list value) : Flow unit :=
  match gifts with
  | [] => finish tt
  | gift :: rest =>
      idea <- subscript gift (lit "idea") ;;
      occasion <- subscript gift (lit "occasion") ;;
      lift (print (lit "- " ++ text_of idea ++ lit " (" ++ text_of occasion
                   ++ lit ")")) ;;
      print_gifts rest
  end.

(** ** Recipients screen and Gifts screen *)

Fixpoint recipients_screen (budget : nat) : Flow unit :=
  match budget with
  | O => unfinished
  | S budget' =>
      data <- lift get_data ;;
      let recipients := list_recipients data in
      lift (print (nl ++ lit "Recipients:" ++ nl)) ;;
      if Nat.eqb (length recipients) 0 then
        lift (print (lit "(No recipients yet.)" ++ nl)) ;;
        lift (print (lit "[1] Add a new recipient")) ;;
        lift (print (lit "[0] Return to main menu" ++ nl)) ;;
        choice <- lift (get_input (lit "Enter your choice: > ")) ;;
        if eqb choice (lit "1") then lift add_recipient_screen
        else finish tt
      else
        print_recipients 0 recipients ;;
        lift (print []) ;;
        let add_option := (Z.of_nat (length recipients) + 1)%Z in
        lift (print (lit "[" ++ decimal add_option
                     ++ lit "] Add a new recipient")) ;;
        lift (print (lit "[0] Return to main menu" ++ nl)) ;;
        choice <- lift (get_input (lit "Enter your choice: > ")) ;;
        if negb (is_number choice) then lift (print (lit "Invalid input."))
        else
          choice <- lift (int choice) ;;
          if Z.eqb choice 0 then finish tt
          else if Z.eqb choice add_option then lift add_recipient_screen
          else if (Z.leb 1 choice
                   && Z.leb choice (Z.of_nat (length recipients)))%bool then
            match nth_error recipients (Z.to_nat (choice - 1)) with
            | Some selected => gift_list_screen budget' selected
            | None => fail IndexError
            end
          else finish tt
  end

with gift_list_screen (budget : nat) (recipient_name : str) : Flow unit :=
  match budget with
  | O => unfinished
  | S budget' =>
      data <- lift get_data ;;
      let gifts := get_gifts_for_recipient data recipient_name in
      lift (print (nl ++ lit "Gift Ideas for " ++ recipient_name ++ lit ":"
                   ++ nl)) ;;
      count <- len gifts ;;
      (if Nat.eqb count 0 then
         lift (print (lit "(No gift ideas yet.)" ++ nl))
       else
         items <- iterate gifts ;;
         print_gifts items ;;
         lift (print [])) ;;
      lift (print (lit "[1] Add a gift idea")) ;;
      lift (print (lit "[2] Return to recipient list")) ;;
      lift (print (lit "[0] Return to main menu" ++ nl)) ;;
      choice <- lift (get_input (lit "Enter your choice: > ")) ;;
      if eqb choice (lit "1") then lift (add_gift_screen recipient_name)
      else if eqb choice (lit "2") then recipients_screen budget'
      else finish tt
  end.

(** ** Main Menu screen *)

Definition main_menu (budget : nat) : Flow bool :=
  lift (print (nl ++ lit "Gift Idea Saver" ++ nl)) ;;
  lift (print (lit "What would you like to do?" ++ nl)) ;;
  lift (print (lit "[1] View recipients")) ;;
  lift (print (lit "[2] Add a new recipient")) ;;
  lift (print (lit "[0] Exit" ++ nl)) ;;
  choice <- lift (get_input (lit "Enter your choice: > ")) ;;
  if negb (is_number choice) then
    lift (print (lit "Invalid input.")) ;;
    finish true
  else
    choice <- lift (int choice) ;;
    if Z.eqb choice 1 then
      recipients_screen budget ;;
      finish true
    else if Z.eqb choice 2 then
      lift add_recipient_screen ;;
      finish true
    else if Z.eqb choice 0 then
      lift (print (nl ++ lit "Goodbye!" ++ nl)) ;;
      finish false
    else finish true.

(** ** Run program *)

(** [while running: running = main_menu(data)], [running] being true. *)
Fixpoint main_loop (budget : nat) : Flow unit :=
  match budget with
  | O => unfinished
  | S budget' =>
      running <- main_menu budget' ;;
      if running then main_loop budget' else finish tt
  end.

(** [data = load_data()] makes the dict of the program. *)
Definition run_program (budget : nat) : Flow unit :=
  data <- lift load_data ;;
  lift (set_data data) ;;
  main_loop budget.

End Display.

End Nav.

(* ================================================================== *)
(** * The earlier copy of the program, [gift_idea_saver_main_program.py] *)
(* ================================================================== *)

(** It has the same helpers, operations and main menu; its [load_data]
    catches every exception, and its four screens are not written yet:
    each is a docstring and returns at once. *)
Module Draft.
Import Str Py Run Gift Menu.
Local Open Scope menu_scope.

Definition load_data : M dict :=
  Run.bind path_exists (fun found =>
  if negb found then ret []
  else
    try_except
      (Run.bind read_file (fun text =>
       Run.bind (json_load text) (fun data =>
       match data with
       | VDict entries => cleanup (keys entries) entries
       | _ => ret []
       end)))
      (fun _ => true)
      (ret [])).

Definition recipients_screen : M unit := ret tt.
Definition add_recipient_screen : M unit := ret tt.
Definition gift_list_screen (recipient_name : str) : M unit := ret tt.
Definition add_gift_screen (recipient_name : str) : M unit := ret tt.

Definition main_menu : M bool :=
  Run.bind (print (nl ++ lit "Gift Idea Saver" ++ nl)) (fun _ =>
  Run.bind (print (lit "What would you like to do?" ++ nl)) (fun _ =>
  Run.bind (print (lit "[1] View recipients")) (fun _ =>
  Run.bind (print (lit "[2] Add a new recipient")) (fun _ =>
  Run.bind (print (lit "[0] Exit" ++ nl)) (fun _ =>
  Run.bind (get_input (lit "Enter your choice: > ")) (fun choice =>
  if negb (is_number choice) then
    Run.bind (print (lit "Invalid input.")) (fun _ => ret true)
  else
    Run.bind (int choice) (fun choice =>
    if Z.eqb choice 1 then
      Run.bind recipients_screen (fun _ => ret true)
    else if Z.eqb choice 2 then
      Run.bind add_recipient_screen (fun _ => ret true)
    else if Z.eqb choice 0 then
      Run.bind (print (nl ++ lit "Goodbye!" ++ nl)) (fun _ => ret false)
    else ret true))))))).

Fixpoint main_loop (budget : nat) : Flow unit :=
  match budget with
  | O => unfinished
  | S budget' =>
      running <- lift main_menu ;;
      if running then main_loop budget' else finish tt
  end.

Definition run_program (budget : nat) : Flow unit :=
  data <- lift load_data ;;
  lift (set_data data) ;;
  main_loop budget.

End Draft.

(* ================================================================== *)
(** * Notions used to state the properties of a whole run *)
(* ================================================================== *)

Module Whole.
Import Str Py Json Run Gift Spec Menu Nav.

(** The listing of the recipients screen: one line per name, numbered from
    [i + 1]. *)
Fixpoint recipient_lines (i : nat) (recipients : list str) : list str :=
  match recipients with
  | [] => []
  | name :: rest =>
      (lit "[" ++ decimal (Z.of_nat i + 1) ++ lit "] " ++ name)
      :: recipient_lines (S i) rest
  end.

(** [grows v v']: [v'] is [v], or [v] is a list and [v'] is that list with
    more items after it. *)
Definition grows (v v' : value) : Prop :=
  v' = v \/ exists gifts more, v = VList gifts /\ v' = VList (gifts ++ more).

(** [extends d d']: nothing of [d] has been removed, reordered or changed
    in [d']; recipients may have been added after the ones of [d], and
    gifts after the ones of a recipient. *)
Definition extends (d d' : dict) : Prop :=
  (exists more, keys d' = keys d ++ more) /\
  forall k v, getitem k d = Some v ->
    exists v', getitem k d' = Some v' /\ grows v v'.

Definition kept (w w' : world) : Prop := extends (data w) (data w').

(** The file has not been touched, or it holds the document as it is in
    memory. *)
Definition in_step (w w' : world) : Prop :=
  same_store w w' \/
  (disk w' = Some (saved (data w')) /\ (writes w < writes w')%nat).

(** The console only moves forward: the lines still to be typed are a tail
    of what they were, and what has been printed is still there. *)
Definition forward (w w' : world) : Prop :=
  (exists read, stdin w = read ++ stdin w') /\
  (exists printed, stdout w' = printed ++ stdout w).

(** A gift record as the program writes it and the gifts screen displays
    it: a dict with a string for "idea" and a string for "occasion". *)
Definition is_record (v : value) : bool :=
  match v with
  | VDict entries =>
      match getitem (lit "idea") entries, getitem (lit "occasion") entries with
      | Some (VStr _), Some (VStr _) => true
      | _, _ => false
      end
  | _ => false
  end.

Definition is_gift_list (v : value) : bool :=
  match v with
  | VList gifts => forallb is_record gifts
  | _ => false
  end.

(** Every recipient has a list of gift records. *)
Definition shaped (d : dict) : bool :=
  forallb (fun e => is_gift_list (snd e)) d.

(** A shaped document stays shaped. *)
Definition tidy (w w' : world) : Prop :=
  shaped (data w) = true -> shaped (data w') = true.

(** No character of the line is a digit without being a decimal digit. *)
Definition plain_digits (line : str) : bool :=
  forallb (fun c => implb (isdigit_char c) (isdecimal_char c)) line.

(** [hoare fails stuck P n Q]: run from a world where [P] holds, [n]
    finishes in a world where [Q] holds of its result, or fails with a
    fault and in a world that [fails] allows; it runs out of budget only
    in a world that [stuck] allows. *)
Definition hoare (fails : fault -> world -> Prop) (stuck : world -> Prop) {A}
    (P : world -> Prop) (n : Flow A) (Q : A -> world -> Prop) : Prop :=
  forall w, P w ->
    match n w with
    | (Finished a, w') => Q a w'
    | (Failed f, w') => fails f w'
    | (Unfinished, w') => stuck w'
    end.

(** [always_n R n]: [always] for the computations of the menus. *)
Definition always_n (R : world -> world -> Prop) {A} (n : Flow A) : Prop :=
  forall w, R w (snd (n w)).

(** Fewer than [n] lines are left to be typed. *)
Definition short (n : nat) (w : world) : Prop := (length (stdin w) < n)%nat.

Definition any (f : fault) (w : world) : Prop := True.
Definition never (w : world) : Prop := False.
Definition anywhere (w : world) : Prop := True.

(** A line that passes [is_number] once stripped, and that [int] then
    refuses. *)
Definition misread (line : str) : Prop :=
  is_number (strip line) = true /\ to_int (strip line) = None.

(** The faults to expect of a run that is given [lines]: the lines come to
    an end, or one of them is misread. *)
Definition expected (lines : list str) (f : fault) : Prop :=
  f = Exn EOFError \/ (f = Exn ValueError /\ Exists misread lines).

(** The state of a run that was given [lines]: the document is [good] and
    satisfies [D], and the lines still to be typed are a tail of [lines]. *)
Definition sound (good : dict -> Prop) (lines : list str)
    (D : dict -> Prop) (w : world) : Prop :=
  good (data w) /\ D (data w) /\
  exists read, lines = read ++ stdin w.

Definition has (r : str) (d : dict) : Prop := In r (keys d).
Definition whatever (d : dict) : Prop := True.

(** A run that was given [lines] has stopped on an expected fault, in a
    sound state. *)
Definition stopped (good : dict -> Prop) (lines : list str)
    (f : fault) (w : world) : Prop :=
  expected lines f /\ sound good lines whatever w.

(** [choice] is one of the [lines], stripped. *)
Definition typed (lines : list str) (choice : str) : Prop :=
  exists line, In line lines /\ choice = strip line.

(** An occasion that [choose_occasion] returns when it reads [lines]. *)
Definition chosen (lines : list str) (o : str) : Prop :=
  o = lit "Birthday" \/ o = lit "Christmas" \/
  exists label, typed lines label /\ o = lit "Other: " ++ clean_text label.

(** A word: what [split] returns, a non-empty run of characters that are
    not whitespace. *)
Definition nonspace (c : char) : bool := negb (isspace c).
Definition word (w : str) : Prop := w <> [] /\ forallb nonspace w = true.

(** [refines n n']: whenever [n] comes to an end within its budget, [n']
    does the same. *)
Definition refines {A} (n n' : Flow A) : Prop :=
  forall w, fst (n w) <> Unfinished -> n' w = n w.

(** The last thing printed is the farewell of the main menu. *)
Definition said_goodbye (w : world) : Prop :=
  exists printed, stdout w = (nl ++ lit "Goodbye!" ++ nl) :: printed.

(** The line of the gifts screen for one gift, and the lines of the
    screen from its heading to its prompt (latest first, as in [stdout])
    for a recipient with the gifts [pairs]. *)
Definition gift_line (pair : str * str) : str :=
  lit "- " ++ fst pair ++ lit " (" ++ snd pair ++ lit ")".

Definition record_of (pair : str * str) : value :=
  gift_obj (fst pair) (snd pair).

Definition gifts_page (recipient_name : str) (pairs : list (str * str))
  : list str :=
  [lit "Enter your choice: > ";
   lit "[0] Return to main menu" ++ nl;
   lit "[2] Return to recipient list";
   lit "[1] Add a gift idea"]
  ++ match pairs with
     | [] => [lit "(No gift ideas yet.)" ++ nl]
     | _ => [] :: rev (map gift_line pairs)
     end
  ++ [nl ++ lit "Gift Ideas for " ++ recipient_name ++ lit ":" ++ nl].

(** A neat text: not empty, and as [clean_text] leaves it (no whitespace
    at its ends, single spaces between its words). *)
Definition neat (s : str) : bool :=
  (negb (eqb s []) && eqb (clean_text s) s)%bool.

(** A name or an idea as the screens accept it: neat, and not the word
    "cancel" in any case. *)
Definition accepted (s : str) : bool :=
  (neat s && negb (eqb (lower s) (lit "cancel")))%bool.

(** The occasions that [choose_occasion] returns. *)
Definition occasion_form (o : str) : Prop :=
  o = lit "Birthday" \/ o = lit "Christmas" \/
  exists label, o = lit "Other: " ++ label /\ neat label = true.




End Whole.

(* ================================================================== *)
(** * Facts about strings and dicts *)
(* ================================================================== *)

Module StrFacts.
Import Str Spec.

Lemma eqb_eq (a b : str) : eqb a b = true <-> a = b.
Proof.
  revert b; induction a as [|x a IH]; intros [|y b]; simpl;
    try (split; congruence).
  rewrite andb_true_iff, N.eqb_eq, IH. split.
  - intros [-> ->]; reflexivity.
  - intros E; injection E; auto.
Qed.

Lemma eqb_refl (a : str) : eqb a a = true.
Proof. apply eqb_eq; reflexivity. Qed.

Lemma eqb_neq (a b : str) : eqb a b = false <-> a <> b.
Proof.
  rewrite <- eqb_eq. destruct (eqb a b); split; congruence.
Qed.

Lemma eqb_sym (a b : str) : eqb a b = eqb b a.
Proof.
  destruct (eqb a b) eqn:E.
  - apply eqb_eq in E; subst; symmetry; apply eqb_refl.
  - symmetry; apply eqb_neq; apply eqb_neq in E; congruence.
Qed.

Lemma ltb_irrefl (a : str) : ltb a a = false.
Proof.
  induction a as [|x a IH]; simpl; [reflexivity|].
  rewrite N.ltb_irrefl, N.eqb_refl; exact IH.
Qed.

Lemma ltb_asym (a b : str) : ltb a b = true -> ltb b a = false.
Proof.
  revert b; induction a as [|x a IH]; intros [|y b]; simpl; try congruence.
  destruct (N.ltb_spec x y), (N.ltb_spec y x), (N.eqb_spec x y),
    (N.eqb_spec y x); try lia; try congruence; auto.
Qed.

Lemma ltb_trans (a b c : str) :
  ltb a b = true -> ltb b c = true -> ltb a c = true.
Proof.
  revert b c; induction a as [|x a IH]; intros [|y b] [|z c]; simpl;
    try congruence.
  destruct (N.ltb_spec x y), (N.ltb_spec y z), (N.ltb_spec x z),
    (N.eqb_spec x y), (N.eqb_spec y z), (N.eqb_spec x z);
    try lia; try congruence; eauto.
Qed.

Lemma le_refl (a : str) : le a a.
Proof. apply ltb_irrefl. Qed.

Lemma le_trans (a b c : str) : le a b -> le b c -> le a c.
Proof.
  unfold le. revert b c; induction a as [|x a IH]; intros [|y b] [|z c];
    simpl; try congruence.
  destruct (N.ltb_spec y x), (N.ltb_spec z y), (N.ltb_spec z x),
    (N.eqb_spec y x), (N.eqb_spec z y), (N.eqb_spec z x);
    try lia; try congruence; eauto.
Qed.

Lemma le_total (a b : str) : le a b \/ le b a.
Proof.
  unfold le. destruct (ltb b a) eqn:E; [right; apply ltb_asym; exact E | left; reflexivity].
Qed.

Lemma le_antisym (a b : str) : le a b -> le b a -> a = b.
Proof.
  unfold le. revert b; induction a as [|x a IH]; intros [|y b]; simpl;
    try congruence.
  destruct (N.ltb_spec y x), (N.ltb_spec x y), (N.eqb_spec y x),
    (N.eqb_spec x y); try lia; try congruence.
  intros; f_equal; auto.
Qed.

End StrFacts.

Module DictFacts.
Import Str Py StrFacts Spec.

Lemma contains_In (k : str) (d : dict) :
  contains k d = true <-> In k (keys d).
Proof.
  unfold contains, keys. induction d as [|[k' v] d IH]; simpl.
  - split; [congruence | tauto].
  - rewrite orb_true_iff, eqb_eq, IH. tauto.
Qed.

Lemma contains_false (k : str) (d : dict) :
  contains k d = false <-> ~ In k (keys d).
Proof.
  rewrite <- contains_In. destruct (contains k d); split; congruence.
Qed.

Lemma getitem_None (k : str) (d : dict) :
  getitem k d = None <-> ~ In k (keys d).
Proof.
  unfold keys. induction d as [|[k' v] d IH]; simpl.
  - tauto.
  - destruct (eqb k' k) eqn:E.
    + apply eqb_eq in E. split; [congruence | tauto].
    + apply eqb_neq in E. rewrite IH. tauto.
Qed.

Lemma getitem_Some_In (k : str) (v : value) (d : dict) :
  getitem k d = Some v -> In k (keys d).
Proof.
  intros H. destruct (in_dec (list_eq_dec N.eq_dec) k (keys d)) as [I|I];
    [exact I|]. apply getitem_None in I. congruence.
Qed.

Lemma In_getitem (k : str) (d : dict) :
  In k (keys d) -> exists v, getitem k d = Some v.
Proof.
  intros I. destruct (getitem k d) eqn:E; [eauto|].
  apply getitem_None in E. tauto.
Qed.

(** A new key goes last. *)
Lemma setitem_new (k : str) (v : value) (d : dict) :
  ~ In k (keys d) -> setitem k v d = d ++ [(k, v)].
Proof.
  unfold keys. induction d as [|[k' v'] d IH]; simpl; intros H.
  - reflexivity.
  - destruct (eqb k' k) eqn:E.
    + apply eqb_eq in E. tauto.
    + rewrite IH by tauto. reflexivity.
Qed.

Lemma keys_setitem_old (k : str) (v : value) (d : dict) :
  In k (keys d) -> keys (setitem k v d) = keys d.
Proof.
  unfold keys. induction d as [|[k' v'] d IH]; simpl; intros H.
  - tauto.
  - destruct (eqb k' k) eqn:E; simpl; [reflexivity|].
    apply eqb_neq in E. rewrite IH; [reflexivity|]. destruct H; congruence.
Qed.

Lemma getitem_setitem_same (k : str) (v : value) (d : dict) :
  getitem k (setitem k v d) = Some v.
Proof.
  induction d as [|[k' v'] d IH]; simpl.
  - rewrite eqb_refl; reflexivity.
  - destruct (eqb k' k) eqn:E; simpl; rewrite E; auto.
Qed.

Lemma getitem_setitem_other (k k0 : str) (v : value) (d : dict) :
  k0 <> k -> getitem k0 (setitem k v d) = getitem k0 d.
Proof.
  intros N. induction d as [|[k' v'] d IH]; simpl.
  - assert (eqb k k0 = false) as -> by (apply eqb_neq; congruence).
    reflexivity.
  - destruct (eqb k' k) eqn:E; simpl.
    + apply eqb_eq in E; subst k'.
      assert (eqb k k0 = false) as -> by (apply eqb_neq; congruence).
      reflexivity.
    + destruct (eqb k' k0); auto.
Qed.

Lemma In_keys_setitem (k k0 : str) (v : value) (d : dict) :
  In k0 (keys (setitem k v d)) <-> k0 = k \/ In k0 (keys d).
Proof.
  unfold keys. induction d as [|[k' v'] d IH]; simpl.
  - intuition congruence.
  - destruct (eqb k' k) eqn:E; simpl.
    + apply eqb_eq in E; subst. intuition congruence.
    + rewrite IH. intuition congruence.
Qed.

Lemma NoDup_keys_setitem (k : str) (v : value) (d : dict) :
  NoDup (keys d) -> NoDup (keys (setitem k v d)).
Proof.
  intros H. destruct (in_dec (list_eq_dec N.eq_dec) k (keys d)) as [I|I].
  - rewrite keys_setitem_old; assumption.
  - rewrite setitem_new by assumption. unfold keys in *.
    rewrite map_app; simpl.
    apply NoDup_app; try assumption.
    + constructor; [simpl; tauto | constructor].
    + intros x Hx [<-|[]]. tauto.
Qed.

End DictFacts.

(* ================================================================== *)
(** * Facts about the JSON text and its bytes *)
(* ================================================================== *)

Module ValueInd.
Import Str Py Spec.

(** Induction over values, through the lists they nest in. *)
Section Principle.
Variable P : value -> Prop.
Hypothesis HNone : P VNone.
Hypothesis HBool : forall b, P (VBool b).
Hypothesis HInt : forall z, P (VInt z).
Hypothesis HFloat : forall f, P (VFloat f).
Hypothesis HStr : forall s, P (VStr s).
Hypothesis HList : forall items, Forall P items -> P (VList items).
Hypothesis HDict :
    forall entries, Forall (fun e => P (snd e)) entries -> P (VDict entries).

Fixpoint value_nested_ind (v : value) : P v :=
    match v with
    | VNone => HNone
    | VBool b => HBool b
    | VInt z => HInt z
    | VFloat f => HFloat f
    | VStr s => HStr s
    | VList items =>
        HList items ((fix all (l : list value) : Forall P l :=
                  match l with
                  | [] => Forall_nil P
                  | x :: l' => Forall_cons x (value_nested_ind x) (all l')
                  end) items)
    | VDict entries =>
        HDict entries ((fix all (l : list (str * value))
                  : Forall (fun e => P (snd e)) l :=
                  match l with
                  | [] => Forall_nil _
                  | (k, x) :: l' =>
                      Forall_cons (k, x) (value_nested_ind x) (all l')
                  end) entries)
    end.
End Principle.

End ValueInd.

Module TextFacts.
Import Str Py Json ValueInd Spec.

Lemma plain_app (a b : str) : plain a -> plain b -> plain (a ++ b).
Proof. unfold plain; intros; rewrite forallb_app; apply andb_true_iff; auto. Qed.

Lemma plain_cons (c : char) (s : str) :
  is_plain c = true -> plain s -> plain (c :: s).
Proof. unfold plain; simpl; intros -> ->; reflexivity. Qed.

Lemma plain_nil : plain [].
Proof. reflexivity. Qed.

Create HintDb plain.
#[local] Hint Resolve plain_app plain_cons plain_nil : plain.

Lemma plain_hex_digit (n : N) : (n < 16)%N -> is_plain (hex_digit n) = true.
Proof.
  intros H. unfold hex_digit, is_plain.
  destruct (N.ltb_spec n 10);
    apply orb_true_iff; right; apply andb_true_iff; split; apply N.leb_le; lia.
Qed.

Lemma plain_u_escape (n : N) : plain (u_escape n).
Proof.
  unfold u_escape, plain. simpl.
  rewrite !plain_hex_digit by (apply N.mod_lt; lia). reflexivity.
Qed.

Lemma plain_escape_char (c : char) : plain (escape_char c).
Proof.
  unfold escape_char.
  repeat match goal with
         | |- plain (if ?b then _ else _) => destruct b eqn:?
         end; try reflexivity; auto using plain_u_escape with plain.
  unfold plain; simpl. unfold is_plain.
  match goal with H : (_ && _)%bool = true |- _ => rewrite H end.
  rewrite orb_true_r; reflexivity.
Qed.

Lemma plain_flat_map (f : char -> str) (s : str) :
  (forall c, plain (f c)) -> plain (flat_map f s).
Proof. intros H; induction s; simpl; auto with plain. Qed.

Lemma plain_encode_string (s : str) : plain (encode_string s).
Proof.
  unfold encode_string.
  apply plain_app; [reflexivity|].
  apply plain_app; [|reflexivity].
  apply plain_flat_map, plain_escape_char.
Qed.

Lemma plain_uint_chars (d : Decimal.uint) : plain (uint_chars d).
Proof. induction d; simpl; auto with plain. Qed.

Lemma plain_int_chars (i : Decimal.int) : plain (int_chars i).
Proof. destruct i; simpl; auto using plain_uint_chars with plain. Qed.

Lemma plain_fraction_chars (f : Decimal.uint) : plain (fraction_chars f).
Proof.
  unfold fraction_chars.
  destruct f; try reflexivity; apply plain_cons; try reflexivity;
    apply plain_uint_chars.
Qed.

Lemma plain_encode_float (f : float) : plain (encode_float f).
Proof.
  destruct f as [|[]|[i f|i f e]]; simpl; try reflexivity;
    auto using plain_int_chars, plain_fraction_chars with plain.
Qed.

Lemma plain_newline_indent (level : nat) : plain (newline_indent level).
Proof.
  unfold newline_indent. apply plain_cons; [reflexivity|].
  induction (2 * level)%nat; simpl; auto with plain.
Qed.

Lemma plain_join (sep : str) (parts : list str) :
  plain sep -> Forall plain parts -> plain (join sep parts).
Proof.
  intros Hs H. induction H as [|p ps Hp Hps IH]; simpl; [reflexivity|].
  destruct ps; auto with plain.
Qed.

(** The two container cases of [encode], as equations. *)
Lemma encode_list (level : nat) (x : value) (items : list value) :
  encode level (VList (x :: items)) =
  [91%N] ++ newline_indent (S level)
  ++ join (44%N :: newline_indent (S level))
          (map (encode (S level)) (x :: items))
  ++ newline_indent level ++ [93%N].
Proof. reflexivity. Qed.

Lemma encode_dict (level : nat) (e : str * value) (entries : dict) :
  encode level (VDict (e :: entries)) =
  [123%N] ++ newline_indent (S level)
  ++ join (44%N :: newline_indent (S level))
          (map (fun e => encode_string (fst e) ++ lit ": "
                         ++ encode (S level) (snd e)) (e :: entries))
  ++ newline_indent level ++ [125%N].
Proof. reflexivity. Qed.

Lemma plain_encode (v : value) : forall level, plain (encode level v).
Proof.
  induction v using value_nested_ind; intros level.
  - reflexivity.
  - destruct b; reflexivity.
  - apply plain_int_chars.
  - apply plain_encode_float.
  - apply plain_encode_string.
  - destruct items as [|x items]; [reflexivity|].
    rewrite encode_list.
    repeat apply plain_app; auto using plain_newline_indent;
      try reflexivity.
    apply plain_join; [auto using plain_newline_indent with plain|].
    apply Forall_map. revert H; apply Forall_impl; auto.
  - destruct entries as [|e entries]; [reflexivity|].
    rewrite encode_dict.
    repeat apply plain_app; auto using plain_newline_indent;
      try reflexivity.
    apply plain_join; [auto using plain_newline_indent with plain|].
    apply Forall_map. revert H; apply Forall_impl.
    intros a Ha. apply plain_app; [apply plain_encode_string|].
    apply plain_app; [reflexivity | apply Ha].
Qed.

Lemma plain_dumps (v : value) : plain (dumps v).
Proof. apply plain_encode. Qed.

Lemma plain_lt (s : str) : plain s -> Forall (fun c => (c < 128)%N) s.
Proof.
  unfold plain. rewrite forallb_forall, Forall_forall.
  intros H c Hc. specialize (H c Hc). unfold is_plain in H.
  apply orb_true_iff in H as [H|H].
  - apply N.eqb_eq in H; lia.
  - apply andb_true_iff in H as [_ H]. apply N.leb_le in H; lia.
Qed.

Lemma plain_no_cr (s : str) : plain s -> ~ In 13%N s.
Proof.
  unfold plain. rewrite forallb_forall. intros H Hc.
  specialize (H _ Hc). discriminate H.
Qed.

(** Plain text is its own UTF-8 encoding, byte for character. *)
Lemma encode_ascii (s : str) :
  Forall (fun c => (c < 128)%N) s ->
  Utf8.encode s = Some (map Utf8.byte_of_N s).
Proof.
  intros H. unfold Utf8.encode.
  assert (Utf8.encode_N s = Some s) as ->; [|reflexivity].
  induction H as [|c s Hc Hs IH]; simpl; [reflexivity|].
  unfold Utf8.encode_char.
  destruct (N.ltb_spec c 128); [|lia]. rewrite IH. reflexivity.
Qed.

Lemma to_N_byte_of_N (c : N) :
  (c < 256)%N -> Byte.to_N (Utf8.byte_of_N c) = c.
Proof.
  intros H. unfold Utf8.byte_of_N.
  destruct (Byte.of_N c) eqn:E.
  - apply Byte.to_of_N; exact E.
  - apply Byte.of_N_None_iff in E. lia.
Qed.

Lemma decode_ascii (s : str) :
  Forall (fun c => (c < 128)%N) s ->
  Utf8.decode (map Utf8.byte_of_N s) = Some s.
Proof.
  intros H. unfold Utf8.decode.
  induction H as [|c s Hc Hs IH]; simpl; [reflexivity|].
  rewrite to_N_byte_of_N by lia.
  destruct (N.ltb_spec c 128); [|lia]. rewrite IH. reflexivity.
Qed.

Lemma universal_newlines_id (s : str) :
  ~ In 13%N s -> Run.universal_newlines s = s.
Proof.
  induction s as [|c s IH]; simpl; intros H; [reflexivity|].
  destruct (N.eqb_spec c 13); [tauto|]. rewrite IH by tauto. reflexivity.
Qed.

End TextFacts.

(* ================================================================== *)
(** * The domain operations *)
(* ================================================================== *)

Module Ops.
Import Str Py Run Gift StrFacts DictFacts TextFacts Spec.
Local Open Scope run_scope.

(** Saving never fails and leaves exactly the printed document on disk. *)
Lemma save_data_run (w : world) :
  save_data w =
  (Return tt,
   World (data w) (Some (saved (data w))) (S (writes w)) (stdin w) (stdout w)).
Proof.
  unfold save_data, bind, get_data, write_file; simpl.
  rewrite (encode_ascii _ (plain_lt _ (plain_dumps _))). reflexivity.
Qed.

Lemma add_recipient_new (w : world) (name : str) :
  ~ In name (keys (data w)) ->
  add_recipient_to_data name w =
  (Return true,
   World (data w ++ [(name, VList [])])
         (Some (saved (data w ++ [(name, VList [])])))
         (S (writes w)) (stdin w) (stdout w)).
Proof.
  intros H. unfold add_recipient_to_data, bind, get_data.
  apply contains_false in H. rewrite H; simpl.
  apply contains_false in H. rewrite save_data_run; simpl.
  rewrite setitem_new by assumption. reflexivity.
Qed.

Lemma add_recipient_old (w : world) (name : str) :
  In name (keys (data w)) ->
  add_recipient_to_data name w = (Return false, w).
Proof.
  intros H. unfold add_recipient_to_data, bind, get_data.
  apply contains_In in H. rewrite H; reflexivity.
Qed.

Lemma add_gift_run (w : world) (r g o : str) (gifts : list value) :
  getitem r (data w) = Some (VList gifts) ->
  let d' := setitem r (VList (gifts ++ [gift_obj g o])) (data w) in
  add_gift_to_recipient r g o w =
  (Return tt, World d' (Some (saved d')) (S (writes w)) (stdin w) (stdout w)).
Proof.
  intros H d'. unfold add_gift_to_recipient, bind, get_data.
  rewrite H. unfold set_data. rewrite save_data_run. reflexivity.
Qed.

Lemma add_gift_missing (w : world) (r g o : str) :
  ~ In r (keys (data w)) ->
  add_gift_to_recipient r g o w = (Raise KeyError, w).
Proof.
  intros H. unfold add_gift_to_recipient, bind, get_data.
  apply getitem_None in H. rewrite H. reflexivity.
Qed.

Lemma getitem_app_new (k : str) (v : value) (d : dict) :
  ~ In k (keys d) -> getitem k (d ++ [(k, v)]) = Some v.
Proof.
  intros H. rewrite <- setitem_new by assumption.
  apply getitem_setitem_same.
Qed.

Lemma getitem_app_other (k k0 : str) (v : value) (d : dict) :
  k0 <> k -> getitem k0 (d ++ [(k, v)]) = getitem k0 d.
Proof.
  intros H. induction d as [|[k' v'] d IH]; simpl.
  - assert (eqb k k0 = false) as -> by (apply eqb_neq; congruence).
    reflexivity.
  - rewrite IH. reflexivity.
Qed.

(** ** Sorting *)

Lemma insert_sorted_perm (x : str) (l : list str) :
  Permutation (x :: l) (insert_sorted x l).
Proof.
  induction l as [|y l IH]; simpl; [reflexivity|].
  destruct (ltb y x); [|reflexivity].
  rewrite perm_swap. constructor. exact IH.
Qed.

Lemma sort_perm (l : list str) : Permutation l (sort l).
Proof.
  induction l as [|x l IH]; simpl; [reflexivity|].
  rewrite <- insert_sorted_perm. constructor. exact IH.
Qed.

Lemma insert_sorted_sorted (x : str) (l : list str) :
  StronglySorted le l -> StronglySorted le (insert_sorted x l).
Proof.
  induction 1 as [|y l Hs IH Hy]; simpl.
  - constructor; constructor.
  - destruct (ltb y x) eqn:E.
    + constructor; [exact IH|].
      apply (Permutation_Forall (insert_sorted_perm x l)).
      constructor; [apply ltb_asym; exact E | exact Hy].
    + constructor; [constructor; assumption|].
      constructor; [exact E|].
      revert Hy; apply Forall_impl. intros z Hz.
      apply le_trans with y; [exact E | exact Hz].
Qed.

Lemma sort_sorted (l : list str) : StronglySorted le (sort l).
Proof.
  induction l as [|x l IH]; simpl; [constructor|].
  apply insert_sorted_sorted, IH.
Qed.

End Ops.

(* ================================================================== *)
(** * The screens *)
(* ================================================================== *)

Module Screens.
Import Str Py Run Gift StrFacts DictFacts TextFacts Ops Spec.
Local Open Scope run_scope.

Section Always.
Variable R : world -> world -> Prop.
Hypothesis R_refl : forall w, R w w.
Hypothesis R_trans : forall a b c, R a b -> R b c -> R a c.
Hypothesis R_console :
    forall w i o, R w (World (data w) (disk w) (writes w) i o).

Lemma always_ret {A} (a : A) : always R (ret a).
  Proof. intros w; apply R_refl. Qed.

Lemma always_raise {A} (e : exn) : always R (@raise A e).
  Proof. intros w; apply R_refl. Qed.

Lemma always_bind {A B} (m : M A) (k : A -> M B) :
    always R m -> (forall a, always R (k a)) -> always R (bind m k).
  Proof.
    intros Hm Hk w. unfold bind. specialize (Hm w).
    destruct (m w) as [[a|e] w1]; simpl in *; [|exact Hm].
    eapply R_trans; [exact Hm | apply Hk].
  Qed.

Lemma always_print (s : str) : always R (print s).
  Proof. intros w; apply R_console. Qed.

Lemma always_input (p : str) : always R (input p).
  Proof.
    intros w. unfold input. destruct (stdin w); simpl; apply R_console.
  Qed.

Lemma always_get_input (p : str) : always R (get_input p).
  Proof.
    apply always_bind; [apply always_input | intros; apply always_ret].
  Qed.

Lemma always_int (s : str) : always R (int s).
  Proof.
    unfold int. destruct (to_int s); [apply always_ret | apply always_raise].
  Qed.

Lemma always_choose_occasion : always R choose_occasion.
  Proof.
    unfold choose_occasion.
    repeat (apply always_bind; [apply always_print | intros _]).
    apply always_bind; [apply always_get_input | intros choice].
    destruct (negb (is_number choice)); [apply always_ret|].
    apply always_bind; [apply always_int | intros n].
    repeat match goal with
           | |- always R (if ?b then _ else _) => destruct b
           | |- always R (ret _) => apply always_ret
           end.
    apply always_bind; [apply always_get_input | intros other].
    destruct (eqb (clean_text other) []); apply always_ret.
  Qed.
End Always.

Lemma same_store_refl (w : world) : same_store w w.
Proof. repeat split. Qed.

Lemma same_store_trans (a b c : world) :
  same_store a b -> same_store b c -> same_store a c.
Proof. unfold same_store; intuition congruence. Qed.

Lemma same_store_console (w : world) (i o : list str) :
  same_store w (World (data w) (disk w) (writes w) i o).
Proof. repeat split. Qed.

Lemma gifts_added_refl (w : world) : gifts_added w w.
Proof. repeat split; auto. Qed.

Lemma gifts_added_trans (a b c : world) :
  gifts_added a b -> gifts_added b c -> gifts_added a c.
Proof.
  unfold gifts_added. intros (K1 & W1 & D1) (K2 & W2 & D2).
  repeat split; [congruence | lia | auto].
Qed.

Lemma gifts_added_console (w : world) (i o : list str) :
  gifts_added w (World (data w) (disk w) (writes w) i o).
Proof. repeat split; auto. Qed.


Lemma add_gift_to_recipient_gifts_added (r g o : str) :
  always gifts_added (add_gift_to_recipient r g o).
Proof.
  intros w. destruct (getitem r (data w)) as [v|] eqn:E.
  - destruct v; try (unfold add_gift_to_recipient, bind, get_data;
                     rewrite E; apply gifts_added_refl).
    rewrite (add_gift_run w r g o items E). simpl.
    repeat split; simpl; auto.
    apply keys_setitem_old. eapply getitem_Some_In; exact E.
  - unfold add_gift_to_recipient, bind, get_data.
    rewrite E; apply gifts_added_refl.
Qed.

Lemma gifts_added_print (s : str) : always gifts_added (print s).
Proof. exact (always_print gifts_added gifts_added_console s). Qed.

Lemma gifts_added_get_input (p : str) : always gifts_added (get_input p).
Proof.
  exact (always_get_input gifts_added gifts_added_refl gifts_added_trans
           gifts_added_console p).
Qed.

Lemma gifts_added_bind {A B} (m : M A) (k : A -> M B) :
  always gifts_added m -> (forall a, always gifts_added (k a)) ->
  always gifts_added (bind m k).
Proof. exact (always_bind gifts_added gifts_added_trans m k). Qed.

Lemma add_gift_screen_gifts_added (r : str) :
  always gifts_added (add_gift_screen r).
Proof.
  unfold add_gift_screen.
  apply gifts_added_bind; [apply gifts_added_print | intros _].
  apply gifts_added_bind; [apply gifts_added_get_input | intros g].
  destruct (eqb (lower g) (lit "cancel")); [apply gifts_added_print|].
  destruct (eqb (clean_text g) []); [apply gifts_added_print|].
  apply gifts_added_bind; [|intros occ].
  { exact (always_choose_occasion gifts_added gifts_added_refl
             gifts_added_trans gifts_added_console). }
  destruct occ as [occ|]; [|apply gifts_added_print].
  repeat (apply gifts_added_bind; [apply gifts_added_print | intros _]).
  apply gifts_added_bind; [apply gifts_added_get_input | intros c].
  destruct (eqb c (lit "2")); [apply gifts_added_print|].
  apply gifts_added_bind;
    [apply add_gift_to_recipient_gifts_added | intros _].
  apply gifts_added_bind; [apply gifts_added_print | intros _].
  apply gifts_added_print.
Qed.

(** ** Running the screens on given input *)

Ltac run :=
  repeat (progress (unfold bind, print, get_input, input, ret, raise, int;
                    cbn [data disk writes stdin stdout])).


Lemma choose_occasion_number d k n (c : str) rest out (z : Z) :
  is_number (strip c) = true -> to_int (strip c) = Some z ->
  z <> 3%Z ->
  exists out',
    choose_occasion (World d k n (c :: rest) out)
    = (Return (if Z.eqb z 1 then Some (lit "Birthday")
               else if Z.eqb z 2 then Some (lit "Christmas")
               else None),
       World d k n rest out').
Proof.
  intros H1 H2 H3. unfold choose_occasion. run. rewrite H1, H2.
  cbn [negb]. run.
  destruct (Z.eqb_spec z 0) as [->|]; [eexists; reflexivity|].
  destruct (Z.eqb_spec z 1); [eexists; reflexivity|].
  destruct (Z.eqb_spec z 2); [eexists; reflexivity|].
  destruct (Z.eqb_spec z 3); [tauto|]. eexists; reflexivity.
Qed.

Lemma choose_occasion_other d k n (c label : str) rest out :
  is_number (strip c) = true -> to_int (strip c) = Some 3%Z ->
  exists out',
    choose_occasion (World d k n (c :: label :: rest) out)
    = (Return (if eqb (clean_text (strip label)) [] then None
               else Some (lit "Other: " ++ clean_text (strip label))),
       World d k n rest out').
Proof.
  intros H1 H2. unfold choose_occasion. run. rewrite H1, H2.
  cbn [negb]. run. cbn [Z.eqb Pos.eqb]. run.
  destruct (eqb (clean_text (strip label)) []); eexists; reflexivity.
Qed.

Lemma choose_occasion_picks d k n lines occasion rest out :
  picks lines occasion rest ->
  exists out',
    choose_occasion (World d k n lines out)
    = (Return (Some occasion), World d k n rest out').
Proof.
  intros [c r _ H1 H2 | c r _ H1 H2 | c label r _ H1 H2 H3].
  - destruct (choose_occasion_number d k n c r out 1 H1 H2) as [o E];
      [discriminate | exists o; exact E].
  - destruct (choose_occasion_number d k n c r out 2 H1 H2) as [o E];
      [discriminate | exists o; exact E].
  - destruct (choose_occasion_other d k n c label r out H1 H2) as [o E].
    exists o. rewrite E. apply eqb_neq in H3. rewrite H3. reflexivity.
Qed.

Lemma add_recipient_screen_cancel d k n (line : str) rest out :
  eqb (lower (strip line)) (lit "cancel") = true ->
  exists out',
    add_recipient_screen (World d k n (line :: rest) out)
    = (Return tt, World d k n rest out').
Proof.
  intros H. unfold add_recipient_screen. run. rewrite H.
  run. eexists; reflexivity.
Qed.

(** The add-recipient screen up to its confirm prompt, answered by [c]. *)
Lemma add_recipient_screen_declined d k n (line c : str) rest out :
  eqb (lower (strip line)) (lit "cancel") = false ->
  clean_text (strip line) <> [] ->
  strip c = lit "2" ->
  exists out',
    add_recipient_screen (World d k n (line :: c :: rest) out)
    = (Return tt, World d k n rest out').
Proof.
  intros H1 H2 H3. apply eqb_neq in H2.
  unfold add_recipient_screen. run. rewrite H1, H2. run.
  rewrite H3, eqb_refl. run. eexists; reflexivity.
Qed.

Lemma bind_print {B} (s : str) (k : unit -> M B) (w : world) :
  bind (print s) k w
  = k tt (World (data w) (disk w) (writes w) (stdin w) (s :: stdout w)).
Proof. reflexivity. Qed.

Lemma bind_get_input {B} (p : str) (k : str -> M B) d f n line rest out :
  bind (get_input p) k (World d f n (line :: rest) out)
  = k (strip line) (World d f n rest (p :: out)).
Proof. reflexivity. Qed.

Ltac step :=
  (rewrite bind_print || rewrite bind_get_input);
  cbn [data disk writes stdin stdout].

(** After a confirmation the recipient is in the document whatever is
    typed next, and a recipient that was new has been saved. *)
Lemma add_recipient_screen_confirmed d f n (line c : str) rest out :
  eqb (lower (strip line)) (lit "cancel") = false ->
  clean_text (strip line) <> [] ->
  strip c <> lit "2" ->
  let name := clean_text (strip line) in
  let w' := snd (add_recipient_screen (World d f n (line :: c :: rest) out)) in
  In name (keys (data w')) /\
  (~ In name (keys d) ->
   (n < writes w')%nat /\ disk w' = Some (saved (data w'))).
Proof.
  intros H1 H2 H3 name w'. apply eqb_neq in H2. apply eqb_neq in H3.
  unfold w'; clear w'. unfold add_recipient_screen.
  do 2 step. rewrite H1. fold name in H2 |- *. rewrite H2. cbv beta iota.
  do 3 step. rewrite H3. cbv beta iota.
  match goal with
  | |- context [bind (add_recipient_to_data name) ?t ?w1] =>
      set (tail := t); set (w1' := w1)
  end.
  assert (Htail : forall b, always gifts_added (tail b)).
  { intros b. unfold tail.
    apply gifts_added_bind; [destruct b; apply gifts_added_print | intros _].
    repeat (apply gifts_added_bind; [apply gifts_added_print | intros _]).
    apply gifts_added_bind; [apply gifts_added_get_input | intros x].
    destruct (eqb x (lit "1")).
    - apply add_gift_screen_gifts_added.
    - intros w; apply gifts_added_refl. }
  clearbody tail. unfold bind.
  destruct (in_dec (list_eq_dec N.eq_dec) name (keys d)) as [I|I].
  - rewrite (add_recipient_old w1' name I).
    destruct (Htail false w1') as (K & _ & _). simpl in K.
    split; [|tauto]. rewrite K. exact I.
  - rewrite (add_recipient_new w1' name I).
    match goal with |- context [tail true ?w2] => set (w2' := w2) end.
    destruct (Htail true w2') as (K & W & D). simpl in K, W, D.
    split.
    + rewrite K. unfold keys. rewrite map_app. apply in_or_app.
      right; left; reflexivity.
    + intros _. split; [lia | apply D; reflexivity].
Qed.

Lemma add_gift_screen_no_occasion (r : str) d k n (g c : str) rest out :
  eqb (lower (strip g)) (lit "cancel") = false ->
  clean_text (strip g) <> [] ->
  is_number (strip c) = true -> to_int (strip c) = Some 0%Z ->
  exists out',
    add_gift_screen r (World d k n (g :: c :: rest) out)
    = (Return tt, World d k n rest out').
Proof.
  intros G1 G2 H1 H2. apply eqb_neq in G2. unfold add_gift_screen. run.
  rewrite G1, G2.
  match goal with
  | |- context [choose_occasion (World d k n (c :: rest) ?o)] =>
      destruct (choose_occasion_number d k n c rest o 0 H1 H2) as [o1 E];
        [discriminate | rewrite E]
  end.
  cbn [Z.eqb]. run. eexists; reflexivity.
Qed.

(** The add-gift screen up to its confirm prompt, answered by [c]. *)
Lemma add_gift_screen_declined (r : str) d k n (g c : str) lines occ rest out :
  eqb (lower (strip g)) (lit "cancel") = false ->
  clean_text (strip g) <> [] ->
  picks lines occ (c :: rest) ->
  strip c = lit "2" ->
  exists out',
    add_gift_screen r (World d k n (g :: lines) out)
    = (Return tt, World d k n rest out').
Proof.
  intros H1 H2 H3 H4. apply eqb_neq in H2.
  unfold add_gift_screen. run. rewrite H1, H2.
  match goal with
  | |- context [choose_occasion (World d k n lines ?o)] =>
      destruct (choose_occasion_picks d k n lines occ (c :: rest) o H3)
        as [o1 E]; rewrite E
  end.
  run. rewrite H4, eqb_refl. run. eexists; reflexivity.
Qed.

Lemma add_gift_screen_confirmed (r : str) d k n (g c : str) lines occ rest out
      (gifts : list value) :
  eqb (lower (strip g)) (lit "cancel") = false ->
  clean_text (strip g) <> [] ->
  picks lines occ (c :: rest) ->
  strip c <> lit "2" ->
  getitem r d = Some (VList gifts) ->
  let d' := setitem r (VList (gifts ++ [gift_obj (clean_text (strip g)) occ]))
                    d in
  exists out',
    add_gift_screen r (World d k n (g :: lines) out)
    = (Return tt, World d' (Some (saved d')) (S n) rest out').
Proof.
  intros H1 H2 H3 H4 H5 d'. apply eqb_neq in H2. apply eqb_neq in H4.
  unfold add_gift_screen. run. rewrite H1, H2.
  match goal with
  | |- context [choose_occasion (World d k n lines ?o)] =>
      destruct (choose_occasion_picks d k n lines occ (c :: rest) o H3)
        as [o1 E]; rewrite E
  end.
  run. rewrite H4.
  match goal with
  | |- context [add_gift_to_recipient r ?a ?b ?w1] =>
      rewrite (add_gift_run w1 r a b gifts H5)
  end.
  run. eexists; reflexivity.
Qed.

End Screens.


(* ================================================================== *)
(** * Reading back what was written *)
(* ================================================================== *)

Module RoundTrip.
Import Str Py Json ValueInd StrFacts DictFacts TextFacts Spec.

Local Ltac Zify.zify_post_hook ::= Z.to_euclidean_division_equations.

Lemma hex_value_hex_digit (n : N) :
  (n < 16)%N -> hex_value (hex_digit n) = Some n.
Proof.
  intros H. unfold hex_value, hex_digit.
  destruct (N.ltb_spec n 10).
  - replace (N.leb 48 (48 + n) && N.leb (48 + n) 57)%bool with true.
    + f_equal; lia.
    + symmetry; apply andb_true_iff; split; apply N.leb_le; lia.
  - replace (N.leb 48 (87 + n) && N.leb (87 + n) 57)%bool with false.
    + replace (N.leb 97 (87 + n) && N.leb (87 + n) 102)%bool with true.
      * f_equal; lia.
      * symmetry; apply andb_true_iff; split; apply N.leb_le; lia.
    + symmetry; apply andb_false_iff; right; apply N.leb_gt; lia.
Qed.

Lemma hex4_digits (n : N) :
  (n < 65536)%N ->
  hex4 (hex_digit ((n / 4096) mod 16)) (hex_digit ((n / 256) mod 16))
       (hex_digit ((n / 16) mod 16)) (hex_digit (n mod 16)) = Some n.
Proof.
  intros H. unfold hex4.
  rewrite !hex_value_hex_digit by (apply N.mod_lt; lia).
  f_equal. lia.
Qed.

(** Reading one [\uXXXX] escape that does not start a surrogate pair. *)
Lemma scan_string_u_escape (acc : str) (n : N) (x : str) :
  (n < 65536)%N -> (is_high_surrogate n = true -> lookahead_ok x) ->
  scan_string acc (u_escape n ++ x) = scan_string (n :: acc) x.
Proof.
  intros H1 H2. unfold u_escape.
  cbn [app scan_string N.eqb Pos.eqb].
  rewrite hex4_digits by assumption.
  destruct (is_high_surrogate n); [|reflexivity].
  specialize (H2 eq_refl).
  destruct x as [|b [|u [|g1 [|g2 [|g3 [|g4 r10]]]]]]; try reflexivity.
  cbn [lookahead_ok] in H2.
  destruct (N.eqb b 92 && N.eqb u 117)%bool; [|reflexivity].
  destruct (H2 eq_refl) as (uni2 & -> & ->). reflexivity.
Qed.

(** Reading the surrogate pair of a character above U+FFFF. *)
Lemma scan_string_pair (acc : str) (c : N) (x : str) :
  (65536 <= c < 1114112)%N ->
  scan_string acc
    (u_escape (55296 + ((c - 65536) / 1024) mod 1024)
     ++ u_escape (56320 + (c - 65536) mod 1024) ++ x)
  = scan_string (c :: acc) x.
Proof.
  intros H. unfold u_escape at 1.
  cbn [app scan_string N.eqb Pos.eqb].
  rewrite hex4_digits by lia.
  assert (is_high_surrogate (55296 + ((c - 65536) / 1024) mod 1024) = true)
    as ->.
  { unfold is_high_surrogate. apply andb_true_iff; split; apply N.leb_le; lia. }
  unfold u_escape. cbn [app N.eqb Pos.eqb andb].
  rewrite hex4_digits by lia.
  assert (is_low_surrogate (56320 + (c - 65536) mod 1024) = true) as ->.
  { unfold is_low_surrogate. apply andb_true_iff; split; apply N.leb_le; lia. }
  f_equal. f_equal. lia.
Qed.

Lemma scan_string_escape_char (acc : str) (c : char) (x : str) :
  code_point c -> (is_high_surrogate c = true -> lookahead_ok x) ->
  scan_string acc (escape_char c ++ x) = scan_string (c :: acc) x.
Proof.
  unfold code_point. intros H1 H2. unfold escape_char.
  destruct (N.eqb_spec c 34) as [->|N34]; [reflexivity|].
  destruct (N.eqb_spec c 92) as [->|N92]; [reflexivity|].
  destruct (N.eqb_spec c 10) as [->|N10]; [reflexivity|].
  destruct (N.eqb_spec c 13) as [->|N13]; [reflexivity|].
  destruct (N.eqb_spec c 9) as [->|N9]; [reflexivity|].
  destruct (N.eqb_spec c 8) as [->|N8]; [reflexivity|].
  destruct (N.eqb_spec c 12) as [->|N12]; [reflexivity|].
  destruct (N.leb 32 c && N.leb c 126)%bool eqn:P.
  - apply andb_true_iff in P as [P1 P2].
    apply N.leb_le in P1. cbn [app scan_string].
    destruct (N.eqb_spec c 34); [tauto|].
    destruct (N.eqb_spec c 92); [tauto|].
    destruct (N.ltb_spec c 32); [lia|]. reflexivity.
  - destruct (N.ltb_spec c 65536).
    + apply scan_string_u_escape; assumption.
    + rewrite <- app_assoc. apply scan_string_pair. lia.
Qed.

Lemma lookahead_other (b : char) (t : str) :
  N.eqb b 92 = false -> lookahead_ok (b :: t).
Proof.
  intros H. destruct t as [|u [|g1 [|g2 [|g3 [|g4 r]]]]]; try exact I.
  cbn [lookahead_ok]. rewrite H. discriminate.
Qed.

Lemma lookahead_short (u : char) (t : str) :
  N.eqb u 117 = false -> lookahead_ok (92%N :: u :: t).
Proof.
  intros H. destruct t as [|g1 [|g2 [|g3 [|g4 r]]]]; try exact I.
  cbn [lookahead_ok]. rewrite H, andb_false_r. discriminate.
Qed.

Lemma lookahead_u_escape (n : N) (t : str) :
  (n < 65536)%N -> is_low_surrogate n = false ->
  lookahead_ok (u_escape n ++ t).
Proof.
  intros H1 H2. unfold u_escape. cbn [app lookahead_ok].
  intros _. exists n. split; [apply hex4_digits; exact H1 | exact H2].
Qed.

(** The text of a character that is not a low surrogate may follow the
    escape of a high surrogate. *)
Lemma lookahead_escape_char (c : char) (t : str) :
  code_point c -> is_low_surrogate c = false ->
  lookahead_ok (escape_char c ++ t).
Proof.
  unfold code_point. intros H1 H2. unfold escape_char.
  destruct (N.eqb_spec c 34); [apply lookahead_short; reflexivity|].
  destruct (N.eqb_spec c 92); [apply lookahead_short; reflexivity|].
  destruct (N.eqb_spec c 10); [apply lookahead_short; reflexivity|].
  destruct (N.eqb_spec c 13); [apply lookahead_short; reflexivity|].
  destruct (N.eqb_spec c 9); [apply lookahead_short; reflexivity|].
  destruct (N.eqb_spec c 8); [apply lookahead_short; reflexivity|].
  destruct (N.eqb_spec c 12); [apply lookahead_short; reflexivity|].
  destruct (N.leb 32 c && N.leb c 126)%bool.
  - apply lookahead_other. apply N.eqb_neq; assumption.
  - destruct (N.ltb_spec c 65536).
    + apply lookahead_u_escape; assumption.
    + rewrite <- app_assoc. apply lookahead_u_escape; [lia|].
      unfold is_low_surrogate. apply andb_false_iff. left.
      apply N.leb_gt. lia.
Qed.

Lemma scan_string_encoded (s : str) :
  forall (acc : str) (x : str),
    str_ok s ->
    scan_string acc (flat_map escape_char s ++ 34%N :: x)
    = Some (rev acc ++ s, x).
Proof.
  induction s as [|c s IH]; intros acc x [Hc Hp].
  - simpl. rewrite app_nil_r. reflexivity.
  - inversion Hc as [|? ? Hc1 Hc2]; subst. destruct Hp as [Hp1 Hp2].
    cbn [flat_map]. rewrite <- app_assoc.
    rewrite scan_string_escape_char.
    + rewrite IH by (split; assumption).
      cbn [rev]. rewrite <- app_assoc. reflexivity.
    + exact Hc1.
    + intros Hh. destruct s as [|c' s'].
      * apply lookahead_other. reflexivity.
      * cbn [flat_map]. rewrite <- app_assoc.
        apply lookahead_escape_char.
        -- inversion Hc2; assumption.
        -- rewrite Hh in Hp1. exact Hp1.
Qed.

Lemma skip_ws_newline_indent (level : nat) (x : str) :
  skip_ws (newline_indent level ++ x) = skip_ws x.
Proof.
  unfold newline_indent. cbn [app skip_ws is_ws N.eqb Pos.eqb orb].
  induction (2 * level)%nat; simpl; auto.
Qed.

Lemma skip_ws_head (c : char) (x : str) :
  is_ws c = false -> skip_ws (c :: x) = c :: x.
Proof. intros H; simpl; rewrite H; reflexivity. Qed.

Lemma join_more (sep a : str) (l : list str) :
  l <> [] -> join sep (a :: l) = a ++ sep ++ join sep l.
Proof. destruct l; [congruence | reflexivity]. Qed.

Lemma join_head (sep a : str) (l : list str) (c : char) (r : str) :
  a = c :: r -> exists r', join sep (a :: l) = c :: r'.
Proof.
  intros ->. destruct l; [exists r | eexists]; reflexivity.
Qed.

(** The text of a safe value starts with a character that is neither
    whitespace nor a closing bracket. *)
Lemma encode_head (level : nat) (v : value) :
  safe v ->
  exists c r, encode level v = c :: r /\ is_ws c = false /\ N.eqb c 93 = false.
Proof.
  destruct v as [|[]|z|f|s|[|x items]|[|e entries]]; simpl; intros H;
    try contradiction; eexists; eexists; repeat split.
Qed.

Lemma skip_ws_encode (level : nat) (v : value) (x : str) :
  safe v -> skip_ws (encode level v ++ x) = encode level v ++ x.
Proof.
  intros H. destruct (encode_head level v H) as (c & r & -> & W & _).
  apply skip_ws_head; exact W.
Qed.

Section Containers.
Variable level : nat.
Variable rest : str.

Lemma skip_ws_items (y : value) (items : list value) (z : str) :
    fold_right (fun x a => safe x /\ a) True (y :: items) ->
    skip_ws (join (44%N :: newline_indent (S level))
                  (map (encode (S level)) (y :: items)) ++ z)
    = join (44%N :: newline_indent (S level))
           (map (encode (S level)) (y :: items)) ++ z.
  Proof.
    intros [Hy _]. rewrite map_cons. destruct items as [|y' items].
    - cbn [map join]. apply skip_ws_encode; exact Hy.
    - rewrite join_more by discriminate. rewrite <- app_assoc.
      apply skip_ws_encode; exact Hy.
  Qed.

Lemma skip_ws_members (e : str * value) (entries : dict) (z : str) :
    skip_ws (join (44%N :: newline_indent (S level))
               (map (fun e => encode_string (fst e) ++ lit ": "
                              ++ encode (S level) (snd e))
                    (e :: entries)) ++ z)
    = join (44%N :: newline_indent (S level))
           (map (fun e => encode_string (fst e) ++ lit ": "
                          ++ encode (S level) (snd e))
                (e :: entries)) ++ z.
  Proof.
    rewrite map_cons. destruct entries as [|e' entries].
    - reflexivity.
    - rewrite join_more by discriminate. reflexivity.
  Qed.

  (** The items of an array, read one after the other. *)
Lemma array_items_encoded (items : list value) :
    Forall (fun v => forall lvl x fuel,
                (cost v <= fuel)%nat -> safe v ->
                scan_once fuel (encode lvl v ++ x) = Parsed v x) items ->
    fold_right (fun x a => safe x /\ a) True items ->
    items <> [] ->
    forall (acc : list value) (fuel : nat),
      (fold_right (fun x a => S (cost x) + a) 0 items <= fuel)%nat ->
      array_items fuel acc
        (join (44%N :: newline_indent (S level))
              (map (encode (S level)) items)
         ++ newline_indent level ++ 93%N :: rest)
      = Parsed (VList (rev acc ++ items)) rest.
  Proof.
    induction 1 as [|v items Hv Hitems IH]; intros Hs Hne acc fuel Hf;
      [congruence|].
    destruct Hs as [Hsv Hs]. cbn [fold_right] in Hf.
    destruct fuel as [|n]; [lia|].
    rewrite map_cons. destruct items as [|y items].
    - cbn [map join array_items].
      rewrite Hv by (assumption || lia).
      rewrite skip_ws_newline_indent.
      cbn [skip_ws is_ws N.eqb Pos.eqb orb rev]. reflexivity.
    - rewrite join_more by discriminate. rewrite <- !app_assoc.
      cbn [array_items].
      rewrite Hv by (assumption || lia).
      cbn [app skip_ws is_ws N.eqb Pos.eqb orb].
      rewrite skip_ws_newline_indent, skip_ws_items by exact Hs.
      rewrite IH; [|exact Hs | discriminate | cbn [fold_right] in *; lia].
      cbn [rev]. rewrite <- app_assoc. reflexivity.
  Qed.

  (** The members of an object, stored one after the other. *)
Lemma object_items_encoded (entries : dict) :
    Forall (fun e => forall lvl x fuel,
                (cost (snd e) <= fuel)%nat -> safe (snd e) ->
                scan_once fuel (encode lvl (snd e) ++ x) = Parsed (snd e) x)
           entries ->
    fold_right (fun e a => str_ok (fst e) /\ safe (snd e) /\ a) True entries ->
    entries <> [] ->
    forall (acc : dict) (fuel : nat),
      NoDup (keys (acc ++ entries)) ->
      (fold_right (fun e a => S (cost (snd e)) + a) 0 entries <= fuel)%nat ->
      object_items fuel acc
        (join (44%N :: newline_indent (S level))
              (map (fun e => encode_string (fst e) ++ lit ": "
                             ++ encode (S level) (snd e)) entries)
         ++ newline_indent level ++ 125%N :: rest)
      = Parsed (VDict (acc ++ entries)) rest.
  Proof.
    induction 1 as [|[k v] entries Hv Hentries IH];
      intros Hs Hne acc fuel Hnd Hf; [congruence|].
    destruct Hs as (Hk & Hsv & Hs). cbn [fold_right snd fst] in *.
    destruct fuel as [|n]; [lia|].
    assert (Hnew : setitem k v acc = acc ++ [(k, v)]).
    { apply setitem_new. unfold keys in Hnd. rewrite map_app in Hnd.
      cbn [map fst] in Hnd. apply NoDup_remove_2 in Hnd.
      intros I. apply Hnd. apply in_or_app; left; exact I. }
    assert (Hmember : forall z,
               object_items (S n) acc
                 (encode_string k ++ lit ": " ++ encode (S level) v ++ z)
               = match skip_ws z with
                 | c :: r4 =>
                     if N.eqb c 125 then Parsed (VDict (acc ++ [(k, v)])) r4
                     else if N.eqb c 44
                          then object_items n (acc ++ [(k, v)]) (skip_ws r4)
                          else Malformed
                 | [] => Malformed
                 end).
    { intros z. unfold encode_string. rewrite <- !app_assoc.
      cbn [app object_items N.eqb Pos.eqb].
      rewrite scan_string_encoded by assumption.
      change (lit ": ") with [58%N; 32%N].
      cbn [rev app skip_ws is_ws N.eqb Pos.eqb orb].
      rewrite skip_ws_encode by assumption.
      rewrite Hv by (assumption || lia). rewrite Hnew. reflexivity. }
    rewrite map_cons. cbn [fst snd]. destruct entries as [|e entries].
    - cbn [map join]. rewrite <- !app_assoc. rewrite Hmember.
      rewrite skip_ws_newline_indent.
      cbn [skip_ws is_ws N.eqb Pos.eqb orb]. reflexivity.
    - rewrite join_more by discriminate. rewrite <- !app_assoc.
      rewrite Hmember.
      cbn [app skip_ws is_ws N.eqb Pos.eqb orb].
      rewrite skip_ws_newline_indent, skip_ws_members.
      rewrite IH;
        [| exact Hs | discriminate
         | rewrite <- app_assoc; exact Hnd | lia].
      rewrite <- app_assoc. reflexivity.
  Qed.
End Containers.

(** Every safe value is read back from its text, whatever follows it. *)
Lemma scan_once_encoded (v : value) :
  forall (level : nat) (x : str) (fuel : nat),
    (cost v <= fuel)%nat -> safe v ->
    scan_once fuel (encode level v ++ x) = Parsed v x.
Proof.
  induction v using value_nested_ind; intros level x fuel Hf Hs;
    (destruct fuel as [|n]; [simpl in Hf; lia|]).
  - reflexivity.
  - destruct b; reflexivity.
  - contradiction.
  - contradiction.
  - cbn [encode]. unfold encode_string. rewrite <- !app_assoc.
    cbn [app scan_once N.eqb Pos.eqb].
    rewrite scan_string_encoded by exact Hs. reflexivity.
  - destruct items as [|y items]; [reflexivity|].
    rewrite encode_list, <- !app_assoc.
    cbn [app scan_once N.eqb Pos.eqb].
    rewrite skip_ws_newline_indent.
    rewrite (skip_ws_items level y items _ Hs).
    pose proof (array_items_encoded level x (y :: items) H Hs
                  ltac:(discriminate) [] n) as A.
    cbn [rev app] in A.
    destruct Hs as [Hy Hs].
    destruct (encode_head (S level) y Hy) as (c & r & E & W & N93).
    revert A.
    match goal with
    | |- context [join ?sep ?parts] => set (text := join sep parts)
    end.
    assert (Ehead : exists r', text = c :: r').
    { unfold text. rewrite map_cons. eapply join_head. exact E. }
    destruct Ehead as [r' ->].
    cbn [app]. rewrite N93. intros A; apply A.
    cbn [cost] in Hf. lia.
  - destruct entries as [|e entries]; [reflexivity|].
    rewrite encode_dict, <- !app_assoc.
    cbn [app scan_once N.eqb Pos.eqb].
    rewrite skip_ws_newline_indent.
    destruct Hs as [Hnd Hs].
    rewrite skip_ws_members.
    pose proof (object_items_encoded level x (e :: entries) H Hs
                  ltac:(discriminate) [] n Hnd) as A.
    cbn [app] in A. revert A.
    match goal with
    | |- context [join ?sep ?parts] => set (text := join sep parts)
    end.
    assert (Ehead : exists r', text = 34%N :: r').
    { unfold text. rewrite map_cons. eapply join_head.
      unfold encode_string. rewrite <- !app_assoc. reflexivity. }
    destruct Ehead as [r' ->].
    cbn [app N.eqb Pos.eqb]. intros A; apply A.
    cbn [cost] in Hf. lia.
Qed.

(** ** The budget of [loads] is enough for what [dumps] writes *)

Lemma length_join (sep : str) (parts : list str) :
  (1 <= length sep)%nat ->
  (fold_right (fun p a => S (length p) + a) 0 parts
   <= length (join sep parts) + 1)%nat.
Proof.
  intros Hsep. induction parts as [|p [|q parts] IH].
  - simpl; lia.
  - simpl; lia.
  - rewrite join_more by discriminate. rewrite !length_app.
    cbn [fold_right] in *. lia.
Qed.

Lemma fold_right_le {A} (f g : A -> nat) (l : list A) :
  Forall (fun x => (f x <= g x)%nat) l ->
  (fold_right (fun x a => S (f x) + a) 0 l
   <= fold_right (fun x a => S (g x) + a) 0 l)%nat.
Proof. induction 1; cbn [fold_right]; lia. Qed.

Lemma fold_right_map {A} (f : A -> str) (l : list A) :
  fold_right (fun p a => S (length p) + a) 0 (map f l)
  = fold_right (fun x a => S (length (f x)) + a) 0 l.
Proof. induction l; cbn [fold_right map]; [|rewrite IHl]; reflexivity. Qed.

Lemma cost_le_length (v : value) :
  forall level, safe v -> (cost v <= length (encode level v))%nat.
Proof.
  induction v using value_nested_ind; intros level Hs; try contradiction.
  - simpl; lia.
  - destruct b; simpl; lia.
  - cbn [cost encode]. unfold encode_string. rewrite length_app. simpl; lia.
  - destruct items as [|y items]; [simpl; lia|].
    rewrite encode_list. cbn [cost]. rewrite !length_app.
    pose proof (length_join (44%N :: newline_indent (S level))
                  (map (encode (S level)) (y :: items))
                  ltac:(simpl; lia)) as J.
    rewrite fold_right_map in J.
    assert (L : (fold_right (fun x a => S (cost x) + a) 0 (y :: items)
                 <= fold_right
                      (fun x a => S (length (encode (S level) x)) + a) 0
                      (y :: items))%nat).
    { apply fold_right_le. clear J.
      induction H as [|z l Hz Hl IH]; constructor;
        cbn [fold_right] in Hs; destruct Hs; auto. }
    cbn [length]. lia.
  - destruct entries as [|e entries]; [simpl; lia|].
    rewrite encode_dict. cbn [cost]. rewrite !length_app.
    pose proof (length_join (44%N :: newline_indent (S level))
                  (map (fun e => encode_string (fst e) ++ lit ": "
                                 ++ encode (S level) (snd e)) (e :: entries))
                  ltac:(simpl; lia)) as J.
    rewrite fold_right_map in J.
    assert (L : (fold_right (fun x a => S (cost (snd x)) + a) 0 (e :: entries)
                 <= fold_right
                      (fun x a =>
                         S (length (encode_string (fst x) ++ lit ": "
                                    ++ encode (S level) (snd x))) + a) 0
                      (e :: entries))%nat).
    { apply fold_right_le. clear J. destruct Hs as [_ Hs].
      induction H as [|z l Hz Hl IH]; constructor;
        cbn [fold_right] in Hs; destruct Hs as (_ & Hz' & Hs'); auto.
      rewrite !length_app. specialize (Hz (S level) Hz'). lia. }
    cbn [length]. lia.
Qed.

(** Why [str_ok] asks for more than code points: a high surrogate and a
    low surrogate next to each other come back as one character. *)
Lemma surrogate_pair_merged :
  loads (dumps (VStr [55357%N; 56832%N])) = Some (VStr [128512%N]).
Proof. reflexivity. Qed.

(** [json.loads(json.dumps(v, indent=2)) == v] for every safe value. *)
Lemma loads_dumps (v : value) : safe v -> loads (dumps v) = Some v.
Proof.
  intros Hs. unfold loads, dumps.
  destruct (encode_head 0 v Hs) as (c & r & E & W & _).
  assert (Hc : is_plain c = true).
  { pose proof (plain_encode v 0) as P. rewrite E in P.
    unfold plain in P. simpl in P. apply andb_true_iff in P. tauto. }
  assert (Hbom : N.eqb c 65279 = false).
  { destruct (N.eqb_spec c 65279) as [->|]; [discriminate Hc | reflexivity]. }
  rewrite E, Hbom, <- E.
  cbv zeta.
  pose proof (skip_ws_encode 0 v [] Hs) as S1. rewrite app_nil_r in S1.
  rewrite S1.
  pose proof (scan_once_encoded v 0 [] (2 * length (encode 0 v) + 1)) as R.
  rewrite app_nil_r in R. rewrite R; [reflexivity | | exact Hs].
  pose proof (cost_le_length v 0 Hs). lia.
Qed.

End RoundTrip.

(* ================================================================== *)
(** * What the decoder returns *)
(* ================================================================== *)

Module Decoded.
Import Str Py Json StrFacts DictFacts Spec.

Ltac split_matches H :=
  repeat match type of H with
         | context [match ?x with _ => _ end] => destruct x eqn:?
         end.

(** Constants and numbers are neither lists nor dicts. *)
Lemma scan_constant_scalar (s : str) (v : value) (r : str) :
  scan_constant s = Some (v, r) -> is_dict v = false /\ is_list v = false.
Proof.
  unfold scan_constant. intros H.
  repeat match type of H with
         | context [strip_prefix ?p ?t] =>
             destruct (strip_prefix p t);
               [injection H as <- <-; split; reflexivity|]
         end.
  unfold scan_number in H.
  destruct (scan_sign s) as [b s1].
  destruct (scan_int_part s1) as [[ip r1]|]; [|discriminate H].
  destruct (scan_fraction r1) as [f r2].
  destruct (scan_exponent r2) as [e r3].
  destruct f, e; injection H as <- <-; split; reflexivity.
Qed.

Lemma array_items_list (fuel : nat) :
  forall (acc : list value) (s : str) (v : value) (r : str),
    array_items fuel acc s = Parsed v r -> is_list v = true.
Proof.
  induction fuel as [|n IH]; intros acc s v r H; [discriminate H|].
  cbn [array_items] in H.
  destruct (scan_once n s) as [x r1| |]; try discriminate H.
  destruct (skip_ws r1) as [|c r2]; [discriminate H|].
  destruct (N.eqb c 93); [injection H as <- <-; reflexivity|].
  destruct (N.eqb c 44); [|discriminate H].
  eapply IH; exact H.
Qed.

(** An object is built key by key, so no key occurs twice in it. *)
Lemma object_items_keys (fuel : nat) :
  forall (acc : dict) (s : str) (v : value) (r : str),
    NoDup (keys acc) ->
    object_items fuel acc s = Parsed v r ->
    exists d, v = VDict d /\ NoDup (keys d).
Proof.
  induction fuel as [|n IH]; intros acc s v r Hacc H; [discriminate H|].
  cbn [object_items] in H.
  destruct s as [|q s]; [discriminate H|].
  destruct (N.eqb q 34); [|discriminate H].
  destruct (scan_string [] s) as [[k r1]|]; [|discriminate H].
  destruct (skip_ws r1) as [|c1 r2]; [discriminate H|].
  destruct (N.eqb c1 58); [|discriminate H].
  destruct (scan_once n (skip_ws r2)) as [x r3| |]; try discriminate H.
  destruct (skip_ws r3) as [|c r4]; [discriminate H|].
  destruct (N.eqb c 125).
  - injection H as <- <-. eexists; split; [reflexivity|].
    apply NoDup_keys_setitem; exact Hacc.
  - destruct (N.eqb c 44); [|discriminate H].
    eapply IH; [|exact H]. apply NoDup_keys_setitem; exact Hacc.
Qed.

Lemma scan_once_dict (fuel : nat) (s : str) (d : dict) (r : str) :
  scan_once fuel s = Parsed (VDict d) r -> NoDup (keys d).
Proof.
  destruct fuel as [|n]; [discriminate|]. cbn [scan_once].
  destruct s as [|c s]; [discriminate|].
  destruct (N.eqb c 34).
  { destruct (scan_string [] s) as [[x r']|]; discriminate. }
  destruct (N.eqb c 123).
  { destruct (skip_ws s) as [|c' r']; [discriminate|].
    destruct (N.eqb c' 125).
    - intros [= <- <-]. constructor.
    - intros H. destruct (object_items_keys n [] _ _ _ (NoDup_nil _) H)
        as (d' & [= ->] & Hd). exact Hd. }
  destruct (N.eqb c 91).
  { destruct (skip_ws s) as [|c' r']; [discriminate|].
    destruct (N.eqb c' 93); [discriminate|].
    intros H. apply array_items_list in H. discriminate H. }
  destruct (scan_constant (c :: s)) as [[v r']|] eqn:E; [|discriminate].
  intros [= -> <-]. apply scan_constant_scalar in E. destruct E as [E _].
  discriminate E.
Qed.

Lemma loads_dict (text : str) (d : dict) :
  loads text = Some (VDict d) -> NoDup (keys d).
Proof.
  unfold loads.
  destruct (match text with c :: _ => N.eqb c 65279 | [] => false end);
    [discriminate|].
  cbv zeta.
  destruct (scan_once _ _) as [v r| |] eqn:E; try discriminate.
  destruct (skip_ws r); [|discriminate].
  intros [= ->]. eapply scan_once_dict; exact E.
Qed.

(** ** The recursion budget of [loads] is never used up *)

Lemma skip_ws_length (s : str) : (length (skip_ws s) <= length s)%nat.
Proof.
  induction s as [|c s IH]; simpl; [lia|].
  destruct (is_ws c); simpl; lia.
Qed.

Lemma strip_prefix_length (p : str) :
  forall (s r : str),
    strip_prefix p s = Some r -> (length r + length p = length s)%nat.
Proof.
  induction p as [|x p IH]; intros [|y s] r; simpl; intros H;
    try discriminate H; try (injection H as <-; simpl; lia).
  destruct (N.eqb x y); [|discriminate H].
  apply IH in H. lia.
Qed.

Lemma span_digits_length (s : str) :
  forall (ds r : str),
    span_digits s = (ds, r) -> (length ds + length r = length s)%nat.
Proof.
  induction s as [|c s IH]; intros ds r; simpl.
  - intros [= <- <-]; reflexivity.
  - destruct (is_digit09 c).
    + destruct (span_digits s) as [ds' r'] eqn:E.
      intros [= <- <-]. specialize (IH _ _ eq_refl). simpl; lia.
    + intros [= <- <-]. reflexivity.
Qed.

Ltac lengths :=
  repeat match goal with
         | H : span_digits _ = (_, _) |- _ =>
             apply span_digits_length in H
         | H : strip_prefix _ _ = Some _ |- _ =>
             apply strip_prefix_length in H
         end;
  cbn [length] in *.

(** Every scanner consumes at least one character. *)
Lemma scan_string_length (n : nat) :
  forall (acc s x r : str),
    (length s <= n)%nat ->
    scan_string acc s = Some (x, r) -> (length r < length s)%nat.
Proof.
  induction n as [|n IH]; intros acc s x r Hn H.
  - destruct s; [discriminate H | simpl in Hn; lia].
  - destruct s as [|c s]; [discriminate H|].
    cbn [scan_string] in H. cbn [length] in Hn.
    split_matches H; subst; try discriminate H;
      try (injection H as <- <-; cbn [length]; lia);
      apply IH in H; cbn [length] in *; lia.
Qed.

Lemma scan_sign_length (s : str) (b : bool) (r : str) :
  scan_sign s = (b, r) -> (length r <= length s)%nat.
Proof.
  unfold scan_sign. destruct s as [|c s]; [intros [= <- <-]; lia|].
  destruct (N.eqb c 45); intros [= <- <-]; cbn [length]; lia.
Qed.

Lemma scan_int_part_length (s ip r : str) :
  scan_int_part s = Some (ip, r) -> (length r < length s)%nat.
Proof.
  unfold scan_int_part. destruct s as [|d s]; [discriminate|].
  destruct (N.eqb d 48); [intros [= <- <-]; cbn [length]; lia|].
  destruct (is_digit09 d); [|discriminate].
  destruct (span_digits s) as [ds r'] eqn:E. intros [= <- <-].
  lengths; lia.
Qed.

Lemma scan_fraction_length (s : str) (f : option str) (r : str) :
  scan_fraction s = (f, r) -> (length r <= length s)%nat.
Proof.
  unfold scan_fraction. destruct s as [|p [|d1 s]];
    try (intros [= <- <-]; lia).
  destruct (N.eqb p 46 && is_digit09 d1)%bool;
    [|intros [= <- <-]; lia].
  destruct (span_digits s) as [ds r'] eqn:E. intros [= <- <-].
  lengths; lia.
Qed.

Lemma scan_exponent_length (s : str) (e : option Decimal.int) (r : str) :
  scan_exponent s = (e, r) -> (length r <= length s)%nat.
Proof.
  unfold scan_exponent. destruct s as [|c s]; [intros [= <- <-]; lia|].
  destruct (N.eqb c 101 || N.eqb c 69)%bool; [|intros [= <- <-]; lia].
  assert (L : forall m t,
             match s with
             | c0 :: t0 =>
                 if N.eqb c0 43 then (false, t0)
                 else if N.eqb c0 45 then (true, t0) else (false, s)
             | [] => (false, s)
             end = (m, t) -> (length t <= length s)%nat).
  { intros m t. destruct s as [|c0 t0]; [intros [= <- <-]; lia|].
    destruct (N.eqb c0 43); [intros [= <- <-]; cbn [length]; lia|].
    destruct (N.eqb c0 45); intros [= <- <-]; cbn [length]; lia. }
  destruct (match s with [] => _ | _ :: _ => _ end) as [m t].
  specialize (L m t eq_refl).
  destruct (span_digits t) as [ds r'] eqn:E.
  destruct ds; intros [= <- <-]; lengths; lia.
Qed.

Lemma scan_number_length (s : str) (v : value) (r : str) :
  scan_number s = Some (v, r) -> (length r < length s)%nat.
Proof.
  unfold scan_number.
  destruct (scan_sign s) as [b s1] eqn:E1. apply scan_sign_length in E1.
  destruct (scan_int_part s1) as [[ip r1]|] eqn:E2; [|discriminate].
  apply scan_int_part_length in E2.
  destruct (scan_fraction r1) as [f r2] eqn:E3.
  apply scan_fraction_length in E3.
  destruct (scan_exponent r2) as [e r3] eqn:E4.
  apply scan_exponent_length in E4.
  destruct f, e; intros [= <- <-]; lia.
Qed.

Lemma scan_constant_length (s : str) (v : value) (r : str) :
  scan_constant s = Some (v, r) -> (length r < length s)%nat.
Proof.
  unfold scan_constant. intros H.
  destruct (strip_prefix (lit "null") s) eqn:E1;
    [injection H as <- <-; apply strip_prefix_length in E1;
     simpl in E1; lia|].
  destruct (strip_prefix (lit "true") s) eqn:E2;
    [injection H as <- <-; apply strip_prefix_length in E2;
     simpl in E2; lia|].
  destruct (strip_prefix (lit "false") s) eqn:E3;
    [injection H as <- <-; apply strip_prefix_length in E3;
     simpl in E3; lia|].
  destruct (strip_prefix (lit "NaN") s) eqn:E4;
    [injection H as <- <-; apply strip_prefix_length in E4;
     simpl in E4; lia|].
  destruct (strip_prefix (lit "Infinity") s) eqn:E5;
    [injection H as <- <-; apply strip_prefix_length in E5;
     simpl in E5; lia|].
  destruct (strip_prefix (lit "-Infinity") s) eqn:E6;
    [injection H as <- <-; apply strip_prefix_length in E6;
     simpl in E6; lia|].
  eapply scan_number_length; exact H.
Qed.

Lemma scanners_consume (n : nat) :
  (forall s v r, scan_once n s = Parsed v r -> (length r < length s)%nat) /\
  (forall acc s v r,
      array_items n acc s = Parsed v r -> (length r < length s)%nat) /\
  (forall acc s v r,
      object_items n acc s = Parsed v r -> (length r < length s)%nat).
Proof.
  induction n as [|n (IH1 & IH2 & IH3)];
    [repeat split; intros; discriminate|].
  repeat split.
  - intros s v r H. cbn [scan_once] in H.
    destruct s as [|c s]; [discriminate H|]. cbn [length].
    destruct (N.eqb c 34).
    { destruct (scan_string [] s) as [[x r']|] eqn:E; [|discriminate H].
      injection H as <- <-.
      apply (scan_string_length (length s)) in E; lia. }
    destruct (N.eqb c 123).
    { pose proof (skip_ws_length s) as L.
      destruct (skip_ws s) as [|c' r']; [discriminate H|].
      destruct (N.eqb c' 125).
      - injection H as <- <-. cbn [length] in L. lia.
      - apply IH3 in H. lia. }
    destruct (N.eqb c 91).
    { pose proof (skip_ws_length s) as L.
      destruct (skip_ws s) as [|c' r']; [discriminate H|].
      destruct (N.eqb c' 93).
      - injection H as <- <-. cbn [length] in L. lia.
      - apply IH2 in H. lia. }
    destruct (scan_constant (c :: s)) as [[x r']|] eqn:E; [|discriminate H].
    injection H as <- <-. apply scan_constant_length in E.
    cbn [length] in E. exact E.
  - intros acc s v r H. cbn [array_items] in H.
    destruct (scan_once n s) as [x r1| |] eqn:E; try discriminate H.
    apply IH1 in E. pose proof (skip_ws_length r1) as L.
    destruct (skip_ws r1) as [|c r2]; [discriminate H|]. cbn [length] in L.
    destruct (N.eqb c 93); [injection H as <- <-; lia|].
    destruct (N.eqb c 44); [|discriminate H].
    apply IH2 in H. pose proof (skip_ws_length r2). lia.
  - intros acc s v r H. cbn [object_items] in H.
    destruct s as [|q s]; [discriminate H|]. cbn [length].
    destruct (N.eqb q 34); [|discriminate H].
    destruct (scan_string [] s) as [[k r1]|] eqn:Ek; [|discriminate H].
    apply (scan_string_length (length s)) in Ek; [|lia].
    pose proof (skip_ws_length r1) as L1.
    destruct (skip_ws r1) as [|c1 r2]; [discriminate H|]. cbn [length] in L1.
    destruct (N.eqb c1 58); [|discriminate H].
    pose proof (skip_ws_length r2) as L2.
    destruct (scan_once n (skip_ws r2)) as [x r3| |] eqn:E;
      try discriminate H.
    apply IH1 in E. pose proof (skip_ws_length r3) as L3.
    destruct (skip_ws r3) as [|c r4]; [discriminate H|]. cbn [length] in L3.
    destruct (N.eqb c 125); [injection H as <- <-; lia|].
    destruct (N.eqb c 44); [|discriminate H].
    apply IH3 in H. pose proof (skip_ws_length r4). lia.
Qed.

Lemma scanners_enough (n : nat) :
  (forall s, (2 * length s + 1 <= n)%nat -> scan_once n s <> Exhausted) /\
  (forall acc s,
      (2 * length s + 2 <= n)%nat -> array_items n acc s <> Exhausted) /\
  (forall acc s,
      (2 * length s + 2 <= n)%nat -> object_items n acc s <> Exhausted).
Proof.
  induction n as [|n (IH1 & IH2 & IH3)]; [repeat split; intros; lia|].
  destruct (scanners_consume n) as (C1 & C2 & C3).
  repeat split.
  - intros s Hn. cbn [scan_once].
    destruct s as [|c s]; [discriminate|]. cbn [length] in Hn.
    destruct (N.eqb c 34).
    { destruct (scan_string [] s) as [[x r']|]; discriminate. }
    destruct (N.eqb c 123).
    { pose proof (skip_ws_length s) as L.
      destruct (skip_ws s) as [|c' r']; [discriminate|].
      destruct (N.eqb c' 125); [discriminate|]. apply IH3. lia. }
    destruct (N.eqb c 91).
    { pose proof (skip_ws_length s) as L.
      destruct (skip_ws s) as [|c' r']; [discriminate|].
      destruct (N.eqb c' 93); [discriminate|]. apply IH2. lia. }
    destruct (scan_constant (c :: s)) as [[x r']|]; discriminate.
  - intros acc s Hn. cbn [array_items].
    destruct (scan_once n s) as [x r1| |] eqn:E; [|discriminate|].
    + apply C1 in E. pose proof (skip_ws_length r1) as L.
      destruct (skip_ws r1) as [|c r2]; [discriminate|]. cbn [length] in L.
      destruct (N.eqb c 93); [discriminate|].
      destruct (N.eqb c 44); [|discriminate].
      apply IH2. pose proof (skip_ws_length r2). lia.
    + exfalso. revert E. apply IH1. lia.
  - intros acc s Hn. cbn [object_items].
    destruct s as [|q s]; [discriminate|]. cbn [length] in Hn.
    destruct (N.eqb q 34); [|discriminate].
    destruct (scan_string [] s) as [[k r1]|] eqn:Ek; [|discriminate].
    apply (scan_string_length (length s)) in Ek; [|lia].
    pose proof (skip_ws_length r1) as L1.
    destruct (skip_ws r1) as [|c1 r2]; [discriminate|]. cbn [length] in L1.
    destruct (N.eqb c1 58); [|discriminate].
    pose proof (skip_ws_length r2) as L2.
    destruct (scan_once n (skip_ws r2)) as [x r3| |] eqn:E; [|discriminate|].
    + apply C1 in E. pose proof (skip_ws_length r3) as L3.
      destruct (skip_ws r3) as [|c r4]; [discriminate|]. cbn [length] in L3.
      destruct (N.eqb c 125); [discriminate|].
      destruct (N.eqb c 44); [|discriminate].
      apply IH3. pose proof (skip_ws_length r4). lia.
    + exfalso. revert E. apply IH1. lia.
Qed.

(** With the budget [loads] gives it the scanner always comes to a
    verdict: [loads] refuses a text only when the text is malformed or
    something follows the value. *)
Lemma scan_once_enough (s : str) :
  scan_once (2 * length s + 1) s <> Exhausted.
Proof. apply scanners_enough. lia. Qed.

End Decoded.

(* ================================================================== *)
(** * Loading *)
(* ================================================================== *)

Module Loading.
Import Str Py Json Run Gift StrFacts DictFacts TextFacts Ops RoundTrip Decoded Spec.
Local Open Scope run_scope.

(** ** The clean-up loop *)

Lemma cleanup_run (names : list str) :
  forall (d : dict) (w : world),
    (forall k, In k names -> In k (keys d)) ->
    exists d',
      cleanup names d w = (Return d', w) /\
      keys d' = keys d /\
      (forall k, In k names ->
                 getitem k d' = option_map norm_value (getitem k d)) /\
      (forall k, ~ In k names -> getitem k d' = getitem k d).
Proof.
  induction names as [|name names IH]; intros d w Hin.
  - exists d. repeat split; simpl; tauto.
  - cbn [cleanup].
    destruct (In_getitem name d (Hin name (or_introl eq_refl))) as [v Ev].
    rewrite Ev.
    assert (Hnorm : forall x, is_list x = true -> norm_value x = x).
    { intros x Hx. unfold norm_value. rewrite Hx. reflexivity. }
    destruct (is_list v) eqn:Lv; cbn [negb].
    + destruct (IH d w) as (d' & E & K & G1 & G2).
      { intros k Hk. apply Hin. right; exact Hk. }
      exists d'. repeat split; try assumption.
      * intros k [<-|Hk]; [|apply G1; exact Hk].
        destruct (in_dec (list_eq_dec N.eq_dec) name names) as [I|I].
        -- apply G1; exact I.
        -- rewrite (G2 name I), Ev. simpl. rewrite Hnorm by exact Lv.
           reflexivity.
      * intros k Hk. apply G2. intros I. apply Hk. right; exact I.
    + destruct (IH (setitem name (VList []) d) w) as (d' & E & K & G1 & G2).
      { intros k Hk. apply In_keys_setitem. right. apply Hin. right; exact Hk. }
      exists d'. split; [exact E|].
      rewrite keys_setitem_old in K by (apply Hin; left; reflexivity).
      split; [exact K|]. split.
      * intros k [<-|Hk].
        -- rewrite Ev. simpl. unfold norm_value at 1. rewrite Lv.
           destruct (in_dec (list_eq_dec N.eq_dec) name names) as [I|I].
           ++ rewrite (G1 name I), getitem_setitem_same. reflexivity.
           ++ rewrite (G2 name I), getitem_setitem_same. reflexivity.
        -- rewrite (G1 k Hk).
           destruct (list_eq_dec N.eq_dec k name) as [->|Nk].
           ++ rewrite getitem_setitem_same, Ev. simpl.
              unfold norm_value at 2. rewrite Lv. reflexivity.
           ++ rewrite getitem_setitem_other by exact Nk. reflexivity.
      * intros k Hk.
        rewrite G2 by (intros I; apply Hk; right; exact I).
        apply getitem_setitem_other. intros ->. apply Hk. left; reflexivity.
Qed.

(** When every value is a list already the loop changes nothing. *)
Lemma cleanup_lists (names : list str) (d : dict) (w : world) :
  (forall k, In k names -> exists l, getitem k d = Some (VList l)) ->
  cleanup names d w = (Return d, w).
Proof.
  induction names as [|name names IH]; intros H; [reflexivity|].
  cbn [cleanup]. destruct (H name (or_introl eq_refl)) as [l ->].
  cbn [is_list negb]. apply IH. intros k Hk. apply H. right; exact Hk.
Qed.

Lemma getitem_In (k : str) (v : value) (d : dict) :
  getitem k d = Some v -> In (k, v) d.
Proof.
  induction d as [|[k' v'] d IH]; simpl; [discriminate|].
  destruct (eqb k' k) eqn:E.
  - apply eqb_eq in E. intros [= ->]. left; congruence.
  - intros H; right; auto.
Qed.

Lemma In_getitem_nodup (k : str) (v : value) (d : dict) :
  NoDup (keys d) -> In (k, v) d -> getitem k d = Some v.
Proof.
  induction d as [|[k' v'] d IH]; simpl; [tauto|].
  intros Hnd [E|I].
  - injection E as -> ->. rewrite eqb_refl. reflexivity.
  - inversion Hnd as [|? ? Hk Hd]; subst.
    destruct (eqb k' k) eqn:E.
    + apply eqb_eq in E; subst. exfalso. apply Hk.
      unfold keys. apply (in_map fst _ _ I).
    + apply IH; assumption.
Qed.

(** ** [load_data], case by case *)

Lemma load_data_missing (w : world) :
  disk w = None -> load_data w = (Return [], w).
Proof.
  intros H. unfold load_data, bind, path_exists. rewrite H. reflexivity.
Qed.

Lemma load_data_undecodable (w : world) (bytes : list Utf8.byte) :
  disk w = Some bytes -> Utf8.decode bytes = None ->
  load_data w = (Raise UnicodeDecodeError, w).
Proof.
  intros H1 H2.
  unfold load_data, bind, path_exists, try_except, read_file.
  rewrite H1. cbv beta iota. cbn [negb]. rewrite H1, H2. reflexivity.
Qed.

Lemma load_data_text (w : world) (bytes : list Utf8.byte) (text : str) :
  disk w = Some bytes -> Utf8.decode bytes = Some text ->
  load_data w =
  match Json.loads (universal_newlines text) with
  | Some (VDict entries) =>
      match cleanup (keys entries) entries w with
      | (Raise OSError, w') | (Raise JSONDecodeError, w') => (Return [], w')
      | r => r
      end
  | _ => (Return [], w)
  end.
Proof.
  intros H1 H2.
  unfold load_data, bind, path_exists, try_except, read_file, json_load.
  rewrite H1. cbv beta iota. cbn [negb]. rewrite H1, H2.
  destruct (loads (universal_newlines text)) as [v|]; [|reflexivity].
  unfold ret. destruct v; try reflexivity.
  destruct (cleanup (keys entries) entries w) as [[a|e] w'];
    [reflexivity | destruct e; reflexivity].
Qed.

(** What [load_data] returns when the file holds a JSON object. *)
Lemma load_data_object (w : world) (bytes : list Utf8.byte) (text : str)
      (entries : dict) :
  disk w = Some bytes -> Utf8.decode bytes = Some text ->
  Json.loads (universal_newlines text) = Some (VDict entries) ->
  exists d,
    load_data w = (Return d, w) /\
    keys d = keys entries /\
    (forall k, getitem k d = option_map norm_value (getitem k entries)).
Proof.
  intros H1 H2 H3. rewrite (load_data_text w bytes text H1 H2), H3.
  destruct (cleanup_run (keys entries) entries w (fun k H => H))
    as (d & E & K & G1 & G2).
  exists d. rewrite E. repeat split; [exact K|].
  intros k. destruct (in_dec (list_eq_dec N.eq_dec) k (keys entries)) as [I|I].
  - apply G1; exact I.
  - rewrite (G2 k I). apply getitem_None in I. rewrite I. reflexivity.
Qed.

(** What [load_data] returns when the file is missing, is not JSON, or
    holds a JSON value that is not an object. *)
Lemma load_data_empty (w : world) :
  disk w = None \/
  (exists bytes text,
     disk w = Some bytes /\ Utf8.decode bytes = Some text /\
     match Json.loads (universal_newlines text) with
     | Some v => is_dict v = false
     | None => True
     end) ->
  load_data w = (Return [], w).
Proof.
  intros [H|(bytes & text & H1 & H2 & H3)].
  - apply load_data_missing; exact H.
  - rewrite (load_data_text w bytes text H1 H2).
    destruct (loads (universal_newlines text)) as [v|]; [|reflexivity].
    destruct v; try reflexivity. discriminate H3.
Qed.

Ltac text_ok :=
  split;
  [ repeat (apply Forall_cons; [reflexivity|]); apply Forall_nil
  | cbn [pair_free lit list_ascii_of_string map app]; repeat split ].

Lemma document_safe (d : dict) :
  document d ->
  safe (VDict d) /\
  (forall k, In k (keys d) -> exists l, getitem k d = Some (VList l)).
Proof.
  intros [Hnd H]. split.
  - split; [exact Hnd|]. clear Hnd.
    induction H as [|[k v] d (Hk & gifts & Ev & Hg) Hd IH];
      cbn [fold_right fst snd] in *; [exact I|]. subst v.
    split; [exact Hk|]. split; [|exact IH].
    clear IH Hd Hk. induction Hg as [|g gifts (i & o & -> & Hi & Ho) Hgs IH];
      cbn [safe fold_right]; [exact I|].
    split; [|exact IH]. unfold gift_obj. cbn [safe fold_right fst snd].
    split; [repeat constructor; simpl; intuition discriminate|].
    split; [text_ok|]. split; [exact Hi|].
    split; [text_ok|]. split; [exact Ho | exact I].
  - intros k Hk. destruct (In_getitem k d Hk) as [v Ev].
    apply getitem_In in Ev as Iv.
    rewrite Forall_forall in H. destruct (H _ Iv) as (_ & gifts & E & _).
    simpl in E; subst v. exists gifts; exact Ev.
Qed.

(** Saving and then loading gives the document back, for every safe dict
    whose values are lists. *)
Lemma load_after_save (w : world) :
  safe (VDict (data w)) ->
  (forall k, In k (keys (data w)) ->
             exists l, getitem k (data w) = Some (VList l)) ->
  load_data (snd (save_data w)) = (Return (data w), snd (save_data w)).
Proof.
  intros Hs Hl. rewrite save_data_run. cbn [snd].
  set (w1 := World _ _ _ _ _).
  rewrite (load_data_text w1 (saved (data w)) (dumps (VDict (data w))));
    [| reflexivity
     | apply decode_ascii, plain_lt, plain_dumps ].
  rewrite universal_newlines_id by apply plain_no_cr, plain_dumps.
  rewrite loads_dumps by exact Hs.
  rewrite cleanup_lists by exact Hl. reflexivity.
Qed.

End Loading.

(* ================================================================== *)
(** * Loading, in both copies of the program *)
(* ================================================================== *)

Module Loaded.
Import Str Py Json Run Gift Spec.
Import StrFacts DictFacts TextFacts Ops Loading.

Lemma cleanup_frame (names : list str) :
  forall d w w',
    snd (cleanup names d w) = w /\
    fst (cleanup names d w) = fst (cleanup names d w').
Proof.
  induction names as [|name names IH]; intros d w w'; simpl.
  - split; reflexivity.
  - destruct (getitem name d) as [v|]; [|split; reflexivity].
    destruct (negb (is_list v)); apply IH.
Qed.

Lemma load_data_frame (w : world) : snd (load_data w) = w.
Proof.
  destruct (disk w) as [bytes|] eqn:Hd.
  2:{ rewrite (load_data_missing w Hd). reflexivity. }
  destruct (Utf8.decode bytes) as [text|] eqn:Hu.
  2:{ rewrite (load_data_undecodable w bytes Hd Hu). reflexivity. }
  rewrite (load_data_text w bytes text Hd Hu).
  destruct (loads (universal_newlines text)) as [[]|]; try reflexivity.
  destruct (cleanup_frame (keys entries) entries w w) as [F _].
  destruct (cleanup (keys entries) entries w) as [[a|[]] w1];
    simpl in F; subst; reflexivity.
Qed.

Lemma load_data_disk (w w' : world) :
  disk w = disk w' -> fst (load_data w) = fst (load_data w').
Proof.
  intros E. destruct (disk w) as [bytes|] eqn:Hd; symmetry in E.
  2:{ rewrite (load_data_missing w Hd), (load_data_missing w' E).
      reflexivity. }
  destruct (Utf8.decode bytes) as [text|] eqn:Hu.
  2:{ rewrite (load_data_undecodable w bytes Hd Hu),
              (load_data_undecodable w' bytes E Hu). reflexivity. }
  rewrite (load_data_text w bytes text Hd Hu),
          (load_data_text w' bytes text E Hu).
  destruct (loads (universal_newlines text)) as [[]|]; try reflexivity.
  destruct (cleanup_frame (keys entries) entries w w') as [_ F].
  destruct (cleanup (keys entries) entries w) as [[a|[]] w1],
           (cleanup (keys entries) entries w') as [[a'|[]] w1'];
    simpl in F; try discriminate F; try reflexivity;
    injection F as ->; reflexivity.
Qed.

Lemma except_everything {A} (body : M A) (caught : exn -> bool) (x : A)
      (w : world) :
  try_except body (fun _ => true) (ret x) w =
  match try_except body caught (ret x) w with
  | (Return a, w') => (Return a, w')
  | (Raise _, w') => (Return x, w')
  end.
Proof.
  unfold try_except. destruct (body w) as [[a|e] w']; [reflexivity|].
  destruct (caught e); reflexivity.
Qed.

(** The earlier copy catches everything. *)
Lemma draft_load_data (w : world) :
  Draft.load_data w =
  match load_data w with
  | (Return d, w') => (Return d, w')
  | (Raise _, w') => (Return [], w')
  end.
Proof.
  unfold Draft.load_data, load_data, bind, path_exists.
  destruct (disk w); cbn [negb]; [|reflexivity].
  apply except_everything.
Qed.

(** What the program wrote is what it loads. *)
Lemma load_saved (w : world) (d : dict) :
  document d -> disk w = Some (saved d) -> load_data w = (Return d, w).
Proof.
  intros Hd E.
  pose (w0 := World d None 0 [] []).
  pose proof (save_then := load_after_save w0).
  destruct (document_safe d Hd) as [Hs Hl].
  specialize (save_then Hs Hl). rewrite save_data_run in save_then.
  cbn [snd data disk writes stdin stdout w0] in save_then.
  rewrite (surjective_pairing (load_data w)), load_data_frame.
  rewrite (load_data_disk w (World d (Some (saved d)) 1 [] [])) by exact E.
  rewrite save_then. reflexivity.
Qed.

End Loaded.

(* ================================================================== *)
(** * Properties of the program *)
(* ================================================================== *)

Import Str Py Json Run Gift Spec.
Import StrFacts DictFacts TextFacts Ops Screens RoundTrip Decoded Loading.
Import Loaded.

(** C1.  [add_recipient_to_data]: a name that is not yet a key becomes a
    new key (the last one) bound to the empty list, every other entry is
    kept, the document is saved, and the call returns [True]; a name that
    is already a key makes the call return [False] and changes nothing at
    all, so the entry keeps its gift list. *)
Theorem add_recipient_to_data_spec (w : world) (name : str) :
  (~ In name (keys (data w)) ->
   exists w',
     add_recipient_to_data name w = (Return true, w') /\
     getitem name (data w') = Some (VList []) /\
     keys (data w') = keys (data w) ++ [name] /\
     (forall k, k <> name -> getitem k (data w') = getitem k (data w)) /\
     disk w' = Some (saved (data w')))
  /\
  (In name (keys (data w)) ->
   add_recipient_to_data name w = (Return false, w) /\
   getitem name (data w) <> None).
Proof.
  split; intros H.
  - eexists. split; [apply add_recipient_new; exact H|]. simpl.
    repeat split.
    + apply getitem_app_new; exact H.
    + unfold keys. rewrite map_app. reflexivity.
    + intros k Hk. apply getitem_app_other; exact Hk.
  - split; [apply add_recipient_old; exact H|].
    intros E. apply getitem_None in E. tauto.
Qed.

Lemma add_recipient_to_data_spec_witness :
  (exists w',
     add_recipient_to_data (lit "Mom") (World [] None 0 [] [])
     = (Return true, w') /\
     getitem (lit "Mom") (data w') = Some (VList []) /\
     keys (data w') = [] ++ [lit "Mom"] /\
     (forall k, k <> lit "Mom" -> getitem k (data w') = getitem k []) /\
     disk w' = Some (saved (data w')))
  /\
  (let w := World [(lit "Mom", VList [gift_obj (lit "Scarf") (lit "Birthday")])]
                  None 0 [] [] in
   add_recipient_to_data (lit "Mom") w = (Return false, w) /\
   getitem (lit "Mom") (data w) <> None).
Proof.
  split.
  - apply (proj1 (add_recipient_to_data_spec (World [] None 0 [] [])
                    (lit "Mom"))).
    simpl; tauto.
  - apply (proj2 (add_recipient_to_data_spec
                    (World [(lit "Mom",
                             VList [gift_obj (lit "Scarf") (lit "Birthday")])]
                           None 0 [] [])
                    (lit "Mom"))).
    simpl; left; reflexivity.
Defined.

(** C2 (as stated, refuted).  Not every document comes back as it was.  A
    high surrogate directly followed by a low surrogate is written as two
    escapes, and the two are read back as one character: the document
    whose one recipient is named by the two code points U+D83D U+DE00
    is loaded as the document whose one recipient is named U+1F600. *)
Lemma save_then_load_joins_surrogates :
  fst (load_data
         (snd (save_data
                 (World [([55357%N; 56832%N], VList [])] None 0 [] []))))
  = Return [([128512%N], VList [])] /\
  [([128512%N], VList [])] <> [([55357%N; 56832%N], VList [])].
Proof. split; [reflexivity | discriminate]. Qed.

(** C2 (amended).  Saving a document and loading it again, with nothing
    else touching the file in between, returns the same mapping: the same
    keys in the same order, each with the same gift records in the same
    order, provided that in no string of the document a high surrogate is
    directly followed by a low surrogate (all valid Unicode text
    qualifies).  A document is a dict with distinct keys whose values are
    lists of gift records.  The load need not be that of the run that
    saved: [v] is any world, whatever its dict and its console, whose
    file is the file that [save_data] left. *)
Theorem save_then_load (w v : world) :
  document (data w) ->
  disk v = disk (snd (save_data w)) ->
  load_data v = (Return (data w), v).
Proof.
  intros H E. apply load_saved; [exact H|].
  rewrite E, save_data_run. reflexivity.
Qed.

Lemma save_then_load_witness :
  let d := [(lit "Mom", VList [gift_obj (lit "Scarf") (lit "Birthday");
                               gift_obj (lit "Book") (lit "Other: New Year")]);
            (lit "Zo" ++ [235%N; 8364%N; 128512%N; 55357%N; 120%N],
             VList [])] in
  let w := World d None 0 [] [] in
  let v := World [(lit "Dad", VList [])] (disk (snd (save_data w))) 0
                 [lit "1"] [] in
  load_data v = (Return d, v).
Proof.
  intros d w v. apply (save_then_load w v); [|reflexivity].
  split.
  - repeat constructor; simpl; intuition discriminate.
  - apply Forall_cons; [|apply Forall_cons; [|apply Forall_nil]].
    + split; [text_ok|]. eexists; split; [reflexivity|].
      apply Forall_cons; [|apply Forall_cons; [|apply Forall_nil]];
        (eexists; eexists; split; [reflexivity|]; split; text_ok).
    + split; [text_ok|]. eexists; split; [reflexivity | apply Forall_nil].
Defined.

(** C3 (the code against the claim).  A data file that is not valid UTF-8
    is a file whose contents are not valid JSON, yet [load_data] does not
    return the empty mapping for it: reading the file raises
    [UnicodeDecodeError], which the handler for [OSError] and
    [JSONDecodeError] lets through to the caller. *)
Theorem load_data_invalid_utf8 :
  let w := World [] (Some [Byte.xff]) 0 [] [] in
  load_data w = (Raise UnicodeDecodeError, w).
Proof. reflexivity. Qed.

(** For a file that can be decoded the claim holds: a missing file, text
    that is not JSON, an array and a scalar all give the empty mapping. *)
Lemma load_data_malformed_examples :
  let file (text : str) :=
    World [] (Some (map Utf8.byte_of_N text)) 0 [] [] in
  load_data (World [] None 0 [] []) = (Return [], World [] None 0 [] []) /\
  load_data (file (lit "not json")) = (Return [], file (lit "not json")) /\
  load_data (file (lit "[1, 2]")) = (Return [], file (lit "[1, 2]")) /\
  load_data (file (lit "42")) = (Return [], file (lit "42")).
Proof. repeat split. Qed.

(** C4.  Whatever [load_data] returns, every value in it is a list and no
    key occurs twice.  When the file holds a JSON object the result has
    the keys of that object, in its order; a value that is a list is
    kept, any other value is replaced by the empty list. *)
Theorem load_data_values_are_lists (w : world) (d : dict) (w' : world) :
  load_data w = (Return d, w') ->
  Forall (fun e => is_list (snd e) = true) d /\
  NoDup (keys d) /\
  (forall bytes text entries,
     disk w = Some bytes -> Utf8.decode bytes = Some text ->
     loads (universal_newlines text) = Some (VDict entries) ->
     keys d = keys entries /\
     forall k, getitem k d = option_map norm_value (getitem k entries)).
Proof.
  intros H.
  destruct (disk w) as [bytes|] eqn:Hd.
  2:{ rewrite (load_data_missing w Hd) in H. injection H as <- <-.
      split; [constructor|]. split; [constructor|]. discriminate. }
  destruct (Utf8.decode bytes) as [text|] eqn:Hu.
  2:{ rewrite (load_data_undecodable w bytes Hd Hu) in H. discriminate H. }
  destruct (loads (universal_newlines text)) as [v|] eqn:Hj.
  2:{ rewrite (load_data_empty w) in H.
      - injection H as <- <-.
        split; [constructor|]. split; [constructor|].
        intros b t e [= <-] Hu'. rewrite Hu in Hu'. injection Hu' as <-.
        rewrite Hj. discriminate.
      - right. exists bytes, text. rewrite Hj. auto. }
  destruct (is_dict v) eqn:Dv.
  2:{ rewrite (load_data_empty w) in H.
      - injection H as <- <-.
        split; [constructor|]. split; [constructor|].
        intros b t e [= <-] Hu'. rewrite Hu in Hu'. injection Hu' as <-.
        rewrite Hj. intros [= ->]. discriminate Dv.
      - right. exists bytes, text. rewrite Hj. auto. }
  destruct v; try discriminate Dv.
  destruct (load_data_object w bytes text entries Hd Hu Hj)
    as (d0 & E & K & G).
  rewrite E in H. injection H as -> <-.
  pose proof (loads_dict _ _ Hj) as Hnd. rewrite <- K in Hnd.
  split; [|split; [|intros b t e [= <-] H0 H1; split]].
  - apply Forall_forall. intros [k x] Hx.
    apply (In_getitem_nodup k x d Hnd) in Hx. rewrite G in Hx. simpl.
    destruct (getitem k entries) as [y|]; [|discriminate Hx].
    injection Hx as <-. unfold norm_value.
    destruct (is_list y) eqn:Ly; [exact Ly | reflexivity].
  - exact Hnd.
  - rewrite Hu in H0. injection H0 as <-. rewrite Hj in H1.
    injection H1 as <-. exact K.
  - rewrite Hu in H0. injection H0 as <-. rewrite Hj in H1.
    injection H1 as <-. apply G.
Qed.

Lemma load_data_values_are_lists_witness :
  let w := World [] (Some (map Utf8.byte_of_N
                             ([123; 34; 97; 34; 58; 49; 44; 34; 98; 34; 58;
                               91; 50; 93; 125]%N)))
                 0 [] [] in
  let d := [(lit "a", VList []); (lit "b", VList [VInt 2])] in
  Forall (fun e => is_list (snd e) = true) d /\
  NoDup (keys d) /\
  (forall bytes text entries,
     disk w = Some bytes -> Utf8.decode bytes = Some text ->
     loads (universal_newlines text) = Some (VDict entries) ->
     keys d = keys entries /\
     forall k, getitem k d = option_map norm_value (getitem k entries)).
Proof.
  intros w d. apply (load_data_values_are_lists w d w). reflexivity.
Defined.

(** C5.  [list_recipients] returns the recipient names, all of them and
    nothing else, in ascending order of [<] on strings, which compares
    code point by code point (so upper case comes before lower case); on
    the document with keys Bob, alice, Zed it returns Bob, Zed, alice. *)
Theorem list_recipients_sorted (d : dict) :
  Permutation (keys d) (list_recipients d) /\
  StronglySorted le (list_recipients d) /\
  list_recipients
    [(lit "Bob", VList []); (lit "alice", VList []); (lit "Zed", VList [])]
  = [lit "Bob"; lit "Zed"; lit "alice"].
Proof.
  unfold list_recipients. repeat split.
  - apply sort_perm.
  - apply sort_sorted.
Qed.

(** C6.  For a recipient that is in the document, any run of
    [add_gift_to_recipient] calls succeeds, and [get_gifts_for_recipient]
    then returns the earlier gifts followed by one record for each call,
    in the order of the calls: the dict that binds "idea" to the idea and
    "occasion" to the occasion of that call. *)
Theorem gifts_in_insertion_order (gifts : list (str * str)) :
  forall (w : world) (r : str) (old : list value),
    getitem r (data w) = Some (VList old) ->
    exists w',
      add_gifts r gifts w = (Return tt, w') /\
      get_gifts_for_recipient (data w') r
      = VList (old ++ map (fun g => VDict [(lit "idea", VStr (fst g));
                                           (lit "occasion", VStr (snd g))])
                          gifts).
Proof.
  induction gifts as [|[g o] gifts IH]; intros w r old H; simpl.
  - exists w. split; [reflexivity|].
    unfold get_gifts_for_recipient, get. rewrite H, app_nil_r. reflexivity.
  - unfold bind. rewrite (add_gift_run w r g o old H). simpl.
    match goal with
    | |- context [add_gifts r gifts ?w1] =>
        destruct (IH w1 r (old ++ [gift_obj g o])) as [w' [E1 E2]]
    end.
    + simpl. apply getitem_setitem_same.
    + exists w'. split; [exact E1|].
      rewrite E2, <- app_assoc. reflexivity.
Qed.

Lemma gifts_in_insertion_order_witness :
  exists w',
    add_gifts (lit "Mom")
      [(lit "Socks", lit "Birthday"); (lit "Book", lit "Christmas")]
      (World [(lit "Mom", VList [])] None 0 [] []) = (Return tt, w') /\
    get_gifts_for_recipient (data w') (lit "Mom")
    = VList [VDict [(lit "idea", VStr (lit "Socks"));
                    (lit "occasion", VStr (lit "Birthday"))];
             VDict [(lit "idea", VStr (lit "Book"));
                    (lit "occasion", VStr (lit "Christmas"))]].
Proof.
  exact (gifts_in_insertion_order
           [(lit "Socks", lit "Birthday"); (lit "Book", lit "Christmas")]
           (World [(lit "Mom", VList [])] None 0 [] []) (lit "Mom") []
           eq_refl).
Defined.

(** C7.  [add_gift_to_recipient] relies on the recipient being in the
    document.  When it is (with its list of gifts), the call returns
    without error, the record that binds "idea" to the idea and
    "occasion" to the occasion is appended to that list, every other
    entry is kept and the document is saved.  The operation has no check
    of its own: for a name that is not a key the lookup fails with
    [KeyError], before anything is changed or written. *)
Theorem add_gift_to_recipient_spec (w : world) (r g o : str) :
  (forall gifts,
     getitem r (data w) = Some (VList gifts) ->
     exists w',
       add_gift_to_recipient r g o w = (Return tt, w') /\
       getitem r (data w')
       = Some (VList (gifts ++ [VDict [(lit "idea", VStr g);
                                       (lit "occasion", VStr o)]])) /\
       keys (data w') = keys (data w) /\
       (forall k, k <> r -> getitem k (data w') = getitem k (data w)) /\
       disk w' = Some (saved (data w')))
  /\
  (~ In r (keys (data w)) ->
   add_gift_to_recipient r g o w = (Raise KeyError, w)).
Proof.
  split.
  - intros gifts H. eexists. split; [apply add_gift_run; exact H|]. simpl.
    repeat split.
    + apply getitem_setitem_same.
    + apply keys_setitem_old. eapply getitem_Some_In; exact H.
    + intros k Hk. apply getitem_setitem_other; exact Hk.
  - apply add_gift_missing.
Qed.

Lemma add_gift_to_recipient_spec_witness :
  (let w := World [(lit "Mom", VList [])] None 0 [] [] in
   exists w',
     add_gift_to_recipient (lit "Mom") (lit "Scarf") (lit "Birthday") w
     = (Return tt, w') /\
     getitem (lit "Mom") (data w')
     = Some (VList ([] ++ [VDict [(lit "idea", VStr (lit "Scarf"));
                                  (lit "occasion", VStr (lit "Birthday"))]])) /\
     keys (data w') = keys (data w) /\
     (forall k, k <> lit "Mom" -> getitem k (data w') = getitem k (data w)) /\
     disk w' = Some (saved (data w')))
  /\
  (let w := World [(lit "Mom", VList [])] None 0 [] [] in
   add_gift_to_recipient (lit "Dad") (lit "Scarf") (lit "Birthday") w
   = (Raise KeyError, w)).
Proof.
  split.
  - apply (proj1 (add_gift_to_recipient_spec
                    (World [(lit "Mom", VList [])] None 0 [] [])
                    (lit "Mom") (lit "Scarf") (lit "Birthday")) []).
    reflexivity.
  - apply (proj2 (add_gift_to_recipient_spec
                    (World [(lit "Mom", VList [])] None 0 [] [])
                    (lit "Dad") (lit "Scarf") (lit "Birthday"))).
    simpl. intros [H|[]]. discriminate H.
Defined.


(** A digit that is not a decimal digit passes [is_number] and then makes
    [int] fail: typing a superscript two at the occasion prompt raises
    [ValueError]. *)
Lemma choose_occasion_superscript_two :
  is_number (strip [178%N]) = true /\
  fst (choose_occasion (World [] None 0 [[178%N]] [])) = Raise ValueError.
Proof. split; reflexivity. Qed.



(** C9.  Typing "cancel" (in any case, with any surrounding whitespace) at
    the name prompt of the add-recipient screen, or choosing 0 at the
    occasion prompt of the add-gift screen (after an idea that the screen
    accepts, on a line within the limit of [int]), ends the screen
    normally with the dict, the file and the number of writes as they
    were: nothing is changed and nothing is saved.  The screen has read
    the lines up to that answer and no more. *)
Theorem cancel_changes_nothing (w : world) :
  (forall (line : str) (rest : list str),
     stdin w = line :: rest ->
     eqb (lower (strip line)) (lit "cancel") = true ->
     exists w',
       add_recipient_screen w = (Return tt, w') /\
       same_store w w' /\ stdin w' = rest)
  /\
  (forall (r g c : str) (rest : list str),
     stdin w = g :: c :: rest ->
     eqb (lower (strip g)) (lit "cancel") = false ->
     clean_text (strip g) <> [] ->
     within_limit c ->
     is_number (strip c) = true -> to_int (strip c) = Some 0%Z ->
     exists w',
       add_gift_screen r w = (Return tt, w') /\
       same_store w w' /\ stdin w' = rest).
Proof.
  destruct w as [d f n i o]. split.
  - intros line rest Hin H; simpl in Hin; subst i.
    destruct (add_recipient_screen_cancel d f n line rest o H) as [o' E].
    eexists; split; [exact E | repeat split].
  - intros r g c rest Hin G1 G2 _ H1 H2; simpl in Hin; subst i.
    destruct (add_gift_screen_no_occasion r d f n g c rest o G1 G2 H1 H2)
      as (o' & E).
    eexists; split; [exact E | repeat split].
Qed.

Lemma cancel_changes_nothing_witness :
  let d := [(lit "Mom", VList [])] in
  let w := World d (Some (saved d)) 1 [lit " Cancel "; lit "x"] [] in
  let v := World d (Some (saved d)) 1 [lit "Scarf"; lit " 0"; lit "x"] [] in
  (exists w', add_recipient_screen w = (Return tt, w') /\
              same_store w w' /\ stdin w' = [lit "x"]) /\
  (exists v', add_gift_screen (lit "Mom") v = (Return tt, v') /\
              same_store v v' /\ stdin v' = [lit "x"]).
Proof.
  intros d w v. split.
  - apply (proj1 (cancel_changes_nothing w) (lit " Cancel ") [lit "x"]);
      reflexivity.
  - apply (proj2 (cancel_changes_nothing v) (lit "Mom") (lit "Scarf")
                 (lit " 0") [lit "x"]);
      [reflexivity | reflexivity | discriminate
      | unfold within_limit; simpl; lia | reflexivity | reflexivity].
Defined.

(** C10.  At the confirm prompt of either screen only the answer "2"
    (after stripping) cancels, leaving the dict and the file as they were.
    Any other answer, the empty line and arbitrary text included, goes on
    to the operation.  Add-recipient screen: the name is a key of the
    document when the screen ends, whatever is typed afterwards, and if it
    was new the file has been written and holds the document.  Add-gift
    screen, for a recipient that is in the document and an occasion
    picked on a line within the limit of [int]: the record that binds
    "idea" to the idea as [clean_text] left it and "occasion" to the
    occasion is appended to the recipient's gifts and the document is
    saved. *)
Theorem only_two_cancels (w : world) :
  (forall (line c : str) (rest : list str),
     stdin w = line :: c :: rest ->
     eqb (lower (strip line)) (lit "cancel") = false ->
     clean_text (strip line) <> [] ->
     (strip c = lit "2" ->
      exists w',
        add_recipient_screen w = (Return tt, w') /\ same_store w w') /\
     (strip c <> lit "2" ->
      let w' := snd (add_recipient_screen w) in
      In (clean_text (strip line)) (keys (data w')) /\
      (~ In (clean_text (strip line)) (keys (data w)) ->
       (writes w < writes w')%nat /\ disk w' = Some (saved (data w')))))
  /\
  (forall (r g c occasion : str) (lines rest : list str) (gifts : list value),
     stdin w = g :: lines ->
     eqb (lower (strip g)) (lit "cancel") = false ->
     clean_text (strip g) <> [] ->
     picks lines occasion (c :: rest) ->
     getitem r (data w) = Some (VList gifts) ->
     (strip c = lit "2" ->
      exists w',
        add_gift_screen r w = (Return tt, w') /\ same_store w w') /\
     (strip c <> lit "2" ->
      exists w',
        add_gift_screen r w = (Return tt, w') /\
        data w'
        = setitem r
            (VList (gifts
                    ++ [VDict [(lit "idea", VStr (clean_text (strip g)));
                               (lit "occasion", VStr occasion)]]))
            (data w) /\
        disk w' = Some (saved (data w')) /\
        writes w' = S (writes w))).
Proof.
  destruct w as [d f n i o]. split.
  - intros line c rest Hin H1 H2; simpl in Hin; subst i. split; intros H3.
    + destruct (add_recipient_screen_declined d f n line c rest o H1 H2 H3)
        as [o' E].
      eexists; split; [exact E | repeat split].
    + exact (add_recipient_screen_confirmed d f n line c rest o H1 H2 H3).
  - intros r g c occ lines rest gifts Hin H1 H2 H3 H4; simpl in Hin, H4;
      subst i. split; intros H5.
    + destruct (add_gift_screen_declined r d f n g c lines occ rest o
                  H1 H2 H3 H5) as [o' E].
      eexists; split; [exact E | repeat split].
    + destruct (add_gift_screen_confirmed r d f n g c lines occ rest o gifts
                  H1 H2 H3 H5 H4) as [o' E].
      eexists; split; [exact E | repeat split].
Qed.

Lemma only_two_cancels_witness :
  let w := World [(lit "Mom", VList [])] None 0
                 [lit "Dad"; lit ""; lit "no"] [] in
  let v := World [(lit "Mom", VList [])] None 0
                 [lit "Scarf"; lit "1"; lit "maybe"] [] in
  (let w' := snd (add_recipient_screen w) in
   In (clean_text (strip (lit "Dad"))) (keys (data w')) /\
   (~ In (clean_text (strip (lit "Dad"))) (keys (data w)) ->
    (writes w < writes w')%nat /\ disk w' = Some (saved (data w')))) /\
  (exists v',
     add_gift_screen (lit "Mom") v = (Return tt, v') /\
     data v'
     = setitem (lit "Mom")
         (VList ([] ++ [VDict [(lit "idea",
                                VStr (clean_text (strip (lit "Scarf"))));
                               (lit "occasion", VStr (lit "Birthday"))]]))
         (data v) /\
     disk v' = Some (saved (data v')) /\
     writes v' = S (writes v)).
Proof.
  intros w v. split.
  - apply (proj2 (proj1 (only_two_cancels w) (lit "Dad") (lit "")
                        [lit "no"] eq_refl eq_refl
                        ltac:(discriminate))).
    discriminate.
  - apply (proj2 (proj2 (only_two_cancels v) (lit "Mom") (lit "Scarf")
                        (lit "maybe") (lit "Birthday")
                        [lit "1"; lit "maybe"] [] [] eq_refl eq_refl
                        ltac:(discriminate)
                        (pick_birthday (lit "1") [lit "maybe"]
                           ltac:(unfold within_limit; simpl; lia)
                           eq_refl eq_refl)
                        eq_refl)).
    discriminate.
Defined.

(* ================================================================== *)
(** * The helpers: numbers and whitespace *)
(* ================================================================== *)

Module Helpers.
Import Str Py Run Gift Spec Menu Nav Whole.
Import StrFacts DictFacts.

(** ** Digits are not whitespace *)

Lemma in_ranges_In (rs : list (N * N)) (c : char) :
  in_ranges rs c = true <->
  exists r, In r rs /\ (fst r <= c)%N /\ (c <= snd r)%N.
Proof.
  unfold in_ranges. rewrite existsb_exists. unfold in_range.
  split; intros (r & I & H); exists r; (split; [exact I|]).
  - apply andb_true_iff in H. destruct H as [H1 H2].
    apply N.leb_le in H1. apply N.leb_le in H2. tauto.
  - apply andb_true_iff. split; apply N.leb_le; tauto.
Qed.

Lemma ranges_apart (rs1 rs2 : list (N * N)) (c : char) :
  forallb (fun r1 =>
             forallb (fun r2 => (N.ltb (snd r1) (fst r2)
                                 || N.ltb (snd r2) (fst r1))%bool) rs2)
          rs1 = true ->
  in_ranges rs1 c = true -> in_ranges rs2 c = false.
Proof.
  intros A H1. destruct (in_ranges rs2 c) eqn:H2; [|reflexivity].
  apply in_ranges_In in H1. apply in_ranges_In in H2.
  destruct H1 as (r1 & I1 & L1 & U1). destruct H2 as (r2 & I2 & L2 & U2).
  rewrite forallb_forall in A. specialize (A r1 I1).
  rewrite forallb_forall in A. specialize (A r2 I2).
  apply orb_true_iff in A. destruct A as [A|A]; apply N.ltb_lt in A; lia.
Qed.

Lemma digit_not_space (c : char) : isdigit_char c = true -> isspace c = false.
Proof.
  intros H. destruct (isspace c) eqn:S; [|reflexivity].
  unfold isdigit_char, isdecimal_char in H. apply orb_true_iff in H.
  unfold isspace in S. destruct H as [H|H].
  - rewrite (ranges_apart whitespace decimal_digits c) in H;
      [discriminate H | reflexivity | exact S].
  - rewrite (ranges_apart whitespace other_digits c) in H;
      [discriminate H | reflexivity | exact S].
Qed.

(** ** [strip] *)

Lemma lstrip_keeps (s : str) :
  match s with c :: _ => isspace c = false | [] => True end -> lstrip s = s.
Proof. destruct s as [|c s]; simpl; [trivial | intros ->; reflexivity]. Qed.

Lemma strip_keeps (s : str) :
  (forall c, In c s -> isspace c = false) -> strip s = s.
Proof.
  intros H. unfold strip, rstrip.
  rewrite (lstrip_keeps s).
  2:{ destruct s; [exact I | apply H; left; reflexivity]. }
  rewrite (lstrip_keeps (rev s)); [apply rev_involutive|].
  destruct (rev s) as [|c r] eqn:E; [exact I|].
  apply H, in_rev. rewrite E. left; reflexivity.
Qed.

Lemma lstrip_blank (s : str) : forallb isspace s = true -> lstrip s = [].
Proof.
  induction s as [|c s IH]; simpl; [reflexivity|].
  intros H. apply andb_true_iff in H. destruct H as [-> H]. apply IH, H.
Qed.

Lemma strip_blank (s : str) : forallb isspace s = true -> strip s = [].
Proof. intros H. unfold strip. rewrite (lstrip_blank s H). reflexivity. Qed.

Lemma lstrip_suffix (s : str) : exists blank, s = blank ++ lstrip s.
Proof.
  induction s as [|c s [b IH]]; simpl; [exists []; reflexivity|].
  destruct (isspace c); [|exists []; reflexivity].
  exists (c :: b). simpl. rewrite <- IH. reflexivity.
Qed.

Lemma strip_part (s : str) (c : char) : In c (strip s) -> In c s.
Proof.
  unfold strip, rstrip. intros H. apply in_rev in H.
  destruct (lstrip_suffix (rev (lstrip s))) as [b1 E1].
  destruct (lstrip_suffix s) as [b2 E2].
  rewrite E2. apply in_or_app. right.
  apply in_rev. rewrite E1. apply in_or_app. right. exact H.
Qed.

Lemma plain_digits_strip (line : str) :
  plain_digits line = true -> plain_digits (strip line) = true.
Proof.
  unfold plain_digits. rewrite !forallb_forall.
  intros H c I. apply H, strip_part, I.
Qed.

(** ** [isdigit] and [int] *)

Lemma decimal_value_Some (c : char) :
  isdecimal_char c = true -> exists d, decimal_value c = Some d.
Proof.
  unfold isdecimal_char, in_ranges, decimal_value. intros H.
  apply existsb_exists in H. destruct H as (r & I & H).
  destruct (find (in_range c) decimal_digits) as [r'|] eqn:F.
  - eexists; reflexivity.
  - apply (find_none _ _ F) in I. congruence.
Qed.

Lemma decimal_value_None (c : char) :
  isdecimal_char c = false -> decimal_value c = None.
Proof.
  unfold isdecimal_char, in_ranges, decimal_value. intros H.
  destruct (find (in_range c) decimal_digits) as [r|] eqn:F; [|reflexivity].
  apply find_some in F. destruct F as [I F].
  assert (existsb (in_range c) decimal_digits = true)
    by (apply existsb_exists; exists r; tauto).
  congruence.
Qed.

Lemma digits_value_decimal (s : str) :
  forall acc sep,
    forallb isdecimal_char s = true -> s <> [] \/ sep = true ->
    exists n, digits_value acc sep s = Some n.
Proof.
  induction s as [|c s IH]; intros acc sep H Hs; simpl.
  - destruct Hs as [Hs| ->]; [congruence | eexists; reflexivity].
  - simpl in H. apply andb_true_iff in H. destruct H as [Hc H].
    destruct (decimal_value_Some c Hc) as [d ->].
    apply IH; [exact H | right; reflexivity].
Qed.

Lemma digits_value_other (s : str) :
  forall acc sep,
    forallb isdigit_char s = true -> forallb isdecimal_char s = false ->
    digits_value acc sep s = None.
Proof.
  induction s as [|c s IH]; intros acc sep H1 H2; simpl in *;
    [discriminate|].
  apply andb_true_iff in H1. destruct H1 as [Hc H1].
  destruct (isdecimal_char c) eqn:Dc.
  - destruct (decimal_value_Some c Dc) as [d ->]. apply IH; assumption.
  - rewrite (decimal_value_None c Dc).
    destruct (N.eqb_spec c 95) as [->|_]; [discriminate Hc | reflexivity].
Qed.

Lemma to_int_unsigned (s : str) :
  strip s = s ->
  match s with c :: _ => c <> 43%N /\ c <> 45%N | [] => True end ->
  to_int s = option_map Z.of_N (digits_value 0 false s).
Proof.
  intros E H. unfold to_int. rewrite E.
  destruct s as [|c s]; [reflexivity|]. destruct H as [H1 H2].
  destruct c as [|p]; [reflexivity|].
  do 6 (try destruct p as [p|p|]); try reflexivity; congruence.
Qed.

Lemma is_number_keeps (t : str) : is_number t = true -> strip t = t.
Proof.
  intros H. apply strip_keeps. intros c I. apply digit_not_space.
  unfold is_number, isdigit in H. destruct t; [discriminate|].
  rewrite forallb_forall in H. apply H, I.
Qed.

Lemma is_number_plain (t : str) :
  is_number t = true -> plain_digits t = forallb isdecimal_char t.
Proof.
  unfold is_number, isdigit. destruct t as [|c t]; [discriminate|].
  generalize (c :: t). clear. intros s H.
  induction s as [|c s IH]; simpl in *; [reflexivity|].
  apply andb_true_iff in H. destruct H as [-> H]. rewrite IH by exact H.
  reflexivity.
Qed.

Lemma to_int_is_number (t : str) :
  is_number t = true ->
  to_int t = option_map Z.of_N (digits_value 0 false t).
Proof.
  intros H. apply to_int_unsigned; [apply is_number_keeps, H|].
  unfold is_number, isdigit in H. destruct t as [|c t]; [exact I|].
  simpl in H. apply andb_true_iff in H. destruct H as [H _].
  split; intros ->; discriminate H.
Qed.

(** ** [split] and [join] *)

Lemma split_from_app (w s : str) :
  forall acc,
    forallb nonspace w = true ->
    split_from acc (w ++ s) = split_from (rev w ++ acc) s.
Proof.
  induction w as [|c w IH]; intros acc H; simpl; [reflexivity|].
  simpl in H. apply andb_true_iff in H. destruct H as [Hc H].
  unfold nonspace in Hc. apply negb_true_iff in Hc. rewrite Hc.
  rewrite IH by exact H. rewrite <- app_assoc. reflexivity.
Qed.

Lemma forallb_rev {A} (f : A -> bool) (l : list A) :
  forallb f (rev l) = forallb f l.
Proof.
  induction l as [|x l IH]; simpl; [reflexivity|].
  rewrite forallb_app, IH. simpl. rewrite andb_true_r. apply andb_comm.
Qed.

Lemma word_rev (acc : str) :
  acc <> [] -> forallb nonspace acc = true -> word (rev acc).
Proof.
  intros H1 H2. split; [|rewrite forallb_rev; exact H2].
  intros E. apply H1. rewrite <- (rev_involutive acc), E. reflexivity.
Qed.

Lemma split_from_words (s : str) :
  forall acc, forallb nonspace acc = true -> Forall word (split_from acc s).
Proof.
  induction s as [|c s IH]; intros acc H; simpl.
  - destruct acc as [|a acc]; constructor; [|constructor].
    apply word_rev; [discriminate | exact H].
  - destruct (isspace c) eqn:E.
    + destruct acc as [|a acc]; [apply IH; reflexivity|].
      constructor; [|apply IH; reflexivity].
      apply word_rev; [discriminate | exact H].
    + apply IH. simpl. unfold nonspace at 1. rewrite E. exact H.
Qed.

Lemma split_words (s : str) : Forall word (split s).
Proof. apply split_from_words. reflexivity. Qed.

Lemma split_from_join (ws : list str) :
  Forall word ws ->
  forall acc w,
    forallb nonspace w = true -> rev w ++ acc <> [] ->
    split_from acc (join (lit " ") (w :: ws)) = (rev acc ++ w) :: ws.
Proof.
  induction 1 as [|w' ws Hw' Hws IH]; intros acc w Hw Hne.
  - cbn [join]. rewrite <- (app_nil_r w) at 1.
    rewrite split_from_app by exact Hw. cbn [split_from].
    destruct (rev w ++ acc) eqn:E; [congruence|].
    rewrite <- E, rev_app_distr, rev_involutive. reflexivity.
  - change (join (lit " ") (w :: w' :: ws))
      with (w ++ lit " " ++ join (lit " ") (w' :: ws)).
    rewrite split_from_app by exact Hw.
    change (lit " " ++ join (lit " ") (w' :: ws))
      with (32%N :: join (lit " ") (w' :: ws)).
    cbn [split_from]. change (isspace 32%N) with true. cbv iota.
    destruct (rev w ++ acc) eqn:E; [congruence|].
    rewrite <- E, rev_app_distr, rev_involutive.
    destruct Hw' as [N1 N2].
    f_equal. apply (IH [] w' N2).
    rewrite app_nil_r. intros R. apply N1.
      rewrite <- (rev_involutive w'), R. reflexivity.
Qed.

Lemma split_join (ws : list str) :
  Forall word ws -> split (join (lit " ") ws) = ws.
Proof.
  intros H. destruct H as [|w ws [N1 N2] Hws]; [reflexivity|].
  unfold split. rewrite split_from_join; [reflexivity | exact Hws | exact N2 |].
  rewrite app_nil_r. intros R. apply N1.
  rewrite <- (rev_involutive w), R. reflexivity.
Qed.

Lemma word_head (w : str) :
  word w -> exists c s, w = c :: s /\ isspace c = false.
Proof.
  intros [N1 N2]. destruct w as [|c s]; [congruence|].
  exists c, s. split; [reflexivity|].
  simpl in N2. apply andb_true_iff in N2. destruct N2 as [N2 _].
  apply negb_true_iff in N2. exact N2.
Qed.

Lemma words_head (ws : list str) :
  Forall word ws -> ws <> [] ->
  exists c s, join (lit " ") ws = c :: s /\ isspace c = false.
Proof.
  intros H Hne. destruct H as [|w ws Hw Hws]; [congruence|].
  destruct (word_head w Hw) as (c & s & -> & Hc).
  destruct ws; simpl; eexists; eexists; split; try reflexivity; exact Hc.
Qed.

Lemma words_last (ws : list str) :
  Forall word ws -> ws <> [] ->
  exists c s, rev (join (lit " ") ws) = c :: s /\ isspace c = false.
Proof.
  induction 1 as [|w ws Hw Hws IH]; intros Hne; [congruence|].
  destruct ws as [|w' ws].
  - cbn [join]. destruct Hw as [N1 N2].
    apply (word_head (rev w)). apply word_rev; assumption.
  - change (join (lit " ") (w :: w' :: ws))
      with (w ++ lit " " ++ join (lit " ") (w' :: ws)).
    rewrite !rev_app_distr.
    destruct IH as (c & s & -> & Hc); [discriminate|].
    simpl. eexists; eexists; split; [reflexivity | exact Hc].
Qed.

Lemma strip_join (ws : list str) :
  Forall word ws -> strip (join (lit " ") ws) = join (lit " ") ws.
Proof.
  intros H. destruct ws as [|w ws]; [reflexivity|].
  unfold strip, rstrip.
  destruct (words_head (w :: ws) H) as (c & s & E & Hc); [discriminate|].
  rewrite (lstrip_keeps (join (lit " ") (w :: ws))) by (rewrite E; exact Hc).
  destruct (words_last (w :: ws) H) as (c' & s' & E' & Hc'); [discriminate|].
  rewrite lstrip_keeps by (rewrite E'; exact Hc').
  apply rev_involutive.
Qed.

Lemma clean_text_join (t : str) : clean_text t = join (lit " ") (split t).
Proof. unfold clean_text. apply strip_join, split_words. Qed.

Lemma split_from_nil (s : str) :
  forall acc, split_from acc s = [] -> acc = [] /\ forallb isspace s = true.
Proof.
  induction s as [|c s IH]; intros acc; simpl.
  - destruct acc; [tauto | discriminate].
  - destruct (isspace c).
    + destruct acc; [|discriminate]. intros H. apply IH in H. tauto.
    + intros H. apply IH in H. destruct H; discriminate.
Qed.

Lemma split_blank (s : str) : forallb isspace s = true -> split s = [].
Proof.
  unfold split. induction s as [|c s IH]; simpl; [reflexivity|].
  intros H. apply andb_true_iff in H. destruct H as [-> H]. apply IH, H.
Qed.

Lemma clean_text_again (t : str) : clean_text (clean_text t) = clean_text t.
Proof.
  rewrite (clean_text_join (clean_text t)), (clean_text_join t).
  rewrite split_join by apply split_words. reflexivity.
Qed.

Lemma neat_clean_text (t : str) :
  eqb (clean_text t) [] = false -> neat (clean_text t) = true.
Proof.
  intros H. unfold neat. rewrite H, clean_text_again, eqb_refl. reflexivity.
Qed.

(** ** [strip] twice, and the single word *)

Lemma lstrip_again (s : str) : lstrip (lstrip s) = lstrip s.
Proof.
  induction s as [|c s IH]; simpl; [reflexivity|].
  destruct (isspace c) eqn:E; [exact IH|]. simpl. rewrite E. reflexivity.
Qed.

Lemma lstrip_app (x y : str) :
  lstrip (x ++ y) = match lstrip x with [] => lstrip y | l => l ++ y end.
Proof.
  induction x as [|c x IH]; simpl; [reflexivity|].
  destruct (isspace c); [exact IH | reflexivity].
Qed.

Lemma rstrip_cons (c : char) (s : str) :
  rstrip (c :: s) = match rstrip s with
                    | [] => if isspace c then [] else [c]
                    | r => c :: r
                    end.
Proof.
  unfold rstrip. cbn [rev]. rewrite lstrip_app.
  destruct (lstrip (rev s)) as [|x l] eqn:E.
  - cbn [rev lstrip]. destruct (isspace c); reflexivity.
  - rewrite rev_app_distr. cbn [rev app].
    destruct (rev l ++ [x]) eqn:R; [|reflexivity].
    destruct (rev l); discriminate R.
Qed.

Lemma strip_commute (s : str) : lstrip (rstrip s) = rstrip (lstrip s).
Proof.
  induction s as [|c s IH]; [reflexivity|].
  rewrite rstrip_cons. cbn [lstrip].
  destruct (rstrip s) as [|x r] eqn:E.
  - destruct (isspace c) eqn:Ec.
    + rewrite <- IH. reflexivity.
    + cbn [lstrip]. rewrite Ec, rstrip_cons, E, Ec. reflexivity.
  - cbn [lstrip]. destruct (isspace c) eqn:Ec.
    + rewrite <- IH. reflexivity.
    + rewrite rstrip_cons, E. reflexivity.
Qed.

Lemma rstrip_again (s : str) : rstrip (rstrip s) = rstrip s.
Proof.
  unfold rstrip. rewrite rev_involutive, lstrip_again. reflexivity.
Qed.

Lemma strip_again (s : str) : strip (strip s) = strip s.
Proof.
  unfold strip. rewrite strip_commute, rstrip_again, lstrip_again.
  reflexivity.
Qed.

Lemma rstrip_word (w b : str) :
  word w -> forallb isspace b = true -> rstrip (w ++ b) = w.
Proof.
  intros W B. unfold rstrip. rewrite rev_app_distr, lstrip_app.
  rewrite lstrip_blank by (rewrite forallb_rev; exact B).
  destruct W as [N1 N2].
  destruct (word_head (rev w) (word_rev w N1 N2)) as (c & r & E & Hc).
  rewrite lstrip_keeps by (rewrite E; exact Hc).
  apply rev_involutive.
Qed.

Lemma strip_word (a w b : str) :
  forallb isspace a = true -> word w -> forallb isspace b = true ->
  strip (a ++ w ++ b) = w.
Proof.
  intros A W B. unfold strip. rewrite lstrip_app, (lstrip_blank a A).
  destruct (word_head w W) as (c & r & E & Hc).
  rewrite lstrip_keeps by (rewrite E; exact Hc).
  apply rstrip_word; assumption.
Qed.

(** A text with a single word is that word between two runs of
    whitespace. *)
Lemma split_from_single (s : str) (w : str) :
  forall acc,
    forallb nonspace acc = true ->
    split_from acc s = [w] ->
    match acc with
    | [] => exists a b, s = a ++ w ++ b /\ forallb isspace a = true /\
                        forallb isspace b = true
    | _ => exists u b, s = u ++ b /\ w = rev acc ++ u /\
                       forallb isspace b = true
    end.
Proof.
  induction s as [|c s IH]; intros acc Hacc H; cbn [split_from] in H.
  - destruct acc as [|x acc]; [discriminate|].
    injection H as <-. exists [], [].
    split; [reflexivity | split; [|reflexivity]].
    rewrite app_nil_r. reflexivity.
  - destruct (isspace c) eqn:Ec.
    + destruct acc as [|x acc].
      * destruct (IH [] eq_refl H) as (a & b & -> & A & B).
        exists (c :: a), b. cbn [forallb]. rewrite Ec, A. repeat split.
        exact B.
      * injection H as <- H. apply split_from_nil in H. destruct H as [_ H].
        exists [], (c :: s). rewrite app_nil_r. cbn [forallb].
        rewrite Ec, H. repeat split.
    + assert (Hacc' : forallb nonspace (c :: acc) = true).
      { cbn [forallb]. unfold nonspace at 1. rewrite Ec. exact Hacc. }
      destruct (IH (c :: acc) Hacc' H) as (u & b & -> & -> & B).
      destruct acc as [|x acc].
      * exists [], b. cbn [rev app]. repeat split. exact B.
      * exists (c :: u), b. cbn [rev]. rewrite <- !app_assoc.
        repeat split. exact B.
Qed.

Lemma split_single (s w : str) :
  strip s = s -> split s = [w] -> s = w.
Proof.
  intros S H.
  destruct (split_from_single s w [] eq_refl H) as (a & b & E & A & B).
  rewrite <- S, E. apply strip_word; try assumption.
  pose proof (split_words s) as W. rewrite H in W.
  inversion W; assumption.
Qed.

(** ** The word "cancel" *)

Lemma lower_app (a b : str) : lower (a ++ b) = lower a ++ lower b.
Proof. apply flat_map_app. Qed.

Lemma cancel_survives (c : str) :
  strip c = c ->
  eqb (lower c) (lit "cancel") = false ->
  eqb (lower (clean_text c)) (lit "cancel") = false.
Proof.
  intros S H. apply eqb_neq. intros E. apply eqb_neq in H. apply H.
  rewrite clean_text_join in E.
  destruct (split c) as [|w [|w' ws]] eqn:Sp.
  - discriminate E.
  - cbn [join] in E. rewrite (split_single c w S Sp). exact E.
  - exfalso.
    change (join (lit " ") (w :: w' :: ws))
      with (w ++ 32%N :: join (lit " ") (w' :: ws)) in E.
    rewrite lower_app in E.
    assert (I : In 32%N (lit "cancel")).
    { rewrite <- E. apply in_or_app. right. left. reflexivity. }
    simpl in I. intuition discriminate.
Qed.

Lemma accepted_clean_text (c : str) :
  strip c = c ->
  eqb (lower c) (lit "cancel") = false ->
  eqb (clean_text c) [] = false ->
  accepted (clean_text c) = true.
Proof.
  intros S H1 H2. unfold accepted.
  rewrite (neat_clean_text c H2), (cancel_survives c S H1). reflexivity.
Qed.

(** ** Text that survives the file: [strip] and [clean_text] keep it so *)

Lemma pair_free_app_inv (a b : str) :
  pair_free (a ++ b) -> pair_free a /\ pair_free b.
Proof.
  induction a as [|c a IH]; [intros H; split; [exact I | exact H]|].
  intros [H1 H2]. destruct (IH H2) as [Ha Hb]. split; [|exact Hb].
  split; [|exact Ha]. destruct a as [|c' a]; [exact I | exact H1].
Qed.

Lemma str_ok_app_inv (a b : str) : str_ok (a ++ b) -> str_ok a /\ str_ok b.
Proof.
  intros [F P]. apply Forall_app in F. apply pair_free_app_inv in P.
  unfold str_ok. tauto.
Qed.

Lemma pair_free_space (a b : str) :
  pair_free a -> pair_free b -> pair_free (a ++ 32%N :: b).
Proof.
  intros Ha Hb. induction a as [|c a IH].
  - split; [|exact Hb]. destruct b; [exact I | reflexivity].
  - destruct Ha as [H1 H2]. split; [|apply IH, H2].
    destruct a as [|c' a]; [apply andb_false_r | exact H1].
Qed.

Lemma str_ok_space (a b : str) :
  str_ok a -> str_ok b -> str_ok (a ++ 32%N :: b).
Proof.
  intros [Fa Pa] [Fb Pb]. split; [|apply pair_free_space; assumption].
  apply Forall_app. split; [exact Fa|].
  constructor; [reflexivity | exact Fb].
Qed.

Lemma str_ok_nil : str_ok [].
Proof. split; [constructor | exact I]. Qed.

Lemma str_ok_join (ws : list str) :
  Forall str_ok ws -> str_ok (join (lit " ") ws).
Proof.
  induction 1 as [|w ws Hw Hws IH]; [apply str_ok_nil|].
  destruct ws as [|w' ws]; [exact Hw|].
  change (join (lit " ") (w :: w' :: ws))
    with (w ++ 32%N :: join (lit " ") (w' :: ws)).
  apply str_ok_space; assumption.
Qed.

Lemma str_ok_split_from (s : str) :
  forall acc, str_ok (rev acc ++ s) -> Forall str_ok (split_from acc s).
Proof.
  induction s as [|c s IH]; intros acc H; cbn [split_from].
  - rewrite app_nil_r in H.
    destruct acc; constructor; [exact H | constructor].
  - destruct (isspace c).
    + destruct (str_ok_app_inv _ _ H) as [Ha Hs].
      destruct (str_ok_app_inv [c] s Hs) as [_ Hs'].
      destruct acc as [|a acc]; [apply IH, Hs'|].
      constructor; [exact Ha | apply IH, Hs'].
    + apply IH. cbn [rev]. rewrite <- app_assoc. exact H.
Qed.

Lemma str_ok_lstrip (s : str) : str_ok s -> str_ok (lstrip s).
Proof.
  intros H. destruct (lstrip_suffix s) as [b E]. rewrite E in H.
  apply (str_ok_app_inv _ _ H).
Qed.

Lemma str_ok_strip (s : str) : str_ok s -> str_ok (strip s).
Proof.
  intros H. apply str_ok_lstrip in H. unfold strip, rstrip.
  destruct (lstrip_suffix (rev (lstrip s))) as [b E].
  assert (E' : lstrip s = rev (lstrip (rev (lstrip s))) ++ rev b).
  { rewrite <- rev_app_distr, <- E, rev_involutive. reflexivity. }
  rewrite E' in H. apply (str_ok_app_inv _ _ H).
Qed.

Lemma str_ok_clean_text (s : str) : str_ok s -> str_ok (clean_text s).
Proof.
  intros H. rewrite clean_text_join. apply str_ok_join.
  apply str_ok_split_from. exact H.
Qed.

Lemma str_ok_other (label : str) :
  str_ok label -> str_ok (lit "Other: " ++ label).
Proof.
  intros H.
  change (lit "Other: " ++ label) with (lit "Other:" ++ 32%N :: label).
  apply str_ok_space; [|exact H].
  split; [repeat (apply Forall_cons; [reflexivity|]); apply Forall_nil|].
  cbn. repeat split.
Qed.

Lemma typed_str_ok (lines : list str) (c : str) :
  Forall str_ok lines -> typed lines c -> str_ok (clean_text c).
Proof.
  intros H (line & I & ->). rewrite Forall_forall in H.
  apply str_ok_clean_text, str_ok_strip, H, I.
Qed.

Lemma chosen_str_ok (lines : list str) (o : str) :
  Forall str_ok lines -> chosen lines o -> str_ok o.
Proof.
  intros H [->|[->|(label & T & ->)]].
  - split; [repeat (apply Forall_cons; [reflexivity|]); apply Forall_nil|].
    cbn. repeat split.
  - split; [repeat (apply Forall_cons; [reflexivity|]); apply Forall_nil|].
    cbn. repeat split.
  - apply str_ok_other. eapply typed_str_ok; eassumption.
Qed.

End Helpers.

(* ================================================================== *)
(** * What a whole run may do *)
(* ================================================================== *)

Module Closure.
Import Str Py Run Gift Spec Menu Nav Whole.
Import StrFacts DictFacts TextFacts Ops Screens Helpers.

(** ** Running the menus step by step *)

Lemma and_then_print {B} (s : str) (k : unit -> Flow B) (w : world) :
  and_then (lift (print s)) k w
  = k tt (World (data w) (disk w) (writes w) (stdin w) (s :: stdout w)).
Proof. reflexivity. Qed.

Lemma and_then_get_data {B} (k : dict -> Flow B) (w : world) :
  and_then (lift get_data) k w = k (data w) w.
Proof. reflexivity. Qed.

Lemma and_then_get_input {B} (p : str) (k : str -> Flow B) d f n line rest out :
  and_then (lift (get_input p)) k (World d f n (line :: rest) out)
  = k (strip line) (World d f n rest (p :: out)).
Proof. reflexivity. Qed.

Lemma lift_bind {A B} (m : M A) (k : A -> M B) (w : world) :
  lift (bind m k) w = and_then (lift m) (fun a => lift (k a)) w.
Proof.
  unfold lift, and_then, bind. destruct (m w) as [[a|e] w1]; reflexivity.
Qed.

(** ** What [get_input] and [choose_occasion] return *)

Lemma get_input_stripped (p : str) (w : world) (c : str) :
  fst (get_input p w) = Return c -> strip c = c.
Proof.
  unfold get_input, bind, input. destruct (stdin w); [discriminate|].
  intros [= <-]. apply strip_again.
Qed.


Lemma choose_occasion_form (w : world) (o : str) :
  fst (choose_occasion w) = Return (Some o) -> occasion_form o.
Proof.
  destruct w as [d f n i out]. unfold choose_occasion. do 5 step.
  destruct i as [|c rest]; [discriminate|]. step.
  destruct (is_number (strip c)); cbn [negb]; [|discriminate].
  unfold bind at 1, int. destruct (to_int (strip c)) as [z|]; [|discriminate].
  unfold ret at 1. cbv beta iota.
  destruct (Z.eqb z 0); [discriminate|].
  destruct (Z.eqb z 1); [intros [= <-]; left; reflexivity|].
  destruct (Z.eqb z 2); [intros [= <-]; right; left; reflexivity|].
  destruct (Z.eqb z 3); [|discriminate].
  destruct rest as [|label rest]; [discriminate|]. step.
  destruct (eqb (clean_text (strip label)) []) eqn:E; [discriminate|].
  intros [= <-]. right; right. eexists. split; [reflexivity|].
  apply neat_clean_text, E.
Qed.

(** ** Relations that every step of the program keeps *)

Section Relation.
Variable R : world -> world -> Prop.
Hypothesis R_refl : forall w, R w w.
Hypothesis R_trans : forall a b c, R a b -> R b c -> R a c.
Hypothesis R_print : forall s, always R (print s).
Hypothesis R_input : forall p, always R (input p).
Hypothesis R_recipient :
  forall name, accepted name = true -> always R (add_recipient_to_data name).
Hypothesis R_gift :
  forall r g o, accepted g = true -> occasion_form o ->
    always R (add_gift_to_recipient r g o).

Lemma kept_get_input (p : str) : always R (get_input p).
Proof.
  apply (always_bind R R_trans); [apply R_input | intros line w; apply R_refl].
Qed.

Lemma always_bind_result {A B} (m : M A) (k : A -> M B) :
  always R m ->
  (forall a, (exists w, fst (m w) = Return a) -> always R (k a)) ->
  always R (bind m k).
Proof.
  intros Hm Hk w. unfold bind. specialize (Hm w).
  destruct (m w) as [[a|e] w1] eqn:E; simpl in *; [|exact Hm].
  eapply R_trans; [exact Hm|]. apply Hk. exists w. rewrite E. reflexivity.
Qed.

Local Ltac walk :=
  repeat match goal with
    | |- always R (bind (print _) _) =>
        apply (always_bind R R_trans); [apply R_print | intros _]
    | |- always R (bind (get_input _) _) =>
        apply always_bind_result;
          [apply kept_get_input
          | intros ? [? ?];
            match goal with
            | H : fst (get_input _ _) = Return _ |- _ =>
                apply get_input_stripped in H
            end]
    | |- always R (bind (int _) _) =>
        apply (always_bind R R_trans); [apply (always_int R R_refl) | intros ?]
    | |- always R (print _) => apply R_print
    | |- always R (ret _) => apply (always_ret R R_refl)
    | |- always R (if ?b then _ else _) => destruct b eqn:?
    | |- always R (match ?b with Some _ => _ | None => _ end) => destruct b
    | |- always R (let x := _ in _) => cbv zeta
    end.

Local Ltac acceptance :=
  match goal with
  | |- accepted (clean_text ?t) = true =>
      apply accepted_clean_text; assumption
  end.

Lemma kept_choose_occasion : always R choose_occasion.
Proof. unfold choose_occasion. walk. Qed.

Lemma kept_add_gift_screen (r : str) : always R (add_gift_screen r).
Proof.
  unfold add_gift_screen. walk.
  apply always_bind_result; [apply kept_choose_occasion | intros occ [w Hw]].
  destruct occ as [occ|]; walk.
  apply (always_bind R R_trans); [|intros _; walk].
  apply R_gift; [acceptance | exact (choose_occasion_form w occ Hw)].
Qed.

Lemma kept_add_recipient_screen : always R add_recipient_screen.
Proof.
  unfold add_recipient_screen. walk.
  apply (always_bind R R_trans);
    [apply R_recipient; acceptance | intros added].
  apply (always_bind R R_trans); [destruct added; apply R_print | intros _].
  walk. apply kept_add_gift_screen.
Qed.

Lemma always_n_finish {A} (a : A) : always_n R (finish a).
Proof. intros w; apply R_refl. Qed.

Lemma always_n_fail {A} (f : fault) : always_n R (@fail A f).
Proof. intros w; apply R_refl. Qed.

Lemma always_n_unfinished {A} : always_n R (@unfinished A).
Proof. intros w; apply R_refl. Qed.

Lemma always_n_and_then {A B} (n : Flow A) (k : A -> Flow B) :
  always_n R n -> (forall a, always_n R (k a)) -> always_n R (and_then n k).
Proof.
  intros Hn Hk w. unfold and_then. specialize (Hn w).
  destruct (n w) as [[a|f|] w1]; simpl in *; try exact Hn.
  eapply R_trans; [exact Hn | apply Hk].
Qed.

Lemma always_n_lift {A} (m : M A) : always R m -> always_n R (lift m).
Proof.
  intros Hm w. unfold lift. specialize (Hm w).
  destruct (m w) as [[a|e] w1]; exact Hm.
Qed.

Variable show : value -> str.

Local Ltac stroll :=
  repeat match goal with
    | |- always_n R (and_then (lift (print _)) _) =>
        apply always_n_and_then; [apply always_n_lift, R_print | intros _]
    | |- always_n R (and_then (lift (get_input _)) _) =>
        apply always_n_and_then;
          [apply always_n_lift, kept_get_input | intros ?]
    | |- always_n R (and_then (lift (int _)) _) =>
        apply always_n_and_then;
          [apply always_n_lift, (always_int R R_refl) | intros ?]
    | |- always_n R (and_then (lift get_data) _) =>
        apply always_n_and_then;
          [apply always_n_lift; intros ?; apply R_refl | intros ?]
    | |- always_n R (and_then (lift add_recipient_screen) _) =>
        apply always_n_and_then;
          [apply always_n_lift, kept_add_recipient_screen | intros _]
    | |- always_n R (lift (print _)) => apply always_n_lift, R_print
    | |- always_n R (lift add_recipient_screen) =>
        apply always_n_lift, kept_add_recipient_screen
    | |- always_n R (lift (add_gift_screen _)) =>
        apply always_n_lift, kept_add_gift_screen
    | |- always_n R (finish _) => apply always_n_finish
    | |- always_n R (fail _) => apply always_n_fail
    | |- always_n R unfinished => apply always_n_unfinished
    | |- always_n R (if ?b then _ else _) => destruct b
    | |- always_n R (match ?b with Some _ => _ | None => _ end) => destruct b
    | |- always_n R (let x := _ in _) => cbv zeta
    end.

Lemma kept_print_recipients (l : list str) :
  forall i, always_n R (print_recipients i l).
Proof.
  induction l as [|name l IH]; intros i; simpl; stroll. apply IH.
Qed.

Lemma kept_subscript (v : value) (key : str) : always_n R (subscript v key).
Proof. unfold subscript. destruct v; stroll. Qed.

Lemma kept_print_gifts (l : list value) : always_n R (print_gifts show l).
Proof.
  induction l as [|gift l IH]; simpl; stroll.
  apply always_n_and_then; [apply kept_subscript | intros idea].
  apply always_n_and_then; [apply kept_subscript | intros occasion].
  stroll. apply IH.
Qed.

Lemma kept_len (v : value) : always_n R (len v).
Proof. destruct v; simpl; stroll. Qed.

Lemma kept_iterate (v : value) : always_n R (iterate v).
Proof. destruct v; simpl; stroll. Qed.

Lemma kept_navigation (budget : nat) :
  always_n R (recipients_screen show budget) /\
  forall r, always_n R (gift_list_screen show budget r).
Proof.
  induction budget as [|b [IHr IHg]]; (split; [|intros r]);
    try apply always_n_unfinished.
  - cbn [recipients_screen]. stroll.
    + apply always_n_and_then; [apply kept_print_recipients | intros _].
      stroll. apply IHg.
  - cbn [gift_list_screen]. stroll.
    apply always_n_and_then; [apply kept_len | intros count].
    apply always_n_and_then.
    + stroll.
      apply always_n_and_then; [apply kept_iterate | intros items].
      apply always_n_and_then; [apply kept_print_gifts | intros _]. stroll.
    + intros _. stroll. apply IHr.
Qed.

Lemma kept_main_menu (budget : nat) : always_n R (main_menu show budget).
Proof.
  unfold main_menu. stroll.
  apply always_n_and_then; [apply kept_navigation | intros _]. stroll.
Qed.

Lemma kept_main_loop (budget : nat) : always_n R (main_loop show budget).
Proof.
  induction budget as [|b IH]; simpl; [apply always_n_unfinished|].
  apply always_n_and_then; [apply kept_main_menu | intros running].
  destruct running; [apply IH | apply always_n_finish].
Qed.

End Relation.

End Closure.

(* ================================================================== *)
(** * Instances: what is kept, what is on disk, how the console moves *)
(* ================================================================== *)

Module Kept.
Import Str Py Run Gift Spec Menu Nav Whole.
Import StrFacts DictFacts TextFacts Ops Screens Helpers Closure.

Lemma grows_refl (v : value) : grows v v.
Proof. left; reflexivity. Qed.

Lemma grows_trans (a b c : value) : grows a b -> grows b c -> grows a c.
Proof.
  intros [->|(g1 & m1 & -> & ->)] H; [exact H|].
  destruct H as [->|(g2 & m2 & E & ->)].
  - right; exists g1, m1; split; reflexivity.
  - injection E as <-. right; exists g1, (m1 ++ m2).
    rewrite app_assoc. split; reflexivity.
Qed.

Lemma extends_refl (d : dict) : extends d d.
Proof.
  split.
  - exists []. rewrite app_nil_r. reflexivity.
  - intros k v H. exists v. split; [exact H | apply grows_refl].
Qed.

Lemma extends_trans (a b c : dict) : extends a b -> extends b c -> extends a c.
Proof.
  intros [[m1 K1] G1] [[m2 K2] G2]. split.
  - exists (m1 ++ m2). rewrite K2, K1, app_assoc. reflexivity.
  - intros k v H. destruct (G1 k v H) as (v1 & H1 & g1).
    destruct (G2 k v1 H1) as (v2 & H2 & g2).
    exists v2. split; [exact H2 | eapply grows_trans; eassumption].
Qed.

Lemma getitem_app_old (k : str) (v : value) (d more : dict) :
  getitem k d = Some v -> getitem k (d ++ more) = Some v.
Proof.
  induction d as [|[k' v'] d IH]; simpl; [discriminate|].
  destruct (eqb k' k); [trivial | exact IH].
Qed.

Lemma extends_new (d : dict) (name : str) (v : value) :
  extends d (d ++ [(name, v)]).
Proof.
  split.
  - exists [name]. unfold keys. rewrite map_app. reflexivity.
  - intros k x H. exists x. split; [|apply grows_refl].
    apply getitem_app_old; exact H.
Qed.

Lemma extends_append (d : dict) (r : str) (gifts more : list value) :
  getitem r d = Some (VList gifts) ->
  extends d (setitem r (VList (gifts ++ more)) d).
Proof.
  intros H. split.
  - exists []. rewrite app_nil_r. apply keys_setitem_old.
    eapply getitem_Some_In; exact H.
  - intros k v Hk.
    destruct (list_eq_dec N.eq_dec k r) as [->|Hne].
    + rewrite getitem_setitem_same. eexists; split; [reflexivity|].
      rewrite H in Hk. injection Hk as <-.
      right; exists gifts, more; split; reflexivity.
    + rewrite getitem_setitem_other by exact Hne.
      exists v; split; [exact Hk | apply grows_refl].
Qed.

(** ** Nothing is removed or changed *)

Lemma kept_refl (w : world) : kept w w.
Proof. apply extends_refl. Qed.

Lemma kept_trans (a b c : world) : kept a b -> kept b c -> kept a c.
Proof. apply extends_trans. Qed.

Lemma kept_print (s : str) : always kept (print s).
Proof. intros w; apply extends_refl. Qed.

Lemma kept_input (p : str) : always kept (input p).
Proof. intros w; unfold input; destruct (stdin w); apply extends_refl. Qed.

Lemma kept_add_recipient (name : str) :
  always kept (add_recipient_to_data name).
Proof.
  intros w.
  destruct (in_dec (list_eq_dec N.eq_dec) name (keys (data w))) as [I|I].
  - rewrite (add_recipient_old w name I). apply extends_refl.
  - rewrite (add_recipient_new w name I). apply extends_new.
Qed.

Lemma add_gift_cases (r g o : str) (w : world) :
  (exists gifts, getitem r (data w) = Some (VList gifts) /\
     add_gift_to_recipient r g o w
     = (Return tt,
        let d' := setitem r (VList (gifts ++ [gift_obj g o])) (data w) in
        World d' (Some (saved d')) (S (writes w)) (stdin w) (stdout w))) \/
  (exists e, add_gift_to_recipient r g o w = (Raise e, w) /\
     (e = KeyError \/ e = AttributeError) /\
     forall gifts, getitem r (data w) <> Some (VList gifts)).
Proof.
  destruct (getitem r (data w)) as [v|] eqn:E.
  - destruct v;
      try (right; exists AttributeError;
           unfold add_gift_to_recipient, bind, get_data; rewrite E;
           split; [reflexivity | split; [tauto | discriminate]]).
    left. exists items. split; [reflexivity|].
    apply (add_gift_run w r g o items E).
  - right; exists KeyError.
    unfold add_gift_to_recipient, bind, get_data; rewrite E.
    split; [reflexivity | split; [tauto | discriminate]].
Qed.

Lemma kept_add_gift (r g o : str) :
  always kept (add_gift_to_recipient r g o).
Proof.
  intros w.
  destruct (add_gift_cases r g o w) as [(gifts & E & ->)|(e & -> & _)].
  - apply extends_append; exact E.
  - apply extends_refl.
Qed.

(** ** The file follows the document *)

Lemma in_step_refl (w : world) : in_step w w.
Proof. left; apply same_store_refl. Qed.

Lemma in_step_trans (a b c : world) :
  in_step a b -> in_step b c -> in_step a c.
Proof.
  unfold in_step, same_store.
  intros [(D1 & F1 & W1)|(F1 & W1)] [(D2 & F2 & W2)|(F2 & W2)].
  - left; repeat split; congruence.
  - right; split; [exact F2 | lia].
  - right; split; [congruence | lia].
  - right; split; [exact F2 | lia].
Qed.

Lemma in_step_print (s : str) : always in_step (print s).
Proof. intros w; left; repeat split. Qed.

Lemma in_step_input (p : str) : always in_step (input p).
Proof.
  intros w; unfold input; destruct (stdin w); left; repeat split.
Qed.

Lemma in_step_add_recipient (name : str) :
  always in_step (add_recipient_to_data name).
Proof.
  intros w.
  destruct (in_dec (list_eq_dec N.eq_dec) name (keys (data w))) as [I|I].
  - rewrite (add_recipient_old w name I). apply in_step_refl.
  - rewrite (add_recipient_new w name I). right; simpl.
    split; [reflexivity | lia].
Qed.

Lemma in_step_add_gift (r g o : str) :
  always in_step (add_gift_to_recipient r g o).
Proof.
  intros w.
  destruct (add_gift_cases r g o w) as [(gifts & E & ->)|(e & -> & _)].
  - right; simpl. split; [reflexivity | lia].
  - apply in_step_refl.
Qed.

(** ** The console moves forward *)

Lemma forward_refl (w : world) : forward w w.
Proof. split; exists []; reflexivity. Qed.

Lemma forward_trans (a b c : world) :
  forward a b -> forward b c -> forward a c.
Proof.
  intros [[r1 I1] [p1 O1]] [[r2 I2] [p2 O2]]. split.
  - exists (r1 ++ r2). rewrite I1, I2, app_assoc. reflexivity.
  - exists (p2 ++ p1). rewrite O2, O1, app_assoc. reflexivity.
Qed.

Lemma forward_print (s : str) : always forward (print s).
Proof. intros w; split; [exists [] | exists [s]]; reflexivity. Qed.

Lemma forward_input (p : str) : always forward (input p).
Proof.
  intros w; unfold input, forward.
  destruct (stdin w) as [|line rest] eqn:E; simpl; rewrite ?E.
  - split; [exists [] | exists [p]]; reflexivity.
  - split; [exists [line] | exists [p]]; reflexivity.
Qed.

Lemma forward_add_recipient (name : str) :
  always forward (add_recipient_to_data name).
Proof.
  intros w.
  destruct (in_dec (list_eq_dec N.eq_dec) name (keys (data w))) as [I|I].
  - rewrite (add_recipient_old w name I). apply forward_refl.
  - rewrite (add_recipient_new w name I). split; exists []; reflexivity.
Qed.

Lemma forward_add_gift (r g o : str) :
  always forward (add_gift_to_recipient r g o).
Proof.
  intros w.
  destruct (add_gift_cases r g o w) as [(gifts & E & ->)|(e & -> & _)].
  - split; exists []; reflexivity.
  - apply forward_refl.
Qed.

Lemma forward_length (w w' : world) :
  forward w w' -> (length (stdin w') <= length (stdin w))%nat.
Proof. intros [[r E] _]. rewrite E, length_app. lia. Qed.

(** ** Shaped documents *)

Lemma shaped_lookup (d : dict) (r : str) :
  shaped d = true -> In r (keys d) ->
  exists gifts,
    getitem r d = Some (VList gifts) /\ forallb is_record gifts = true.
Proof.
  intros S I. induction d as [|[k v] d IH]; simpl in *; [tauto|].
  apply andb_true_iff in S. destruct S as [Sv Sd].
  destruct (eqb k r) eqn:E.
  - destruct v; try discriminate Sv. exists items.
    split; [reflexivity | exact Sv].
  - apply eqb_neq in E. destruct I as [I|I]; [congruence|].
    apply IH; assumption.
Qed.

Lemma shaped_new (d : dict) (name : str) :
  shaped d = true -> shaped (d ++ [(name, VList [])]) = true.
Proof.
  intros S. unfold shaped. rewrite forallb_app, andb_true_iff.
  split; [exact S | reflexivity].
Qed.

Lemma shaped_setitem (d : dict) (r : str) (v : value) :
  shaped d = true -> is_gift_list v = true -> shaped (setitem r v d) = true.
Proof.
  intros S V. induction d as [|[k x] d IH]; simpl in *.
  - rewrite V; reflexivity.
  - apply andb_true_iff in S. destruct S as [Sx Sd].
    destruct (eqb k r); simpl.
    + rewrite V, Sd. reflexivity.
    + rewrite Sx, IH by exact Sd. reflexivity.
Qed.

(** ** A shaped document stays shaped *)

Lemma tidy_refl (w : world) : tidy w w.
Proof. intros H; exact H. Qed.

Lemma tidy_trans (a b c : world) : tidy a b -> tidy b c -> tidy a c.
Proof. unfold tidy; auto. Qed.

Lemma tidy_print (s : str) : always tidy (print s).
Proof. intros w H; exact H. Qed.

Lemma tidy_input (p : str) : always tidy (input p).
Proof. intros w; unfold input; destruct (stdin w); intros H; exact H. Qed.

Lemma tidy_add_recipient (name : str) :
  always tidy (add_recipient_to_data name).
Proof.
  intros w.
  destruct (in_dec (list_eq_dec N.eq_dec) name (keys (data w))) as [I|I].
  - rewrite (add_recipient_old w name I). apply tidy_refl.
  - rewrite (add_recipient_new w name I). intros S. apply shaped_new, S.
Qed.

Lemma tidy_add_gift (r g o : str) :
  always tidy (add_gift_to_recipient r g o).
Proof.
  intros w.
  destruct (add_gift_cases r g o w) as [(gifts & E & ->)|(e & -> & _)].
  - intros S. cbn [snd data]. apply shaped_setitem; [exact S|].
    destruct (shaped_lookup (data w) r S) as (gifts' & E' & G).
    { eapply getitem_Some_In; exact E. }
    rewrite E in E'. injection E' as <-.
    simpl. rewrite forallb_app, G. reflexivity.
  - apply tidy_refl.
Qed.

Lemma document_shaped (d : dict) : document d -> shaped d = true.
Proof.
  intros [_ H]. unfold shaped. apply forallb_forall. intros e I.
  rewrite Forall_forall in H. destruct (H e I) as (_ & gifts & -> & G).
  simpl. apply forallb_forall. intros v Iv.
  rewrite Forall_forall in G. destruct (G v Iv) as (idea & occ & -> & _).
  reflexivity.
Qed.

(** ** Documents that survive the file *)

Lemma document_new (d : dict) (name : str) :
  document d -> str_ok name -> ~ In name (keys d) ->
  document (d ++ [(name, VList [])]).
Proof.
  intros [N F] Hn I. split.
  - unfold keys. rewrite map_app.
    apply (Permutation_NoDup (Permutation_cons_append (map fst d) name)).
    constructor; assumption.
  - apply Forall_app. split; [exact F|].
    constructor; [|constructor]. split; [exact Hn|].
    exists []. split; [reflexivity | constructor].
Qed.

Lemma document_append (d : dict) (r g o : str) (gifts : list value) :
  document d -> getitem r d = Some (VList gifts) ->
  str_ok g -> str_ok o ->
  document (setitem r (VList (gifts ++ [gift_obj g o])) d).
Proof.
  intros [N F] E Hg Ho. split; [apply NoDup_keys_setitem, N|].
  clear N. induction d as [|[k v] d IH]; simpl in *; [discriminate|].
  inversion F as [|? ? [Hk (old & Hv & Hold)] Hd]; subst.
  destruct (eqb k r) eqn:K.
  - constructor; [|exact Hd]. split; [exact Hk|].
    injection E as ->. simpl in Hv. injection Hv as <-.
    eexists. split; [reflexivity|].
    apply Forall_app. split; [exact Hold|].
    constructor; [|constructor].
    exists g, o. split; [reflexivity | split; assumption].
  - constructor; [|apply IH; assumption].
    split; [exact Hk | exists old; split; [exact Hv | exact Hold]].
Qed.

(** ** A neat document stays neat *)









End Kept.

(* ================================================================== *)
(** * Reasoning with assertions *)
(* ================================================================== *)

Module Triples.
Import Str Py Run Gift Spec Menu Nav Whole.
Import StrFacts DictFacts TextFacts Ops Screens Closure.

Section Rules.
Variable fails : fault -> world -> Prop.
Variable stuck : world -> Prop.

Lemma hoare_finish {A} (P : world -> Prop) (a : A) (Q : A -> world -> Prop) :
  (forall w, P w -> Q a w) -> hoare fails stuck P (finish a) Q.
Proof. intros H w Hw. apply H, Hw. Qed.

Lemma hoare_fail {A} (P : world -> Prop) (f : fault) (Q : A -> world -> Prop) :
  (forall w, P w -> fails f w) -> hoare fails stuck P (fail f) Q.
Proof. intros H w Hw. apply H, Hw. Qed.

Lemma hoare_unfinished {A} (P : world -> Prop) (Q : A -> world -> Prop) :
  (forall w, P w -> stuck w) -> hoare fails stuck P unfinished Q.
Proof. intros H w Hw. apply H, Hw. Qed.

Lemma hoare_and_then {A B} (P : world -> Prop) (n : Flow A)
      (Q1 : A -> world -> Prop) (k : A -> Flow B) (Q : B -> world -> Prop) :
  hoare fails stuck P n Q1 ->
  (forall a, hoare fails stuck (Q1 a) (k a) Q) ->
  hoare fails stuck P (and_then n k) Q.
Proof.
  intros Hn Hk w Hw. unfold and_then. specialize (Hn w Hw).
  destruct (n w) as [[a|f|] w1]; try exact Hn.
  apply (Hk a w1 Hn).
Qed.

Lemma hoare_post {A} (P : world -> Prop) (n : Flow A)
      (Q Q' : A -> world -> Prop) :
  hoare fails stuck P n Q -> (forall a w, Q a w -> Q' a w) ->
  hoare fails stuck P n Q'.
Proof.
  intros Hn H w Hw. specialize (Hn w Hw).
  destruct (n w) as [[a|f|] w1]; try exact Hn. apply H, Hn.
Qed.

Lemma hoare_pre {A} (P P' : world -> Prop) (n : Flow A)
      (Q : A -> world -> Prop) :
  hoare fails stuck P n Q -> (forall w, P' w -> P w) ->
  hoare fails stuck P' n Q.
Proof. intros Hn H w Hw. apply Hn, H, Hw. Qed.

Lemma hoare_assume {A} (P : world -> Prop) (F : Prop) (n : Flow A)
      (Q : A -> world -> Prop) :
  (F -> hoare fails stuck P n Q) ->
  hoare fails stuck (fun w => P w /\ F) n Q.
Proof. intros H w [Hw HF]. apply (H HF w Hw). Qed.

Lemma hoare_ret {A} (P : world -> Prop) (a : A) (Q : A -> world -> Prop) :
  (forall w, P w -> Q a w) -> hoare fails stuck P (lift (ret a)) Q.
Proof. intros H w Hw. apply H, Hw. Qed.

Lemma hoare_get_data (P : world -> Prop) (Q : dict -> world -> Prop) :
  (forall w, P w -> Q (data w) w) -> hoare fails stuck P (lift get_data) Q.
Proof. intros H w Hw. apply H, Hw. Qed.

Lemma hoare_print (P : world -> Prop) (s : str) (Q : unit -> world -> Prop) :
  (forall w, P w ->
     Q tt (World (data w) (disk w) (writes w) (stdin w) (s :: stdout w))) ->
  hoare fails stuck P (lift (print s)) Q.
Proof. intros H w Hw. apply H, Hw. Qed.

Lemma hoare_get_input (P : world -> Prop) (p : str)
      (Q : str -> world -> Prop) :
  (forall w, P w -> stdin w = [] ->
     fails (Exn EOFError)
           (World (data w) (disk w) (writes w) [] (p :: stdout w))) ->
  (forall w line rest, P w -> stdin w = line :: rest ->
     Q (strip line)
       (World (data w) (disk w) (writes w) rest (p :: stdout w))) ->
  hoare fails stuck P (lift (get_input p)) Q.
Proof.
  intros He H w Hw. unfold lift, get_input, bind, input.
  destruct (stdin w) as [|line rest] eqn:E; simpl;
    [apply He | apply H]; assumption.
Qed.

Lemma hoare_int (P : world -> Prop) (s : str) (Q : Z -> world -> Prop) :
  (forall w, to_int s = None -> P w -> fails (Exn ValueError) w) ->
  (forall z w, to_int s = Some z -> P w -> Q z w) ->
  hoare fails stuck P (lift (int s)) Q.
Proof.
  intros He H w Hw. unfold lift, int.
  destruct (to_int s) as [z|]; simpl; [apply H; trivial | apply He; trivial].
Qed.

(** A computation of [Run] that keeps a relation keeps every assertion
    which that relation carries along, if its exceptions are expected. *)
Lemma hoare_always {A} (R : world -> world -> Prop) (P P' : world -> Prop)
      (m : M A) :
  always R m ->
  (forall w w', P w -> R w w' -> P' w') ->
  (forall w e, P w -> fst (m w) = Raise e -> fails (Exn e) (snd (m w))) ->
  hoare fails stuck P (lift m) (fun _ => P').
Proof.
  intros Hm H He w Hw. unfold lift.
  specialize (Hm w). specialize (He w).
  destruct (m w) as [[a|e] w1]; simpl in *.
  - apply (H w w1 Hw Hm).
  - apply (He e Hw eq_refl).
Qed.

End Rules.

End Triples.

(* ================================================================== *)
(** * The budget is never the reason a run stops *)
(* ================================================================== *)

Module Budget.
Import Str Py Run Gift Spec Menu Nav Whole.
Import StrFacts DictFacts TextFacts Ops Screens Closure Kept Triples.

Lemma forward_add_recipient_screen : always forward add_recipient_screen.
Proof.
  exact (kept_add_recipient_screen forward forward_refl forward_trans
           forward_print forward_input
           (fun name _ => forward_add_recipient name)
           (fun r g o _ _ => forward_add_gift r g o)).
Qed.

Lemma forward_add_gift_screen (r : str) : always forward (add_gift_screen r).
Proof.
  exact (kept_add_gift_screen forward forward_refl forward_trans
           forward_print forward_input
           (fun r g o _ _ => forward_add_gift r g o) r).
Qed.

Lemma paced_forward {A} (m : M A) (n : nat) :
  always forward m -> hoare any never (short n) (lift m) (fun _ => short n).
Proof.
  intros H.
  apply (hoare_always any never forward);
    [exact H | | exact (fun _ _ _ _ => I)].
  intros w w' Hw F. apply forward_length in F. unfold short in *. lia.
Qed.

Lemma paced_print (s : str) (n : nat) :
  hoare any never (short n) (lift (print s)) (fun _ => short n).
Proof. apply hoare_print. intros w H; exact H. Qed.

Lemma paced_get_input (p : str) (n : nat) :
  hoare any never (short (S n)) (lift (get_input p)) (fun _ => short n).
Proof.
  apply hoare_get_input; [intros; exact I|].
  intros w line rest H E. unfold short in *. rewrite E in H. simpl in *. lia.
Qed.

Lemma paced_int (s : str) (n : nat) :
  hoare any never (short n) (lift (int s)) (fun _ => short n).
Proof. apply hoare_int; [intros; exact I | intros z w _ H; exact H]. Qed.

Ltac pace :=
  repeat match goal with
    | |- hoare _ _ (short ?n) (and_then (lift (print _)) _) _ =>
        apply hoare_and_then with (Q1 := fun _ => short n);
          [apply paced_print | intros _]
    | |- hoare _ _ (short ?n) (and_then (lift get_data) _) _ =>
        apply hoare_and_then with (Q1 := fun _ => short n);
          [apply hoare_get_data; intros ? ?; assumption | intros ?]
    | |- hoare _ _ (short (S ?n)) (and_then (lift (get_input _)) _) _ =>
        apply hoare_and_then with (Q1 := fun _ => short n);
          [apply paced_get_input | intros ?]
    | |- hoare _ _ (short ?n) (and_then (lift (int _)) _) _ =>
        apply hoare_and_then with (Q1 := fun _ => short n);
          [apply paced_int | intros ?]
    | |- hoare _ _ (short ?n) (and_then (lift add_recipient_screen) _) _ =>
        apply hoare_and_then with (Q1 := fun _ => short n);
          [apply paced_forward, forward_add_recipient_screen | intros _]
    | |- hoare _ _ (short ?n) (lift (print _)) _ => apply paced_print
    | |- hoare _ _ (short ?n) (lift add_recipient_screen) _ =>
        apply paced_forward, forward_add_recipient_screen
    | |- hoare _ _ (short ?n) (lift (add_gift_screen _)) _ =>
        apply paced_forward, forward_add_gift_screen
    | |- hoare _ _ _ (finish _) _ => apply hoare_finish; intros ? ?; assumption
    | |- hoare _ _ _ (fail _) _ => apply hoare_fail; intros; exact I
    | |- hoare _ _ _ (if ?b then _ else _) _ => destruct b
    | |- hoare _ _ _ (let x := _ in _) _ => cbv zeta
    end.

Section Display.
Variable show : value -> str.

Lemma paced_print_recipients (n : nat) (l : list str) :
  forall i, hoare any never (short n) (print_recipients i l) (fun _ => short n).
Proof.
  induction l as [|name l IH]; intros i; simpl; pace. apply IH.
Qed.

Lemma paced_subscript (n : nat) (v : value) (key : str) :
  hoare any never (short n) (subscript v key) (fun _ => short n).
Proof.
  unfold subscript. destruct v; pace.
  destruct (getitem key entries); pace.
Qed.

Lemma paced_print_gifts (n : nat) (l : list value) :
  hoare any never (short n) (print_gifts show l) (fun _ => short n).
Proof.
  induction l as [|gift l IH]; simpl; pace.
  apply hoare_and_then with (Q1 := fun _ => short n);
    [apply paced_subscript | intros idea].
  apply hoare_and_then with (Q1 := fun _ => short n);
    [apply paced_subscript | intros occasion].
  pace. apply IH.
Qed.

Lemma paced_len (n : nat) (v : value) :
  hoare any never (short n) (len v) (fun _ => short n).
Proof. destruct v; simpl; pace. Qed.

Lemma paced_iterate (n : nat) (v : value) :
  hoare any never (short n) (iterate v) (fun _ => short n).
Proof. destruct v; simpl; pace. Qed.

(** Each screen reads a line before it opens another one: a budget above
    the number of lines left is never used up, and a screen that finishes
    has read at least one line. *)
Lemma paced_navigation (budget : nat) :
  forall n, (n <= budget)%nat ->
    hoare any never (short (S n)) (recipients_screen show (S budget))
          (fun _ => short n) /\
    forall r, hoare any never (short (S n)) (gift_list_screen show (S budget) r)
                    (fun _ => short n).
Proof.
  induction budget as [|b IH]; intros n Hn.
  - assert (n = 0)%nat as -> by lia. split; [|intros r].
    + cbn [recipients_screen]. pace.
      * apply hoare_and_then with (Q1 := fun _ => short 1);
          [apply paced_print_recipients | intros _].
        pace.
        destruct (nth_error _ _); pace.
        intros w H. unfold short in H. lia.
    + cbn [gift_list_screen]. pace.
      apply hoare_and_then with (Q1 := fun _ => short 1);
        [apply paced_len | intros count].
      apply hoare_and_then with (Q1 := fun _ => short 1).
      * pace.
        apply hoare_and_then with (Q1 := fun _ => short 1);
          [apply paced_iterate | intros items].
        apply hoare_and_then with (Q1 := fun _ => short 1);
          [apply paced_print_gifts | intros _]. pace.
      * intros _. pace. intros w H. unfold short in H. lia.
  - split; [|intros r].
    + cbn [recipients_screen]. pace.
      * apply hoare_and_then with (Q1 := fun _ => short (S n));
          [apply paced_print_recipients | intros _].
        pace.
        destruct (nth_error _ _); pace.
        destruct n as [|m].
        { intros w H. unfold short in H. lia. }
        apply hoare_post with (Q := fun _ => short m).
        -- apply IH. lia.
        -- intros _ w H. unfold short in *. lia.
    + cbn [gift_list_screen]. pace.
      apply hoare_and_then with (Q1 := fun _ => short (S n));
        [apply paced_len | intros count].
      apply hoare_and_then with (Q1 := fun _ => short (S n)).
      * pace.
        apply hoare_and_then with (Q1 := fun _ => short (S n));
          [apply paced_iterate | intros items].
        apply hoare_and_then with (Q1 := fun _ => short (S n));
          [apply paced_print_gifts | intros _]. pace.
      * intros _. pace.
        destruct n as [|m].
        { intros w H. unfold short in H. lia. }
        apply hoare_post with (Q := fun _ => short m).
        -- apply IH. lia.
        -- intros _ w H. unfold short in *. lia.
Qed.

Lemma paced_main_menu (budget n : nat) :
  (n <= budget)%nat ->
  hoare any never (short (S n)) (main_menu show budget) (fun _ => short n).
Proof.
  intros Hn. unfold main_menu. pace.
  - apply hoare_and_then with (Q1 := fun _ => short n); [|intros _; pace].
    destruct n as [|m]; [intros w H; unfold short in H; lia|].
    destruct budget as [|b]; [lia|].
    apply hoare_post with (Q := fun _ => short m).
    + apply paced_navigation. lia.
    + intros _ w H. unfold short in *. lia.
Qed.

Lemma paced_main_loop (budget : nat) :
  forall n, (n <= budget)%nat ->
    hoare any never (short n) (main_loop show budget) (fun _ _ => True).
Proof.
  induction budget as [|b IH]; intros n Hn.
  - intros w H. unfold short in H. lia.
  - destruct n as [|m]; [intros w H; unfold short in H; lia|].
    cbn [main_loop].
    apply hoare_and_then with (Q1 := fun _ => short m).
    + apply paced_main_menu. lia.
    + intros running. destruct running.
      * apply IH. lia.
      * apply hoare_finish. trivial.
Qed.

End Display.

End Budget.

(* ================================================================== *)
(** * A good document is never the reason a run fails, and stays good *)
(* ================================================================== *)

Module Faults.
Import Str Py Run Gift Spec Menu Nav Whole.
Import StrFacts DictFacts TextFacts Ops Screens Closure Kept Triples.

(** [good] is what is known of the document all along: that it is shaped,
    at least, and something that adding a name or a gift made of the
    [lines] keeps. *)
Section Lines.
Variable lines : list str.
Variable show : value -> str.
Variable good : dict -> Prop.
Hypothesis good_shaped : forall d, good d -> shaped d = true.
Hypothesis good_new :
  forall d c, good d -> typed lines c -> ~ In (clean_text c) (keys d) ->
    good (d ++ [(clean_text c, VList [])]).
Hypothesis good_append :
  forall d r gifts c o,
    good d -> getitem r d = Some (VList gifts) ->
    typed lines c -> chosen lines o ->
    good (setitem r (VList (gifts ++ [gift_obj (clean_text c) o])) d).

Let fails := stopped good lines.
Let stuck := sound good lines whatever.

Lemma sound_weaken (D D' : dict -> Prop) (w : world) :
  (forall d, D d -> D' d) -> sound good lines D w -> sound good lines D' w.
Proof.
  intros H (S & Hd & T). split; [exact S | split; [apply H, Hd | exact T]].
Qed.

Lemma sound_whatever (D : dict -> Prop) (w : world) :
  sound good lines D w -> sound good lines whatever w.
Proof. apply sound_weaken. intros; exact I. Qed.

(** ** Rules for the steps of a screen *)

Lemma expect_print {B} (D : dict -> Prop) (s : str) (k : unit -> Flow B)
      (Q : B -> world -> Prop) :
  hoare fails stuck (sound good lines D) (k tt) Q ->
  hoare fails stuck (sound good lines D) (and_then (lift (print s)) k) Q.
Proof.
  intros H. apply hoare_and_then with (Q1 := fun _ => sound good lines D).
  - apply hoare_print. intros w Hw; exact Hw.
  - intros []; exact H.
Qed.

Lemma expect_get_input {B} (D : dict -> Prop) (p : str) (k : str -> Flow B)
      (Q : B -> world -> Prop) :
  (forall c, typed lines c -> hoare fails stuck
        (sound good lines D) (k c) Q) ->
  hoare fails stuck
        (sound good lines D) (and_then (lift (get_input p)) k) Q.
Proof.
  intros H.
  apply hoare_and_then
    with (Q1 := fun c w => sound good lines D w /\ typed lines c).
  - apply hoare_get_input.
    { intros w (S & Hd & read & E) Hin. split; [left; reflexivity|].
      split; [exact S | split; [exact I|]]. exists read.
      rewrite E, Hin. reflexivity. }
    intros w line rest (S & Hd & read & E) Hin. split.
    + split; [exact S | split; [exact Hd|]].
      exists (read ++ [line]). simpl. rewrite E, Hin, <- app_assoc. reflexivity.
    + exists line. split; [|reflexivity].
      rewrite E, Hin. apply in_or_app. right; left; reflexivity.
  - intros c w [Hw Hc]. apply (H c Hc w Hw).
Qed.

Lemma expect_int {B} (D : dict -> Prop) (c : str) (k : Z -> Flow B)
      (Q : B -> world -> Prop) :
  typed lines c -> is_number c = true ->
  (forall z, to_int c = Some z -> hoare fails stuck
        (sound good lines D) (k z) Q) ->
  hoare fails stuck (sound good lines D) (and_then (lift (int c)) k) Q.
Proof.
  intros (line & Hin & ->) Hn H.
  apply hoare_and_then
    with (Q1 := fun z w =>
                  sound good lines D w /\ to_int (strip line) = Some z).
  - apply hoare_int.
    + intros w E Hw. split; [|exact (sound_whatever D w Hw)].
      right. split; [reflexivity|].
      apply Exists_exists. exists line. split; [exact Hin | split; assumption].
    + intros z w E Hw. split; assumption.
  - intros z w [Hw E]. apply (H z E w Hw).
Qed.

Lemma expect_get_data {B} (D : dict -> Prop) (k : dict -> Flow B)
      (Q : B -> world -> Prop) :
  (forall d, good d -> D d -> hoare fails stuck
        (sound good lines (eq d)) (k d) Q) ->
  hoare fails stuck (sound good lines D) (and_then (lift get_data) k) Q.
Proof.
  intros H w Hw. change (and_then (lift get_data) k w) with (k (data w) w).
  destruct Hw as (S & Hd & T).
  apply (H (data w) S Hd w). split; [exact S | split; [reflexivity | exact T]].
Qed.

Lemma expect_finish {B C} (P : world -> Prop) (a : B) (k : B -> Flow C)
      (Q : C -> world -> Prop) :
  hoare fails stuck P (k a) Q -> hoare fails stuck
        P (and_then (finish a) k) Q.
Proof. intros H w Hw. exact (H w Hw). Qed.

Lemma expect_lift_bind {B C} (P : world -> Prop) (m : M B) (k : B -> M C)
      (Q : C -> world -> Prop) :
  hoare fails stuck P (and_then (lift m) (fun a => lift (k a))) Q ->
  hoare fails stuck P (lift (bind m k)) Q.
Proof. intros H w Hw. rewrite lift_bind. exact (H w Hw). Qed.

Lemma expect_last_print (D : dict -> Prop) (s : str) :
  hoare fails stuck
        (sound good lines D) (lift (print s)) (fun _ => sound good lines D).
Proof. apply hoare_print. intros w Hw; exact Hw. Qed.

Ltac tread :=
  repeat match goal with
    | |- hoare _ _ _ (lift (bind _ _)) _ => apply expect_lift_bind
    | |- hoare _ _ _ (and_then (lift (print _)) _) _ => apply expect_print
    | |- hoare _ _ _ (and_then (lift (get_input _)) _) _ =>
        apply expect_get_input; intros ? ?
    | |- hoare _ _ _ (and_then (lift (int _)) _) _ =>
        apply expect_int;
          [assumption
          | match goal with
            | H : negb (is_number ?c) = false |- is_number ?c = true =>
                apply negb_false_iff in H; exact H
            end
          | intros ? ?]
    | |- hoare _ _ _ (and_then (finish _) _) _ => apply expect_finish
    | |- hoare _ _ _ (lift (print _)) _ => apply expect_last_print
    | |- hoare _ _ _ (lift (ret _)) _ => apply hoare_ret; intros ? ?; assumption
    | |- hoare _ _ _ (finish _) _ => apply hoare_finish; intros ? ?; assumption
    | |- hoare _ _ _ (if ?b then _ else _) _ => destruct b eqn:?
    | |- hoare _ _ _ (lift (if ?b then _ else _)) _ => destruct b eqn:?
    | |- hoare _ _ _ (let x := _ in _) _ => cbv zeta
    | |- hoare _ _ _ (lift (let x := _ in _)) _ => cbv zeta
    | |- hoare _ _ _ ((fun _ => _) _) _ => cbv beta
    end.

(** ** The screens that add *)

Lemma expect_choose_occasion (D : dict -> Prop) :
  hoare fails stuck (sound good lines D) (lift choose_occasion)
        (fun occasion w =>
           sound good lines D w /\
           forall o, occasion = Some o -> chosen lines o).
Proof.
  unfold choose_occasion. tread;
    apply hoare_ret; intros w Hw; (split; [exact Hw|]);
    intros o E; try discriminate E; injection E as <-.
  - left; reflexivity.
  - right; left; reflexivity.
  - right; right. eexists. split; [eassumption | reflexivity].
Qed.

Lemma expect_add_gift (r c o : str) :
  typed lines c -> chosen lines o ->
  hoare fails stuck
        (sound good lines (has r))
        (lift (add_gift_to_recipient r (clean_text c) o))
        (fun _ => sound good lines (has r)).
Proof.
  intros Hc Ho w (S & Hr & T). unfold lift.
  destruct (shaped_lookup _ _ (good_shaped _ S) Hr) as (gifts & E & G).
  rewrite (add_gift_run w r (clean_text c) o gifts E). cbv zeta.
  split; [|split]; cbn [data stdin].
  - apply good_append; assumption.
  - unfold has. rewrite keys_setitem_old; exact Hr.
  - exact T.
Qed.

Lemma expect_add_gift_screen (r : str) :
  hoare fails stuck (sound good lines (has r)) (lift (add_gift_screen r))
         (fun _ => sound good lines (has r)).
Proof.
  unfold add_gift_screen. tread.
  eapply hoare_and_then; [apply expect_choose_occasion | intros occasion].
  cbv beta.
  destruct occasion as [occasion|].
  - apply hoare_pre
      with (P := fun w => sound good lines (has r) w /\
                          chosen lines occasion);
      [|intros w [Hw Ho]; split; [exact Hw | apply Ho; reflexivity]].
    apply hoare_assume. intros Ho. tread.
    apply hoare_and_then with (Q1 := fun _ => sound good lines (has r));
      [apply expect_add_gift; assumption | intros _].
    tread.
  - apply hoare_pre with (P := sound good lines (has r));
      [tread | intros w [Hw _]; exact Hw].
Qed.

Lemma expect_add_recipient (c : str) :
  typed lines c ->
  hoare fails stuck
        (sound good lines whatever)
        (lift (add_recipient_to_data (clean_text c)))
        (fun _ => sound good lines (has (clean_text c))).
Proof.
  intros Hc w (S & _ & T). unfold lift.
  destruct (in_dec (list_eq_dec N.eq_dec) (clean_text c) (keys (data w)))
    as [I|I].
  - rewrite (add_recipient_old w _ I).
    split; [exact S | split; [exact I | exact T]].
  - rewrite (add_recipient_new w _ I).
    split; [|split]; cbn [data stdin].
    + apply good_new; assumption.
    + unfold has, keys. rewrite map_app. apply in_or_app.
      right; left; reflexivity.
    + exact T.
Qed.

Lemma expect_add_recipient_screen :
  hoare fails stuck (sound good lines whatever) (lift add_recipient_screen)
         (fun _ => sound good lines whatever).
Proof.
  unfold add_recipient_screen. tread.
  apply hoare_and_then
    with (Q1 := fun _ => sound good lines (has (clean_text c)));
    [apply expect_add_recipient; assumption | intros added].
  apply hoare_post with (Q := fun _ => sound good lines (has (clean_text c)));
    [|intros _ w; apply sound_weaken; intros; exact I].
  cbv beta. apply expect_lift_bind.
  apply hoare_and_then
    with (Q1 := fun _ => sound good lines (has (clean_text c))).
  - destruct added; apply expect_last_print.
  - intros _. tread. apply expect_add_gift_screen.
Qed.

(** ** The screens that show *)

Lemma expect_print_recipients {B} (D : dict -> Prop) (l : list str)
      (k : unit -> Flow B) (Q : B -> world -> Prop) :
  hoare fails stuck (sound good lines D) (k tt) Q ->
  forall i, hoare fails stuck
        (sound good lines D) (and_then (print_recipients i l) k) Q.
Proof.
  intros H i.
  apply hoare_and_then with (Q1 := fun _ => sound good lines D);
    [|intros []; exact H].
  clear H. revert i. induction l as [|name l IH]; intros i; simpl; tread.
  apply IH.
Qed.

Lemma record_subscripts (gift : value) :
  is_record gift = true ->
  exists idea occasion,
    subscript gift (lit "idea") = finish (VStr idea) /\
    subscript gift (lit "occasion") = finish (VStr occasion).
Proof.
  destruct gift; try discriminate. cbn [is_record subscript].
  destruct (getitem (lit "idea") entries) as [[]|]; try discriminate.
  destruct (getitem (lit "occasion") entries) as [[]|]; try discriminate.
  intros _. eexists; eexists; split; reflexivity.
Qed.

Lemma expect_print_gifts (D : dict -> Prop) (gifts : list value) :
  forallb is_record gifts = true ->
  hoare fails stuck
        (sound good lines D) (print_gifts show gifts)
        (fun _ => sound good lines D).
Proof.
  induction gifts as [|gift gifts IH]; intros G; simpl; tread.
  simpl in G. apply andb_true_iff in G. destruct G as [G1 G2].
  destruct (record_subscripts gift G1) as (idea & occasion & -> & ->).
  tread. apply IH, G2.
Qed.

Lemma sorted_recipient (d : dict) (k : nat) (selected : str) :
  nth_error (list_recipients d) k = Some selected -> In selected (keys d).
Proof.
  intros H. apply nth_error_In in H.
  apply (Permutation_in _ (Permutation_sym (sort_perm (keys d)))). exact H.
Qed.

Lemma expect_navigation (budget : nat) :
  hoare fails stuck
        (sound good lines whatever) (recipients_screen show budget)
         (fun _ => sound good lines whatever) /\
  forall r,
    hoare fails stuck
          (sound good lines (has r)) (gift_list_screen show budget r)
           (fun _ => sound good lines whatever).
Proof.
  induction budget as [|b [IHr IHg]]; (split; [|intros r]);
    try (apply hoare_unfinished; apply sound_whatever).
  - cbn [recipients_screen]. apply expect_get_data. intros d S _.
    assert (W : forall w, sound good lines (eq d) w ->
                          sound good lines whatever w).
    { intros w. apply sound_whatever. }
    tread; try (apply hoare_finish; exact W).
    + apply hoare_pre with (P := sound good lines whatever);
        [apply expect_add_recipient_screen | exact W].
    + apply expect_print_recipients. tread;
        try (apply hoare_finish; exact W).
      * apply hoare_post with (Q := fun _ => sound good lines (eq d));
          [apply expect_last_print | intros _; exact W].
      * apply hoare_pre with (P := sound good lines whatever);
          [apply expect_add_recipient_screen | exact W].
      * destruct (nth_error (list_recipients d) (Z.to_nat (z - 1)))
          as [selected|] eqn:E.
        -- apply hoare_pre with (P := sound good lines (has selected));
             [apply IHg|].
           intros w. apply sound_weaken. intros ? <-.
           eapply sorted_recipient; exact E.
        -- apply nth_error_None in E.
           match goal with
           | H : (_ && _)%bool = true |- _ =>
               apply andb_true_iff in H; destruct H as [L1 L2]
           end.
           apply Z.leb_le in L1. apply Z.leb_le in L2. lia.
  - cbn [gift_list_screen]. apply expect_get_data. intros d S0 Hr.
    pose proof (good_shaped d S0) as S.
    assert (W : forall w, sound good lines (eq d) w ->
                          sound good lines whatever w).
    { intros w. apply sound_whatever. }
    destruct (shaped_lookup d r S Hr) as (gifts & E & G).
    unfold get_gifts_for_recipient, get. rewrite E. cbn [len iterate].
    tread.
    apply hoare_and_then with (Q1 := fun _ => sound good lines (eq d)).
    + tread.
      apply hoare_and_then with (Q1 := fun _ => sound good lines (eq d));
        [apply expect_print_gifts, G | intros _]. tread.
    + intros _. tread; try (apply hoare_finish; exact W).
      * apply hoare_post with (Q := fun _ => sound good lines (has r)).
        -- apply hoare_pre with (P := sound good lines (has r));
             [apply expect_add_gift_screen|].
           intros w. apply sound_weaken. intros ? <-. exact Hr.
        -- intros _ w. apply sound_weaken. intros; exact I.
      * apply hoare_pre with (P := sound good lines whatever);
          [apply IHr | exact W].
Qed.

Lemma expect_main_menu (budget : nat) :
  hoare fails stuck (sound good lines whatever) (main_menu show budget)
         (fun _ => sound good lines whatever).
Proof.
  unfold main_menu. tread.
  - apply hoare_and_then with (Q1 := fun _ => sound good lines whatever);
      [apply expect_navigation | intros _; tread].
  - apply hoare_and_then with (Q1 := fun _ => sound good lines whatever);
      [apply expect_add_recipient_screen | intros _; tread].
Qed.

Lemma expect_main_loop (budget : nat) :
  hoare fails stuck (sound good lines whatever) (main_loop show budget)
         (fun _ => sound good lines whatever).
Proof.
  induction budget as [|b IH]; simpl;
    [apply hoare_unfinished; intros w Hw; exact Hw|].
  apply hoare_and_then with (Q1 := fun _ => sound good lines whatever);
    [apply expect_main_menu | intros running].
  destruct running; [apply IH | tread].
Qed.

End Lines.

End Faults.

(* ================================================================== *)
(** * The recipients list does not depend on the order of the keys *)
(* ================================================================== *)

Module Order.
Import Str Py Run Gift Spec.
Import StrFacts DictFacts Ops.

Lemma sorted_unique (l : list str) :
  forall l',
    StronglySorted le l -> StronglySorted le l' -> Permutation l l' -> l = l'.
Proof.
  induction l as [|x l IH]; intros l' S S' P.
  - apply Permutation_nil in P. congruence.
  - destruct l' as [|y l'];
      [apply Permutation_sym, Permutation_nil in P; discriminate|].
    inversion S as [|? ? Sl Fx]; subst. inversion S' as [|? ? Sl' Fy]; subst.
    assert (x = y) as <-.
    { apply le_antisym.
      - assert (H : In y (x :: l))
          by (apply (Permutation_in _ (Permutation_sym P)); left; reflexivity).
        destruct H as [->|H]; [apply le_refl|].
        rewrite Forall_forall in Fx. apply Fx, H.
      - assert (H : In x (y :: l'))
          by (apply (Permutation_in _ P); left; reflexivity).
        destruct H as [->|H]; [apply le_refl|].
        rewrite Forall_forall in Fy. apply Fy, H. }
    f_equal. apply IH; [assumption | assumption|].
    apply Permutation_cons_inv with x. exact P.
Qed.

Lemma sort_insert (x : str) (l : list str) :
  sort (l ++ [x]) = insert_sorted x (sort l).
Proof.
  apply sorted_unique.
  - apply sort_sorted.
  - apply insert_sorted_sorted, sort_sorted.
  - rewrite <- (sort_perm (l ++ [x])), <- insert_sorted_perm.
    rewrite <- (sort_perm l). apply Permutation_sym, Permutation_cons_append.
Qed.

End Order.

(* ================================================================== *)
(** * Routes through the menus *)
(* ================================================================== *)

Module Routes.
Import Str Py Run Gift Spec Menu Nav Whole.
Import StrFacts DictFacts TextFacts Ops Screens Closure Kept Triples.

Section Display.
Variable show : value -> str.

(** ** What the listings print *)

Lemma print_recipients_run (l : list str) :
  forall i w,
    print_recipients i l w
    = (Finished tt,
       World (data w) (disk w) (writes w) (stdin w)
             (rev (recipient_lines i l) ++ stdout w)).
Proof.
  induction l as [|name l IH]; intros i w; cbn [print_recipients].
  - destruct w; reflexivity.
  - rewrite and_then_print, IH. cbn [recipient_lines rev].
    cbn [data disk writes stdin stdout].
    rewrite <- app_assoc. reflexivity.
Qed.

Lemma recipient_lines_nth (l : list str) :
  forall i k name,
    nth_error l k = Some name ->
    In (lit "[" ++ decimal (Z.of_nat (i + k) + 1) ++ lit "] " ++ name)
       (recipient_lines i l).
Proof.
  induction l as [|x l IH]; intros i k name H; [destruct k; discriminate|].
  destruct k as [|k]; simpl in H.
  - injection H as ->. left. rewrite Nat.add_0_r. reflexivity.
  - right. replace (i + S k)%nat with (S i + k)%nat by lia.
    apply IH, H.
Qed.

Lemma and_then_finish {A B} (a : A) (k : A -> Flow B) (w : world) :
  and_then (finish a) k w = k a w.
Proof. reflexivity. Qed.

Lemma and_then_int {B} (c : str) (z : Z) (k : Z -> Flow B) (w : world) :
  to_int c = Some z -> and_then (lift (int c)) k w = k z w.
Proof. intros H. unfold and_then, lift, int. rewrite H. reflexivity. Qed.

Lemma and_then_print_recipients {B} (i : nat) (l : list str)
      (k : unit -> Flow B) (w : world) :
  and_then (print_recipients i l) k w
  = k tt (World (data w) (disk w) (writes w) (stdin w)
                (rev (recipient_lines i l) ++ stdout w)).
Proof. unfold and_then. rewrite print_recipients_run. reflexivity. Qed.

(** Choosing the number shown beside a recipient opens that recipient. *)
Lemma recipients_screen_choice (budget : nat) d f n (line : str) rest out
      (z : Z) (name : str) :
  is_number (strip line) = true -> to_int (strip line) = Some z ->
  (1 <= z)%Z ->
  nth_error (list_recipients d) (Z.to_nat (z - 1)) = Some name ->
  exists out',
    recipients_screen show (S budget) (World d f n (line :: rest) out)
    = gift_list_screen show budget name (World d f n rest out') /\
    In (lit "[" ++ decimal z ++ lit "] " ++ name) out'.
Proof.
  intros H1 H2 H3 H4.
  assert (L : (Z.to_nat (z - 1) < length (list_recipients d))%nat).
  { apply nth_error_Some. congruence. }
  cbn [recipients_screen]. rewrite and_then_get_data.
  cbn [data]. rewrite and_then_print.
  destruct (Nat.eqb_spec (length (list_recipients d)) 0) as [E|_]; [lia|].
  rewrite and_then_print_recipients. rewrite !and_then_print.
  cbn [data disk writes stdin stdout]. rewrite and_then_get_input.
  rewrite H1. cbn [negb]. rewrite (and_then_int _ z) by exact H2.
  destruct (Z.eqb_spec z 0) as [E|_]; [lia|].
  destruct (Z.eqb_spec z (Z.of_nat (length (list_recipients d)) + 1))
    as [E|_]; [lia|].
  destruct (Z.leb_spec 1 z) as [_|E]; [|lia].
  destruct (Z.leb_spec z (Z.of_nat (length (list_recipients d))))
    as [_|E]; [|lia].
  cbn [andb]. rewrite H4.
  eexists. split; [reflexivity|].
  do 4 right. apply in_or_app. left. apply in_rev. rewrite rev_involutive.
  replace z with (Z.of_nat (0 + Z.to_nat (z - 1)) + 1)%Z at 1 by lia.
  apply recipient_lines_nth, H4.
Qed.

(** ** The gifts screen *)

Lemma print_gifts_run (pairs : list (str * str)) (w : world) :
  print_gifts show (map record_of pairs) w
  = (Finished tt,
     World (data w) (disk w) (writes w) (stdin w)
           (rev (map gift_line pairs) ++ stdout w)).
Proof.
  revert w. induction pairs as [|[idea occasion] pairs IH]; intros w.
  - destruct w; reflexivity.
  - cbn [map print_gifts]. unfold record_of at 1 2. cbn [fst snd].
    change (subscript (gift_obj idea occasion) (lit "idea"))
      with (@finish value (VStr idea)).
    change (subscript (gift_obj idea occasion) (lit "occasion"))
      with (@finish value (VStr occasion)).
    rewrite !and_then_finish. cbn [text_of].
    rewrite and_then_print, IH. cbn [data disk writes stdin stdout].
    cbn [rev]. rewrite <- app_assoc. reflexivity.
Qed.

Lemma and_then_failed {A B} (n : Flow A) (k : A -> Flow B) (w w' : world)
      (f : fault) :
  n w = (Failed f, w') -> and_then n k w = (Failed f, w').
Proof. intros H. unfold and_then. rewrite H. reflexivity. Qed.

(** What stops the listing at a gift that is not a record. *)
Lemma print_gifts_stops (pairs : list (str * str)) (bad : value)
      (more : list value) (w : world) :
  (is_dict bad = false ->
   print_gifts show (map record_of pairs ++ bad :: more) w
   = (Failed TypeError,
      World (data w) (disk w) (writes w) (stdin w)
            (rev (map gift_line pairs) ++ stdout w))) /\
  (forall entries,
     bad = VDict entries ->
     (contains (lit "idea") entries && contains (lit "occasion") entries)%bool
     = false ->
     print_gifts show (map record_of pairs ++ bad :: more) w
     = (Failed (Exn KeyError),
        World (data w) (disk w) (writes w) (stdin w)
              (rev (map gift_line pairs) ++ stdout w))).
Proof.
  revert w. induction pairs as [|[idea occasion] pairs IH]; intros w.
  - cbn [map app print_gifts rev]. split.
    + intros H. destruct bad; try discriminate H; destruct w; reflexivity.
    + intros entries -> H. cbn [subscript].
      destruct (getitem (lit "idea") entries) as [x|] eqn:E1;
        [|destruct w; reflexivity].
      rewrite and_then_finish.
      destruct (getitem (lit "occasion") entries) as [y|] eqn:E2;
        [|destruct w; reflexivity].
      exfalso. apply andb_false_iff in H.
      destruct H as [H|H]; apply contains_false, getitem_None in H;
        congruence.
  - cbn [map app print_gifts]. unfold record_of at 1 2 5 6. cbn [fst snd].
    change (subscript (gift_obj idea occasion) (lit "idea"))
      with (@finish value (VStr idea)).
    change (subscript (gift_obj idea occasion) (lit "occasion"))
      with (@finish value (VStr occasion)).
    rewrite !and_then_finish. cbn [text_of]. rewrite !and_then_print.
    destruct (IH (World (data w) (disk w) (writes w) (stdin w)
                        (gift_line (idea, occasion) :: stdout w)))
      as [IH1 IH2].
    cbn [data disk writes stdin stdout] in IH1, IH2.
    cbn [rev]. rewrite <- !app_assoc. split.
    + intros H. apply IH1, H.
    + intros entries E H. apply (IH2 entries E H).
Qed.

Lemma gift_list_screen_run (budget : nat) d f n (r line : str) rest out
      (pairs : list (str * str)) :
  getitem r d = Some (VList (map record_of pairs)) ->
  let w1 := World d f n rest (gifts_page r pairs ++ out) in
  gift_list_screen show (S budget) r (World d f n (line :: rest) out)
  = if eqb (strip line) (lit "1") then lift (add_gift_screen r) w1
    else if eqb (strip line) (lit "2") then recipients_screen show budget w1
    else (Finished tt, w1).
Proof.
  intros H w1. cbn [gift_list_screen]. rewrite and_then_get_data.
  cbn [data]. unfold get_gifts_for_recipient, get. rewrite H.
  rewrite and_then_print. cbn [len]. rewrite and_then_finish.
  rewrite length_map. unfold w1, gifts_page.
  destruct pairs as [|pair pairs].
  - cbn [length Nat.eqb]. unfold and_then at 1. cbn [lift print fst snd].
    rewrite !and_then_print. cbn [data disk writes stdin stdout].
    rewrite and_then_get_input.
    destruct (eqb (strip line) (lit "1")); [reflexivity|].
    destruct (eqb (strip line) (lit "2")); reflexivity.
  - cbn [length Nat.eqb iterate]. unfold and_then at 1.
    rewrite and_then_finish. unfold and_then at 1.
    rewrite print_gifts_run. cbn [lift print fst snd].
    rewrite !and_then_print. cbn [data disk writes stdin stdout].
    rewrite and_then_get_input.
    generalize (rev (map gift_line (pair :: pairs))). intros listing.
    cbn [app]. rewrite <- app_assoc. cbn [app].
    destruct (eqb (strip line) (lit "1")); [reflexivity|].
    destruct (eqb (strip line) (lit "2")); reflexivity.
Qed.

Lemma gift_list_screen_stops (budget : nat) (w : world) (r : str)
      (pairs : list (str * str)) (bad : value) (more : list value) :
  getitem r (data w) = Some (VList (map record_of pairs ++ bad :: more)) ->
  let w1 :=
    World (data w) (disk w) (writes w) (stdin w)
          (rev (map gift_line pairs)
           ++ (nl ++ lit "Gift Ideas for " ++ r ++ lit ":" ++ nl)
           :: stdout w) in
  (is_dict bad = false ->
   gift_list_screen show (S budget) r w = (Failed TypeError, w1)) /\
  (forall entries,
     bad = VDict entries ->
     (contains (lit "idea") entries && contains (lit "occasion") entries)%bool
     = false ->
     gift_list_screen show (S budget) r w = (Failed (Exn KeyError), w1)).
Proof.
  intros H w1. cbn [gift_list_screen]. rewrite and_then_get_data.
  unfold get_gifts_for_recipient, get. rewrite H.
  rewrite and_then_print. cbn [len]. rewrite and_then_finish.
  rewrite length_app. cbn [length]. rewrite Nat.add_succ_r.
  cbn [Nat.eqb iterate].
  destruct (print_gifts_stops pairs bad more
              (World (data w) (disk w) (writes w) (stdin w)
                     ((nl ++ lit "Gift Ideas for " ++ r ++ lit ":" ++ nl)
                      :: stdout w))) as [S1 S2].
  cbn [data disk writes stdin stdout] in S1, S2.
  split.
  - intros B. apply and_then_failed. rewrite and_then_finish.
    apply and_then_failed. apply S1, B.
  - intros entries E B. apply and_then_failed. rewrite and_then_finish.
    apply and_then_failed. apply (S2 entries E B).
Qed.

(** ** Answers that lead nowhere *)

Lemma recipients_screen_empty (budget : nat) d f n (line : str) rest out :
  list_recipients d = [] -> strip line <> lit "1" ->
  exists out',
    recipients_screen show (S budget) (World d f n (line :: rest) out)
    = (Finished tt, World d f n rest out').
Proof.
  intros E H. apply eqb_neq in H.
  cbn [recipients_screen]. rewrite and_then_get_data. cbn [data].
  rewrite E. cbn [length Nat.eqb]. rewrite !and_then_print.
  cbn [data disk writes stdin stdout]. rewrite and_then_get_input.
  rewrite H. eexists; reflexivity.
Qed.

Lemma recipients_screen_not_number (budget : nat) d f n (line : str) rest
      out :
  list_recipients d <> [] -> is_number (strip line) = false ->
  exists out',
    recipients_screen show (S budget) (World d f n (line :: rest) out)
    = (Finished tt, World d f n rest out').
Proof.
  intros E H.
  cbn [recipients_screen]. rewrite and_then_get_data. cbn [data].
  rewrite and_then_print.
  destruct (Nat.eqb_spec (length (list_recipients d)) 0) as [L|_].
  { destruct (list_recipients d); [congruence | discriminate L]. }
  rewrite and_then_print_recipients. rewrite !and_then_print.
  cbn [data disk writes stdin stdout]. rewrite and_then_get_input.
  rewrite H. eexists; reflexivity.
Qed.

Lemma recipients_screen_out_of_range (budget : nat) d f n (line : str) rest
      out (z : Z) :
  list_recipients d <> [] ->
  is_number (strip line) = true -> to_int (strip line) = Some z ->
  (z = 0 \/ Z.of_nat (length (list_recipients d)) + 1 < z)%Z ->
  exists out',
    recipients_screen show (S budget) (World d f n (line :: rest) out)
    = (Finished tt, World d f n rest out').
Proof.
  intros E H1 H2 H3.
  cbn [recipients_screen]. rewrite and_then_get_data. cbn [data].
  rewrite and_then_print.
  destruct (Nat.eqb_spec (length (list_recipients d)) 0) as [L|_].
  { destruct (list_recipients d); [congruence | discriminate L]. }
  rewrite and_then_print_recipients. rewrite !and_then_print.
  cbn [data disk writes stdin stdout]. rewrite and_then_get_input.
  rewrite H1. cbn [negb]. rewrite (and_then_int _ z) by exact H2.
  destruct (Z.eqb_spec z 0) as [_|N0]; [eexists; reflexivity|].
  destruct (Z.eqb_spec z (Z.of_nat (length (list_recipients d)) + 1))
    as [N1|_]; [lia|].
  destruct (Z.leb_spec z (Z.of_nat (length (list_recipients d))))
    as [N2|_]; [lia|].
  rewrite andb_false_r. eexists; reflexivity.
Qed.

(** ** Leaving the main menu *)

Lemma then_true_not_false {A} (n : Flow A) (w : world) :
  fst (and_then n (fun _ => finish true) w) <> Finished false.
Proof.
  unfold and_then. destruct (n w) as [[a|f0|] w1]; discriminate.
Qed.

Lemma main_menu_leaves (budget : nat) d f n (line : str) rest out :
  let w := World d f n (line :: rest) out in
  fst (main_menu show budget w) = Finished false ->
  is_number (strip line) = true /\ to_int (strip line) = Some 0%Z.
Proof.
  intros w. unfold main_menu, w. rewrite !and_then_print.
  cbn [data disk writes stdin stdout]. rewrite and_then_get_input.
  destruct (is_number (strip line)) eqn:E1; cbn [negb];
    [|intros H; exfalso; revert H; apply then_true_not_false].
  destruct (to_int (strip line)) as [z|] eqn:E2.
  2:{ unfold and_then, lift, int. rewrite E2. discriminate. }
  rewrite (and_then_int _ z) by exact E2.
  destruct (Z.eqb_spec z 1);
    [intros H; exfalso; revert H; apply then_true_not_false|].
  destruct (Z.eqb_spec z 2);
    [intros H; exfalso; revert H; apply then_true_not_false|].
  destruct (Z.eqb_spec z 0) as [->|]; [tauto | discriminate].
Qed.

Lemma main_menu_exit (budget : nat) d f n (line : str) rest out :
  is_number (strip line) = true -> to_int (strip line) = Some 0%Z ->
  exists out',
    main_menu show budget (World d f n (line :: rest) out)
    = (Finished false,
       World d f n rest ((nl ++ lit "Goodbye!" ++ nl) :: out')).
Proof.
  intros E1 E2. unfold main_menu. rewrite !and_then_print.
  cbn [data disk writes stdin stdout]. rewrite and_then_get_input.
  rewrite E1. cbn [negb]. rewrite (and_then_int _ 0) by exact E2.
  cbn [Z.eqb]. rewrite and_then_print. eexists; reflexivity.
Qed.

(** ** The main menu says goodbye only when it returns [False] *)

Lemma hoare_trivial {A} (P : world -> Prop) (n : Flow A) :
  hoare any anywhere P n (fun _ _ => True).
Proof. intros w _. destruct (n w) as [[a|f|] w1]; exact I. Qed.

Lemma main_menu_goodbye (budget : nat) :
  hoare any anywhere (fun _ => True) (main_menu show budget)
        (fun running w => running = false -> said_goodbye w).
Proof.
  unfold main_menu.
  repeat (apply hoare_and_then with (Q1 := fun _ _ => True);
          [apply hoare_trivial | intros ?]).
  repeat match goal with
    | |- hoare _ _ _ (if ?b then _ else _) _ => destruct b
    | |- hoare _ _ _ (and_then _ (fun _ => finish true)) _ =>
        apply hoare_and_then with (Q1 := fun _ _ => True);
          [apply hoare_trivial | intros _]
    | |- hoare _ _ _ (finish true) _ =>
        apply hoare_finish; intros; discriminate
    end.
  - apply hoare_and_then with (Q1 := fun _ _ => True);
      [apply hoare_trivial | intros z].
    repeat match goal with
    | |- hoare _ _ _ (if ?b then _ else _) _ => destruct b
    | |- hoare _ _ _ (and_then _ (fun _ => finish true)) _ =>
        apply hoare_and_then with (Q1 := fun _ _ => True);
          [apply hoare_trivial | intros _]
    | |- hoare _ _ _ (finish true) _ =>
        apply hoare_finish; intros; discriminate
    end.
    apply hoare_and_then with (Q1 := fun _ => said_goodbye).
    + apply hoare_print. intros w _. eexists; reflexivity.
    + intros _. apply hoare_finish. intros w H _. exact H.
Qed.

Lemma main_loop_goodbye (budget : nat) :
  hoare any anywhere (fun _ => True) (main_loop show budget)
        (fun _ => said_goodbye).
Proof.
  induction budget as [|b IH]; simpl;
    [apply hoare_unfinished; intros; exact I|].
  apply hoare_and_then
    with (Q1 := fun running w => running = false -> said_goodbye w);
    [apply main_menu_goodbye | intros running].
  destruct running.
  - apply hoare_pre with (P := fun _ => True); [exact IH | trivial].
  - apply hoare_finish. intros w H. apply H. reflexivity.
Qed.

(** ** A larger budget changes nothing *)

Lemma refines_refl {A} (n : Flow A) : refines n n.
Proof. intros w _. reflexivity. Qed.

Lemma refines_and_then {A B} (n n' : Flow A) (k k' : A -> Flow B) :
  refines n n' -> (forall a, refines (k a) (k' a)) ->
  refines (and_then n k) (and_then n' k').
Proof.
  intros Hn Hk w H. unfold and_then in *.
  destruct (n w) as [[a|f|] w1] eqn:E.
  - rewrite (Hn w) by (rewrite E; discriminate). rewrite E.
    apply Hk. exact H.
  - rewrite (Hn w) by (rewrite E; discriminate). rewrite E. reflexivity.
  - exfalso. apply H. reflexivity.
Qed.

Ltac grow :=
  repeat match goal with
    | |- refines ?n ?n => apply refines_refl
    | |- refines (and_then _ _) (and_then _ _) =>
        apply refines_and_then; [|intros ?]
    | |- refines (if ?c then _ else _) _ => destruct c
    | |- refines (match ?x with Some _ => _ | None => _ end) _ => destruct x
    | |- refines (let x := _ in _) _ => cbv zeta
    end.

Lemma refines_navigation (budget : nat) :
  forall budget', (budget <= budget')%nat ->
    refines (recipients_screen show budget)
            (recipients_screen show budget') /\
    forall r, refines (gift_list_screen show budget r)
                      (gift_list_screen show budget' r).
Proof.
  induction budget as [|b IH]; intros b' H.
  - split; [|intros r]; intros w U; exfalso; apply U; reflexivity.
  - destruct b' as [|b']; [lia|].
    destruct (IH b') as [IHr IHg]; [lia|].
    split; [|intros r].
    + cbn [recipients_screen]. grow. apply IHg.
    + cbn [gift_list_screen]. grow. apply IHr.
Qed.

Lemma refines_main_menu (budget budget' : nat) :
  (budget <= budget')%nat ->
  refines (main_menu show budget) (main_menu show budget').
Proof.
  intros H. unfold main_menu. grow. apply refines_navigation, H.
Qed.

Lemma refines_main_loop (budget : nat) :
  forall budget', (budget <= budget')%nat ->
    refines (main_loop show budget) (main_loop show budget').
Proof.
  induction budget as [|b IH]; intros b' H.
  - intros w U; exfalso; apply U; reflexivity.
  - destruct b' as [|b']; [lia|]. cbn [main_loop].
    apply refines_and_then; [apply refines_main_menu; lia | intros running].
    destruct running; [apply IH; lia | apply refines_refl].
Qed.

End Display.

(** ** A name that is there already *)

Lemma add_recipient_screen_existing d f n (line c : str) rest out :
  eqb (lower (strip line)) (lit "cancel") = false ->
  clean_text (strip line) <> [] ->
  strip c <> lit "2" ->
  In (clean_text (strip line)) (keys d) ->
  let name := clean_text (strip line) in
  let w' := snd (add_recipient_screen (World d f n (line :: c :: rest) out)) in
  keys (data w') = keys d /\
  In (nl ++ lit "Recipient " ++ quote ++ name ++ quote
      ++ lit " already exists." ++ nl) (stdout w').
Proof.
  intros H1 H2 H3 H4 name w'. apply eqb_neq in H2. apply eqb_neq in H3.
  subst w'. set (res := add_recipient_screen _).
  eassert (E : res = _).
  { unfold res, add_recipient_screen.
    do 2 step. rewrite H1. fold name in H2, H4 |- *. rewrite H2.
    cbv beta iota. do 3 step. rewrite H3. cbv beta iota.
    unfold bind at 1.
    match goal with
    | |- context [add_recipient_to_data name ?w1] =>
        rewrite (add_recipient_old w1 name H4)
    end.
    step. cbv beta. reflexivity. }
  rewrite E. clear E res.
  match goal with
  | |- context [snd (?t ?w1)] => set (tail := t); set (w2 := w1)
  end.
  assert (G : always gifts_added tail).
  { unfold tail.
    repeat (apply gifts_added_bind; [apply gifts_added_print | intros _]).
    apply gifts_added_bind; [apply gifts_added_get_input | intros x].
    destruct (eqb x (lit "1")).
    - apply add_gift_screen_gifts_added.
    - intros w; apply gifts_added_refl. }
  assert (F : always forward tail).
  { unfold tail.
    repeat (apply (always_bind forward forward_trans);
            [apply forward_print | intros _]).
    apply (always_bind forward forward_trans);
      [apply (kept_get_input forward forward_refl forward_trans
                forward_input) | intros x].
    destruct (eqb x (lit "1")).
    - exact (kept_add_gift_screen forward forward_refl forward_trans
               forward_print forward_input
               (fun r g o _ _ => forward_add_gift r g o) name).
    - intros w; apply forward_refl. }
  destruct (G w2) as (K & _ & _). destruct (F w2) as (_ & printed & O).
  split; [exact K|].
  rewrite O. apply in_or_app. right. left. reflexivity.
Qed.

(** ** The earlier copy only talks *)

Lemma draft_main_menu_same_store : always same_store Draft.main_menu.
Proof.
  unfold Draft.main_menu, Draft.recipients_screen, Draft.add_recipient_screen.
  repeat match goal with
    | |- always same_store (bind (print _) _) =>
        apply (always_bind same_store same_store_trans);
          [apply (always_print same_store same_store_console) | intros _]
    | |- always same_store (bind (get_input _) _) =>
        apply (always_bind same_store same_store_trans);
          [apply (always_get_input same_store same_store_refl
                    same_store_trans same_store_console) | intros ?]
    | |- always same_store (bind (int _) _) =>
        apply (always_bind same_store same_store_trans);
          [apply (always_int same_store same_store_refl) | intros ?]
    | |- always same_store (bind (ret _) _) =>
        apply (always_bind same_store same_store_trans);
          [apply (always_ret same_store same_store_refl) | intros ?]
    | |- always same_store (ret _) =>
        apply (always_ret same_store same_store_refl)
    | |- always same_store (if ?b then _ else _) => destruct b
    end.
Qed.

Lemma draft_main_loop_same_store (budget : nat) :
  always_n same_store (Draft.main_loop budget).
Proof.
  induction budget as [|b IH]; simpl.
  - apply (always_n_unfinished same_store same_store_refl).
  - apply (always_n_and_then same_store same_store_trans).
    + apply always_n_lift, draft_main_menu_same_store.
    + intros running. destruct running; [exact IH|].
      apply (always_n_finish same_store same_store_refl).
Qed.

End Routes.

(* ================================================================== *)
(** * Whole runs *)
(* ================================================================== *)

Module Runs.
Import Str Py Json Run Gift Spec Menu Nav Whole.
Import StrFacts DictFacts TextFacts Ops Screens Loading.
Import Closure Kept Triples Budget Faults Helpers Loaded Routes.

Lemma disk_of_world d f n i o : disk (World d f n i o) = f.
Proof. reflexivity. Qed.

Lemma run_program_from (show : value -> str) (budget : nat) (w : world)
      (d : dict) :
  load_data w = (Return d, w) ->
  run_program show budget w
  = main_loop show budget
      (World d (disk w) (writes w) (stdin w) (stdout w)).
Proof.
  intros H. unfold run_program, and_then, lift. rewrite H. reflexivity.
Qed.

Lemma run_program_undecodable (show : value -> str) (budget : nat)
      (w : world) (e : exn) :
  load_data w = (Raise e, w) ->
  run_program show budget w = (Failed (Exn e), w).
Proof.
  intros H. unfold run_program, and_then, lift. rewrite H. reflexivity.
Qed.

Lemma draft_run_program_from (budget : nat) (w : world) (d : dict) :
  Draft.load_data w = (Return d, w) ->
  Draft.run_program budget w
  = Draft.main_loop budget
      (World d (disk w) (writes w) (stdin w) (stdout w)).
Proof.
  intros H. unfold Draft.run_program, and_then, lift. rewrite H. reflexivity.
Qed.

Lemma misread_not_plain (line : str) :
  misread line -> plain_digits line = false.
Proof.
  intros [H1 H2]. destruct (plain_digits line) eqn:P; [|reflexivity].
  apply plain_digits_strip in P.
  rewrite (to_int_is_number _ H1) in H2.
  rewrite (is_number_plain _ H1) in P.
  destruct (digits_value_decimal (strip line) 0 false P) as [n E].
  - left. intros E. rewrite E in H1. discriminate H1.
  - rewrite E in H2. discriminate H2.
Qed.

Section Display.
Variable show : value -> str.

Lemma screens_keep (R : world -> world -> Prop) :
  (forall w, R w w) -> (forall a b c, R a b -> R b c -> R a c) ->
  (forall s, always R (print s)) -> (forall p, always R (input p)) ->
  (forall name, accepted name = true ->
     always R (add_recipient_to_data name)) ->
  (forall r g o, accepted g = true -> occasion_form o ->
     always R (add_gift_to_recipient r g o)) ->
  always R add_recipient_screen /\
  (forall r, always R (add_gift_screen r)) /\
  forall budget,
    always_n R (recipients_screen show budget) /\
    (forall r, always_n R (gift_list_screen show budget r)) /\
    always_n R (main_menu show budget) /\
    always_n R (main_loop show budget).
Proof.
  intros H1 H2 H3 H4 H5 H6.
  split; [apply kept_add_recipient_screen; assumption|].
  split; [intros r; apply kept_add_gift_screen; assumption|].
  intros budget.
  split; [apply kept_navigation; assumption|].
  split; [apply kept_navigation; assumption|].
  split; [apply kept_main_menu | apply kept_main_loop]; assumption.
Qed.

(** However the loop ends, what is known of the document all along is
    still known, and a failure is one that the lines explain. *)
Lemma main_loop_sound (good : dict -> Prop) (budget : nat) (w : world) :
  (forall d, good d -> shaped d = true) ->
  (forall d c, good d -> typed (stdin w) c -> ~ In (clean_text c) (keys d) ->
     good (d ++ [(clean_text c, VList [])])) ->
  (forall d r gifts c o,
     good d -> getitem r d = Some (VList gifts) ->
     typed (stdin w) c -> chosen (stdin w) o ->
     good (setitem r (VList (gifts ++ [gift_obj (clean_text c) o])) d)) ->
  good (data w) ->
  good (data (snd (main_loop show budget w))) /\
  forall f, fst (main_loop show budget w) = Failed f -> expected (stdin w) f.
Proof.
  intros H1 H2 H3 G.
  pose proof (expect_main_loop (stdin w) show good H1 H2 H3 budget w) as H.
  assert (S : sound good (stdin w) whatever w).
  { split; [exact G | split; [exact I | exists []; reflexivity]]. }
  specialize (H S).
  destruct (main_loop show budget w) as [[a|f0|] w1]; cbn [fst snd].
  - split; [apply H | discriminate].
  - destruct H as [He Hs]. split; [apply Hs|]. intros f [= <-]. exact He.
  - split; [apply H | discriminate].
Qed.

Lemma shaped_append (d : dict) (r g o : str) (gifts : list value) :
  shaped d = true -> getitem r d = Some (VList gifts) ->
  shaped (setitem r (VList (gifts ++ [gift_obj g o])) d) = true.
Proof.
  intros S E. apply shaped_setitem; [exact S|].
  destruct (shaped_lookup d r S) as (gifts' & E' & G).
  { eapply getitem_Some_In; exact E. }
  rewrite E in E'. injection E' as <-.
  simpl. rewrite forallb_app, G. reflexivity.
Qed.

Lemma main_loop_expected (budget : nat) (w : world) :
  shaped (data w) = true ->
  forall f, fst (main_loop show budget w) = Failed f -> expected (stdin w) f.
Proof.
  intros S.
  apply (main_loop_sound (fun d => shaped d = true) budget w).
  - trivial.
  - intros d c H _ _. apply shaped_new, H.
  - intros d r gifts c o H E _ _. apply shaped_append; assumption.
  - exact S.
Qed.

(** With lines of text that survives the file, a document that survives
    the file stays one, however the loop ends. *)
Lemma main_loop_document (budget : nat) (w : world) :
  Forall str_ok (stdin w) -> document (data w) ->
  document (data (snd (main_loop show budget w))).
Proof.
  intros L D.
  apply (main_loop_sound document budget w).
  - apply document_shaped.
  - intros d c H T I. apply document_new; [exact H | | exact I].
    apply (typed_str_ok (stdin w)); assumption.
  - intros d r gifts c o H E T C.
    apply document_append; [exact H | exact E | |].
    + apply (typed_str_ok (stdin w)); assumption.
    + apply (chosen_str_ok (stdin w)); assumption.
  - exact D.
Qed.

Lemma main_loop_ends (budget : nat) (w : world) :
  (length (stdin w) < budget)%nat ->
  fst (main_loop show budget w) <> Unfinished.
Proof.
  intros L E.
  pose proof (paced_main_loop show budget budget (le_n _) w L) as H.
  destruct (main_loop show budget w) as [[a|f0|] w1]; try discriminate E.
  exact H.
Qed.

Lemma main_loop_ends_well (budget : nat) (w : world) :
  shaped (data w) = true ->
  Forall (fun line => plain_digits line = true) (stdin w) ->
  (length (stdin w) < budget)%nat ->
  fst (main_loop show budget w) = Finished tt \/
  fst (main_loop show budget w) = Failed (Exn EOFError).
Proof.
  intros S P L.
  pose proof (main_loop_ends budget w L) as U.
  pose proof (main_loop_expected budget w S) as F.
  destruct (fst (main_loop show budget w)) as [[]|f|];
    [left; reflexivity | right | congruence].
  destruct (F f eq_refl) as [->|[_ M]]; [reflexivity|].
  exfalso. apply Exists_exists in M. destruct M as (line & I & M).
  apply misread_not_plain in M.
  rewrite Forall_forall in P. rewrite (P line I) in M. discriminate M.
Qed.

End Display.

End Runs.

(* ================================================================== *)
(** * Further properties of the program *)
(* ================================================================== *)

Import Menu Nav Whole.
Import Closure Kept Triples Budget Faults Helpers Order Loaded Routes Runs.

(** ** The helpers *)

(** X1.  [clean_text] returns the words of the text (its maximal runs of
    characters that are not whitespace) joined by single spaces: the
    final [strip()] of the source has nothing left to remove.  The words
    of the result are the words of the text, and cleaning a second time
    changes nothing. *)
Theorem clean_text_words (t : str) :
  clean_text t = join (lit " ") (split t) /\
  split (clean_text t) = split t /\
  clean_text (clean_text t) = clean_text t.
Proof.
  assert (E : clean_text t = join (lit " ") (split t))
    by apply clean_text_join.
  assert (S : split (clean_text t) = split t)
    by (rewrite E; apply split_join, split_words).
  repeat split; [exact E | exact S |].
  rewrite (clean_text_join (clean_text t)), S. symmetry; exact E.
Qed.

(** X2.  [clean_text] returns the empty string exactly for a text that
    holds nothing but whitespace (the empty text included): these are the
    names, gift ideas and occasion labels that the screens refuse. *)
Theorem clean_text_blank (t : str) :
  clean_text t = [] <-> forallb isspace t = true.
Proof.
  rewrite clean_text_join. split.
  - intros H. destruct (split t) as [|w ws] eqn:E.
    + apply (split_from_nil t []). exact E.
    + exfalso.
      destruct (words_head (w :: ws)) as (c & s & E' & _);
        [rewrite <- E; apply split_words | discriminate | congruence].
  - intros H. rewrite (split_blank t H). reflexivity.
Qed.

(** X3.  What [int] makes of a text that [is_number] accepts.  Such a text
    is never changed by stripping and has no sign; [int] reads it, as a
    number that is not negative, when all its characters are decimal
    digits, and raises [ValueError] when one of them is a digit of another
    kind (a superscript, a circled digit).  (For a text within the limit
    that the interpreter puts on the digits of a number, 4300 by default;
    the model of [int] has no such limit.) *)
Theorem is_number_then_int (t : str) :
  is_number t = true -> within_limit t ->
  strip t = t /\
  (plain_digits t = true -> exists z, to_int t = Some z /\ (0 <= z)%Z) /\
  (plain_digits t = false -> to_int t = None).
Proof.
  intros H _. split; [apply is_number_keeps, H|].
  rewrite (to_int_is_number t H), (is_number_plain t H). split; intros P.
  - destruct (digits_value_decimal t 0 false P) as [n ->].
    { left. intros ->. discriminate H. }
    exists (Z.of_N n). split; [reflexivity | lia].
  - rewrite (digits_value_other t 0 false); [reflexivity | | exact P].
    unfold is_number, isdigit in H. destruct t; [discriminate | exact H].
Qed.

Lemma is_number_then_int_witness :
  (strip (lit "42") = lit "42" /\
   (plain_digits (lit "42") = true ->
    exists z, to_int (lit "42") = Some z /\ (0 <= z)%Z) /\
   (plain_digits (lit "42") = false -> to_int (lit "42") = None)) /\
  (strip [178%N] = [178%N] /\
   (plain_digits [178%N] = true ->
    exists z, to_int [178%N] = Some z /\ (0 <= z)%Z) /\
   (plain_digits [178%N] = false -> to_int [178%N] = None)).
Proof.
  split.
  - apply (is_number_then_int (lit "42"));
      [reflexivity | unfold within_limit; simpl; lia].
  - apply (is_number_then_int [178%N]);
      [reflexivity | unfold within_limit; simpl; lia].
Defined.

(** ** The operations *)

(** X4.  The recipients list depends on the names only, not on the order
    in which they were added: two documents with the same keys, in any
    order, give the same list. *)
Theorem list_recipients_any_order (d d' : dict) :
  Permutation (keys d) (keys d') -> list_recipients d = list_recipients d'.
Proof.
  intros P. unfold list_recipients.
  apply sorted_unique; try apply sort_sorted.
  rewrite <- (sort_perm (keys d)), <- (sort_perm (keys d')). exact P.
Qed.

Lemma list_recipients_any_order_witness :
  list_recipients [(lit "Zed", VList []); (lit "Bob", VNone)]
  = list_recipients [(lit "Bob", VList []); (lit "Zed", VList [])].
Proof.
  apply (list_recipients_any_order
           [(lit "Zed", VList []); (lit "Bob", VNone)]
           [(lit "Bob", VList []); (lit "Zed", VList [])]).
  simpl. apply perm_swap.
Defined.

(** X5.  After [add_recipient_to_data] has added a new name, the
    recipients list is the earlier list with the name inserted at its
    place in the order: the other recipients keep their relative order,
    and those that come before the new name keep their menu number. *)
Theorem list_recipients_after_add (w : world) (name : str) :
  ~ In name (keys (data w)) ->
  list_recipients (data (snd (add_recipient_to_data name w)))
  = insert_sorted name (list_recipients (data w)).
Proof.
  intros H. rewrite (add_recipient_new w name H). cbn [snd data].
  unfold list_recipients, keys. rewrite map_app. apply sort_insert.
Qed.

Lemma list_recipients_after_add_witness :
  list_recipients
    (data (snd (add_recipient_to_data (lit "Mom")
                  (World [(lit "Zed", VList []); (lit "Bob", VList [])]
                         None 0 [] []))))
  = insert_sorted (lit "Mom")
      (list_recipients [(lit "Zed", VList []); (lit "Bob", VList [])]).
Proof.
  apply (list_recipients_after_add
           (World [(lit "Zed", VList []); (lit "Bob", VList [])]
                  None 0 [] [])
           (lit "Mom")).
  simpl. intros [H|[H|[]]]; discriminate H.
Defined.

(** ** Loading and saving *)

(** X6.  The earlier copy of the program catches every exception in
    [load_data]: it never raises, leaves the world as it is, returns what
    the later copy returns, and returns the empty dict where the later
    copy raises. *)
Theorem draft_load_data_catches_all (w : world) :
  Draft.load_data w
  = (match fst (load_data w) with
     | Return d => Return d
     | Raise _ => Return []
     end, w).
Proof.
  rewrite draft_load_data.
  rewrite (surjective_pairing (load_data w)), load_data_frame.
  destruct (fst (load_data w)); reflexivity.
Qed.

(** X7.  [save_data] cannot fail on what the dict holds: the printed
    document is plain ASCII, every byte of the file being a line feed or a
    printable ASCII character (other characters of names and ideas, lone
    surrogates included, are written as escapes), so that encoding it
    never raises.  The dict and the console are not touched, and the file
    has been written once more.  (The disk of the model can always be
    written.) *)
Theorem save_data_writes_plain_ascii (w : world) :
  save_data w
  = (Return tt,
     World (data w) (Some (saved (data w))) (S (writes w))
           (stdin w) (stdout w)) /\
  Forall (fun b => is_plain (Byte.to_N b) = true) (saved (data w)).
Proof.
  split; [apply save_data_run|].
  unfold saved. apply Forall_map.
  pose proof (plain_dumps (VDict (data w))) as P.
  pose proof (plain_lt _ P) as L.
  unfold plain in P. rewrite forallb_forall in P.
  rewrite Forall_forall in L |- *. intros c I.
  rewrite to_N_byte_of_N by (specialize (L c I); simpl in L; lia).
  apply P, I.
Qed.

(** ** The screens *)

(** X8.  A blank line (nothing but whitespace, or nothing at all) at the
    name prompt of the add-recipient screen or at the idea prompt of the
    add-gift screen ends the screen at once: one line has been read, the
    message that the text cannot be empty is the last thing printed, and
    the dict, the file and the number of writes are as they were. *)
Theorem blank_line_adds_nothing (w : world) (line : str) (rest : list str) :
  stdin w = line :: rest ->
  forallb isspace line = true ->
  (exists printed,
     add_recipient_screen w
     = (Return tt,
        World (data w) (disk w) (writes w) rest
              ((nl ++ lit "Recipient name cannot be empty." ++ nl)
               :: printed))) /\
  (forall r, exists printed,
     add_gift_screen r w
     = (Return tt,
        World (data w) (disk w) (writes w) rest
              ((nl ++ lit "Gift idea cannot be empty." ++ nl) :: printed))).
Proof.
  intros Hin H. destruct w as [d f n i o]; simpl in Hin; subst i.
  split; [|intros r].
  - unfold add_recipient_screen. do 2 step.
    rewrite (strip_blank line H). eexists; reflexivity.
  - unfold add_gift_screen. do 2 step.
    rewrite (strip_blank line H). eexists; reflexivity.
Qed.

Lemma blank_line_adds_nothing_witness :
  let w := World [(lit "Mom", VList [])] None 0 [lit "  "; lit "x"] [] in
  (exists printed,
     add_recipient_screen w
     = (Return tt,
        World (data w) (disk w) (writes w) [lit "x"]
              ((nl ++ lit "Recipient name cannot be empty." ++ nl)
               :: printed))) /\
  (forall r, exists printed,
     add_gift_screen r w
     = (Return tt,
        World (data w) (disk w) (writes w) [lit "x"]
              ((nl ++ lit "Gift idea cannot be empty." ++ nl) :: printed))).
Proof.
  intros w.
  apply (blank_line_adds_nothing w (lit "  ") [lit "x"]); reflexivity.
Defined.

(** X9.  A name that is in the dict already (after the whitespace of the
    line typed has been cleaned) is not added again: when the screen is
    confirmed it prints that the recipient already exists, and the dict
    has the same keys when the screen ends, whatever is typed next. *)
Theorem existing_name_not_added (w : world) (line c : str) (rest : list str) :
  stdin w = line :: c :: rest ->
  eqb (lower (strip line)) (lit "cancel") = false ->
  clean_text (strip line) <> [] ->
  strip c <> lit "2" ->
  In (clean_text (strip line)) (keys (data w)) ->
  let name := clean_text (strip line) in
  let w' := snd (add_recipient_screen w) in
  keys (data w') = keys (data w) /\
  In (nl ++ lit "Recipient " ++ quote ++ name ++ quote
      ++ lit " already exists." ++ nl) (stdout w').
Proof.
  intros Hin. destruct w as [d f n i o]; simpl in Hin; subst i.
  apply add_recipient_screen_existing.
Qed.

Lemma existing_name_not_added_witness :
  let w := World [(lit "Aunt May", VList [])] None 0
                 [lit "  Aunt   May "; lit ""; lit "0"] [] in
  let name := clean_text (strip (lit "  Aunt   May ")) in
  let w' := snd (add_recipient_screen w) in
  keys (data w') = keys (data w) /\
  In (nl ++ lit "Recipient " ++ quote ++ name ++ quote
      ++ lit " already exists." ++ nl) (stdout w').
Proof.
  intros w.
  apply (existing_name_not_added w (lit "  Aunt   May ") (lit "")
           [lit "0"]); try reflexivity; try discriminate.
  left; reflexivity.
Defined.

(** X10.  Choosing, on the recipients screen, the number shown beside a
    recipient opens the gifts screen of that recipient: when the line
    typed is a number [z] from 1 to the number of recipients, the screen
    has printed the line "[z] name" for the [z]-th name of the sorted
    list, and goes on as the gifts screen of that name. *)
Theorem recipients_screen_opens_numbered
    (show : value -> str) (budget : nat) (w : world)
    (line : str) (rest : list str) (z : Z) (name : str) :
  stdin w = line :: rest -> within_limit line ->
  is_number (strip line) = true -> to_int (strip line) = Some z ->
  (1 <= z)%Z ->
  nth_error (list_recipients (data w)) (Z.to_nat (z - 1)) = Some name ->
  exists printed,
    recipients_screen show (S budget) w
    = gift_list_screen show budget name
        (World (data w) (disk w) (writes w) rest printed) /\
    In (lit "[" ++ decimal z ++ lit "] " ++ name) printed.
Proof.
  intros Hin _. destruct w as [d f n i o]; simpl in Hin; subst i.
  apply recipients_screen_choice.
Qed.

Lemma recipients_screen_opens_numbered_witness :
  let w := World [(lit "Zed", VList []); (lit "Bob", VList [])] None 0
                 [lit " 2 "; lit "0"] [] in
  exists printed,
    recipients_screen (fun _ => []) 3 w
    = gift_list_screen (fun _ => []) 2 (lit "Zed")
        (World (data w) (disk w) (writes w) [lit "0"] printed) /\
    In (lit "[" ++ decimal 2 ++ lit "] " ++ lit "Zed") printed.
Proof.
  intros w.
  apply (recipients_screen_opens_numbered (fun _ => []) 2 w (lit " 2 ")
           [lit "0"] 2 (lit "Zed")); try reflexivity.
  - unfold within_limit; simpl; lia.
  - lia.
Defined.

(** X11.  The answers that lead nowhere on the recipients screen.  With no
    recipients, any line but "1"; with recipients, a line that is not all
    digits, the number 0, or a number above the one of the add option:
    the screen returns (to the main menu) without an error, one line has
    been read, and the dict and the file are as they were. *)
Theorem recipients_screen_other_answers
    (show : value -> str) (budget : nat) (w : world)
    (line : str) (rest : list str) :
  stdin w = line :: rest -> within_limit line ->
  (list_recipients (data w) = [] /\ strip line <> lit "1") \/
  (list_recipients (data w) <> [] /\
   (is_number (strip line) = false \/
    exists z,
      is_number (strip line) = true /\ to_int (strip line) = Some z /\
      (z = 0 \/
       Z.of_nat (length (list_recipients (data w))) + 1 < z)%Z))
  ->
  exists printed,
    recipients_screen show (S budget) w
    = (Finished tt, World (data w) (disk w) (writes w) rest printed).
Proof.
  intros Hin _ H. destruct w as [d f n i o]; simpl in Hin; subst i.
  cbn [data disk writes] in *.
  destruct H as [[E H]|[E [H|(z & H1 & H2 & H3)]]].
  - apply recipients_screen_empty; assumption.
  - apply recipients_screen_not_number; assumption.
  - apply recipients_screen_out_of_range with z; assumption.
Qed.

Lemma recipients_screen_other_answers_witness :
  let w := World [(lit "Mom", VList [])] None 0 [lit "7"; lit "0"] [] in
  exists printed,
    recipients_screen (fun _ => []) 2 w
    = (Finished tt, World (data w) (disk w) (writes w) [lit "0"] printed).
Proof.
  intros w.
  apply (recipients_screen_other_answers (fun _ => []) 1 w (lit "7")
           [lit "0"]); [reflexivity | unfold within_limit; simpl; lia |].
  right. split; [discriminate|]. right. exists 7%Z.
  split; [reflexivity|]. split; [reflexivity|]. right. simpl. lia.
Defined.

(** X12.  The gifts screen of a recipient whose gifts are records prints
    its heading, one line "- idea (occasion)" for each gift, in the order
    of the list (or the notice that there are none), and its menu; it
    then reads one line: "1" opens the add-gift screen of the recipient,
    "2" the recipients screen, anything else returns.  Up to there the
    dict and the file are as they were. *)
Theorem gift_list_screen_shows_gifts
    (show : value -> str) (budget : nat) (w : world) (r line : str)
    (rest : list str) (pairs : list (str * str)) :
  stdin w = line :: rest ->
  getitem r (data w) = Some (VList (map record_of pairs)) ->
  let w1 := World (data w) (disk w) (writes w) rest
                  (gifts_page r pairs ++ stdout w) in
  gift_list_screen show (S budget) r w
  = if eqb (strip line) (lit "1") then lift (add_gift_screen r) w1
    else if eqb (strip line) (lit "2") then recipients_screen show budget w1
    else (Finished tt, w1).
Proof.
  intros Hin. destruct w as [d f n i o]; simpl in Hin; subst i.
  apply gift_list_screen_run.
Qed.

Lemma gift_list_screen_shows_gifts_witness :
  let pairs := [(lit "Scarf", lit "Birthday"); (lit "Book", lit "Christmas")] in
  let w := World [(lit "Mom", VList (map record_of pairs))] None 0
                 [lit "0"; lit "x"] [] in
  let w1 := World (data w) (disk w) (writes w) [lit "x"]
                  (gifts_page (lit "Mom") pairs ++ stdout w) in
  gift_list_screen (fun _ => []) 1 (lit "Mom") w
  = if eqb (strip (lit "0")) (lit "1")
    then lift (add_gift_screen (lit "Mom")) w1
    else if eqb (strip (lit "0")) (lit "2")
         then recipients_screen (fun _ => []) 0 w1
         else (Finished tt, w1).
Proof.
  intros pairs w.
  apply (gift_list_screen_shows_gifts (fun _ => []) 0 w (lit "Mom") (lit "0")
           [lit "x"] pairs); reflexivity.
Defined.

(** X13.  A gift that is not a record stops the gifts screen.  After the
    heading and the lines of the gifts before it, the screen fails: with
    [TypeError] when the gift is not a dict, with [KeyError] when it is a
    dict without an "idea" or without an "occasion".  Nothing has been
    read, and the dict and the file are untouched.  ([load_data] lets such
    gifts through: it only sees to it that every recipient has a list.) *)
Theorem gift_list_screen_malformed_gift
    (show : value -> str) (budget : nat) (w : world) (r : str)
    (pairs : list (str * str)) (bad : value) (more : list value) :
  getitem r (data w) = Some (VList (map record_of pairs ++ bad :: more)) ->
  let w1 :=
    World (data w) (disk w) (writes w) (stdin w)
          (rev (map gift_line pairs)
           ++ (nl ++ lit "Gift Ideas for " ++ r ++ lit ":" ++ nl)
           :: stdout w) in
  (is_dict bad = false ->
   gift_list_screen show (S budget) r w = (Failed TypeError, w1)) /\
  (forall entries,
     bad = VDict entries ->
     (contains (lit "idea") entries && contains (lit "occasion") entries)%bool
     = false ->
     gift_list_screen show (S budget) r w = (Failed (Exn KeyError), w1)).
Proof. apply gift_list_screen_stops. Qed.

Lemma gift_list_screen_malformed_gift_witness :
  let w := World [(lit "Mom",
                   VList [gift_obj (lit "Scarf") (lit "Birthday"); VInt 1])]
                 None 0 [lit "0"] [] in
  gift_list_screen (fun _ => []) 1 (lit "Mom") w
  = (Failed TypeError,
     World (data w) (disk w) (writes w) (stdin w)
           (rev (map gift_line [(lit "Scarf", lit "Birthday")])
            ++ (nl ++ lit "Gift Ideas for " ++ lit "Mom" ++ lit ":" ++ nl)
            :: stdout w)).
Proof.
  intros w.
  apply (proj1 (gift_list_screen_malformed_gift (fun _ => []) 0 w (lit "Mom")
                  [(lit "Scarf", lit "Birthday")] (VInt 1) [] eq_refl)).
  reflexivity.
Defined.

(** X14.  The main menu returns [False], which ends the loop of
    [run_program], in one case only: the line typed, once stripped, is all
    digits and [int] reads it as 0.  It has then printed its farewell,
    read that one line, and left the dict and the file as they were. *)
Theorem main_menu_exit_only_zero
    (show : value -> str) (budget : nat) d f n (line : str) rest out :
  within_limit line ->
  let w := World d f n (line :: rest) out in
  (fst (main_menu show budget w) = Finished false <->
   is_number (strip line) = true /\ to_int (strip line) = Some 0%Z) /\
  (fst (main_menu show budget w) = Finished false ->
   exists printed,
     snd (main_menu show budget w)
     = World d f n rest ((nl ++ lit "Goodbye!" ++ nl) :: printed)).
Proof.
  intros _ w.
  assert (H : fst (main_menu show budget w) = Finished false ->
              is_number (strip line) = true /\
              to_int (strip line) = Some 0%Z)
    by apply main_menu_leaves.
  split; [split; [exact H|] | intros E; apply H in E].
  - intros [E1 E2].
    destruct (main_menu_exit show budget d f n line rest out E1 E2)
      as [o E].
    unfold w. rewrite E. reflexivity.
  - destruct E as [E1 E2].
    destruct (main_menu_exit show budget d f n line rest out E1 E2)
      as [o E].
    exists o. unfold w. rewrite E. reflexivity.
Qed.

Lemma main_menu_exit_only_zero_witness :
  let w := World [(lit "Mom", VList [])] None 0 [lit " 0 "; lit "x"] [] in
  (fst (main_menu (fun _ => []) 3 w) = Finished false <->
   is_number (strip (lit " 0 ")) = true /\
   to_int (strip (lit " 0 ")) = Some 0%Z) /\
  (fst (main_menu (fun _ => []) 3 w) = Finished false ->
   exists printed,
     snd (main_menu (fun _ => []) 3 w)
     = World [(lit "Mom", VList [])] None 0 [lit "x"]
             ((nl ++ lit "Goodbye!" ++ nl) :: printed)).
Proof.
  intros w.
  apply (main_menu_exit_only_zero (fun _ => []) 3 [(lit "Mom", VList [])]
           None 0 (lit " 0 ") [lit "x"] []).
  unfold within_limit; simpl; lia.
Defined.

(** ** Whole runs *)

(** X15.  Nothing is ever removed or changed.  Whatever is typed, and
    whether a screen returns or fails, every recipient that was in the
    dict is still there, in the same place, with the gifts it had, in the
    same order, at the front of its list; recipients can only have been
    added after the earlier ones and gifts after the earlier gifts.  This
    holds of every screen, of the main menu and of the loop of
    [run_program]. *)
Theorem screens_never_remove (show : value -> str) :
  always kept add_recipient_screen /\
  (forall r, always kept (add_gift_screen r)) /\
  forall budget,
    always_n kept (recipients_screen show budget) /\
    (forall r, always_n kept (gift_list_screen show budget r)) /\
    always_n kept (main_menu show budget) /\
    always_n kept (main_loop show budget).
Proof.
  apply screens_keep.
  - apply kept_refl.
  - apply kept_trans.
  - apply kept_print.
  - apply kept_input.
  - intros name _. apply kept_add_recipient.
  - intros r g o _ _. apply kept_add_gift.
Qed.

(** X16.  The file follows the dict.  Whatever is typed, and whether a
    screen returns or fails, either nothing has happened to the dict and
    the file (and the file has not been written), or the file has been
    written and holds exactly the dict as it now is: no change of the dict
    is ever left unsaved.  (The disk of the model can always be
    written, and the interpreter's limit on nested calls, which could
    interrupt a save, is not modelled.) *)
Theorem screens_keep_file_in_step (show : value -> str) :
  always in_step add_recipient_screen /\
  (forall r, always in_step (add_gift_screen r)) /\
  forall budget,
    always_n in_step (recipients_screen show budget) /\
    (forall r, always_n in_step (gift_list_screen show budget r)) /\
    always_n in_step (main_menu show budget) /\
    always_n in_step (main_loop show budget).
Proof.
  apply screens_keep.
  - apply in_step_refl.
  - apply in_step_trans.
  - apply in_step_print.
  - apply in_step_input.
  - intros name _. apply in_step_add_recipient.
  - intros r g o _ _. apply in_step_add_gift.
Qed.


(** X18.  A data file that is not valid UTF-8 stops the program before it
    starts: [run_program] fails with the [UnicodeDecodeError] that
    [load_data] lets through, nothing has been printed or read, and the
    file is untouched. *)
Theorem run_program_undecodable_file
    (show : value -> str) (budget : nat) (w : world)
    (bytes : list Utf8.byte) :
  disk w = Some bytes -> Utf8.decode bytes = None ->
  run_program show budget w = (Failed (Exn UnicodeDecodeError), w).
Proof.
  intros H1 H2. apply run_program_undecodable.
  apply load_data_undecodable with bytes; assumption.
Qed.

Lemma run_program_undecodable_file_witness :
  let w := World [] (Some [Byte.xc3; Byte.x28]) 0 [lit "0"] [] in
  run_program (fun _ => []) 2 w = (Failed (Exn UnicodeDecodeError), w).
Proof.
  intros w.
  apply (run_program_undecodable_file (fun _ => []) 2 w
           [Byte.xc3; Byte.x28]); reflexivity.
Defined.

(** X19.  What [load_data] returned is never lost, and the file is only
    ever replaced by the whole dict.  In a run of [run_program] in which
    [load_data] returns [d] (the empty dict when there is no file or when
    the file does not hold a JSON object; the document itself, by C2, when
    the file is one the program wrote), however the run goes and wherever
    it stops, the dict extends [d], and either the run has written
    nothing, the dict being [d] and the file untouched, or the file holds
    the dict.  So a file that the program wrote is never left with less
    than it had, and a file that [load_data] read as empty is replaced at
    the first addition.  (The disk of the model can always be
    written, and the interpreter's limit on nested calls, which could
    interrupt a save, is not modelled.) *)
Theorem run_program_keeps_file
    (show : value -> str) (budget : nat) (w : world) (d : dict) :
  fst (load_data w) = Return d ->
  let w' := snd (run_program show budget w) in
  extends d (data w') /\
  ((data w' = d /\ disk w' = disk w /\ writes w' = writes w) \/
   (disk w' = Some (saved (data w')) /\ (writes w < writes w')%nat)).
Proof.
  intros H w'.
  assert (L : load_data w = (Return d, w)).
  { rewrite (surjective_pairing (load_data w)), load_data_frame, H.
    reflexivity. }
  unfold w'. rewrite (run_program_from show budget w d L).
  set (w1 := World d (disk w) (writes w) (stdin w) (stdout w)).
  split.
  - apply (kept_main_loop kept kept_refl kept_trans kept_print kept_input
             (fun name _ => kept_add_recipient name)
             (fun r g o _ _ => kept_add_gift r g o) show budget w1).
  - apply (kept_main_loop in_step in_step_refl in_step_trans in_step_print
             in_step_input (fun name _ => in_step_add_recipient name)
             (fun r g o _ _ => in_step_add_gift r g o) show budget w1).
Qed.

Lemma run_program_keeps_file_witness :
  let d := [(lit "Mom", VList [gift_obj (lit "Scarf") (lit "Birthday")])] in
  let w := World [] (Some (saved d)) 1
                 [lit "2"; lit "Dad"; lit ""; lit "0"; lit "0"] [] in
  let w' := snd (run_program (fun _ => []) 6 w) in
  extends d (data w') /\
  ((data w' = d /\ disk w' = disk w /\ writes w' = writes w) \/
   (disk w' = Some (saved (data w')) /\ (writes w < writes w')%nat)).
Proof.
  intros d w.
  apply (run_program_keeps_file (fun _ => []) 6 w d). reflexivity.
Defined.

(** X20.  Every screen reads a line before it opens another screen, so a
    run cannot go on for longer than its input: with fewer lines left than
    the budget, the loop of [run_program] comes to an end (by the exit, by
    the end of the input or by a failure) without using the budget up, and
    any larger budget gives the very same run. *)
Theorem budget_is_enough
    (show : value -> str) (budget budget' : nat) (w : world) :
  (length (stdin w) < budget)%nat -> (budget <= budget')%nat ->
  fst (main_loop show budget w) <> Unfinished /\
  main_loop show budget' w = main_loop show budget w.
Proof.
  intros L H.
  pose proof (main_loop_ends show budget w L) as U.
  split; [exact U|].
  apply (refines_main_loop show budget budget' H w U).
Qed.

Lemma budget_is_enough_witness :
  let w := World [(lit "Mom", VList [])] None 0
                 [lit "1"; lit "1"; lit "2"; lit "0"; lit "0"] [] in
  fst (main_loop (fun _ => []) 6 w) <> Unfinished /\
  main_loop (fun _ => []) 9 w = main_loop (fun _ => []) 6 w.
Proof.
  intros w. apply (budget_is_enough (fun _ => []) 6 9 w); simpl; lia.
Defined.

(** X21.  With a shaped document (every recipient has a list of records
    with a string for the idea and a string for the occasion, as the
    program writes them), the loop of [run_program] keeps the document
    shaped and can fail in two ways only: with [EOFError], when the input
    ends, or with [ValueError], and then one of the lines typed is, once
    stripped, all digits and not a number that [int] reads.  No
    [KeyError], [AttributeError], [TypeError] or [IndexError] can occur.
    (The lines are within the interpreter's limit on the digits of a
    number; its limit on nested calls, which by X20 a run of fewer lines
    than that limit stays under, and the encoding of the console are not
    modelled.) *)
Theorem shaped_run_fails_at_console_only
    (show : value -> str) (budget : nat) (w : world) :
  shaped (data w) = true -> Forall within_limit (stdin w) ->
  shaped (data (snd (main_loop show budget w))) = true /\
  forall f, fst (main_loop show budget w) = Failed f ->
    f = Exn EOFError \/
    (f = Exn ValueError /\
     Exists (fun line => is_number (strip line) = true /\
                         to_int (strip line) = None) (stdin w)).
Proof.
  intros S _. split.
  - apply (kept_main_loop tidy tidy_refl tidy_trans tidy_print tidy_input
             (fun name _ => tidy_add_recipient name)
             (fun r g o _ _ => tidy_add_gift r g o) show budget w S).
  - apply main_loop_expected, S.
Qed.

Lemma shaped_run_fails_at_console_only_witness :
  let w := World [(lit "Mom", VList [gift_obj (lit "Scarf") (lit "Birthday")])]
                 None 0 [lit "1"; [178%N]; lit "0"] [] in
  shaped (data (snd (main_loop (fun _ => []) 5 w))) = true /\
  forall f, fst (main_loop (fun _ => []) 5 w) = Failed f ->
    f = Exn EOFError \/
    (f = Exn ValueError /\
     Exists (fun line => is_number (strip line) = true /\
                         to_int (strip line) = None) (stdin w)).
Proof.
  intros w.
  apply (shaped_run_fails_at_console_only (fun _ => []) 5 w);
    [reflexivity|].
  repeat (apply Forall_cons; [unfold within_limit; simpl; lia|]).
  apply Forall_nil.
Defined.

(** X22.  A run of [run_program] that starts with the file the program
    wrote (or with no file), and is typed lines in which every digit is a
    decimal digit, ends in one of two ways: the user leaves by the main
    menu, or the input ends ([EOFError]).  (Under the provisos of
    X21.) *)
Theorem run_program_ends_well
    (show : value -> str) (budget : nat) (w : world) :
  disk w = None \/ (exists d, document d /\ disk w = Some (saved d)) ->
  Forall (fun line => plain_digits line = true /\ within_limit line)
         (stdin w) ->
  (length (stdin w) < budget)%nat ->
  fst (run_program show budget w) = Finished tt \/
  fst (run_program show budget w) = Failed (Exn EOFError).
Proof.
  intros H P L.
  assert (E : exists d, load_data w = (Return d, w) /\ shaped d = true).
  { destruct H as [H|(d & H1 & H2)].
    - exists []. split; [apply load_data_missing, H | reflexivity].
    - exists d. split; [apply load_saved; assumption|].
      apply document_shaped, H1. }
  destruct E as (d & E & S).
  rewrite (run_program_from show budget w d E).
  apply main_loop_ends_well; [exact S | | exact L].
  revert P. apply Forall_impl. tauto.
Qed.

Lemma run_program_ends_well_witness :
  let w := World [] None 0
                 [lit "2"; lit "Mom"; lit "1"; lit "1"; lit "Scarf"; lit "1";
                  lit ""; lit "0"] [] in
  fst (run_program (fun _ => []) 9 w) = Finished tt \/
  fst (run_program (fun _ => []) 9 w) = Failed (Exn EOFError).
Proof.
  intros w. apply (run_program_ends_well (fun _ => []) 9 w).
  - left; reflexivity.
  - repeat (apply Forall_cons;
            [split; [reflexivity | unfold within_limit; simpl; lia]|]).
    apply Forall_nil.
  - simpl; lia.
Defined.

(** X23.  When the loop of [run_program] ends without a failure, the last
    thing printed is the farewell of the main menu: a run ends normally
    only through the exit of the main menu. *)
Theorem normal_end_says_goodbye
    (show : value -> str) (budget : nat) (w : world) :
  fst (main_loop show budget w) = Finished tt ->
  exists printed,
    stdout (snd (main_loop show budget w))
    = (nl ++ lit "Goodbye!" ++ nl) :: printed.
Proof.
  intros E.
  pose proof (main_loop_goodbye show budget w I) as H.
  destruct (main_loop show budget w) as [[a|f|] w1]; try discriminate E.
  exact H.
Qed.

Lemma normal_end_says_goodbye_witness :
  let w := World [] None 0 [lit "7"; lit "x"; lit " 0 "] [] in
  exists printed,
    stdout (snd (main_loop (fun _ => []) 4 w))
    = (nl ++ lit "Goodbye!" ++ nl) :: printed.
Proof.
  intros w. apply (normal_end_says_goodbye (fun _ => []) 4 w). reflexivity.
Defined.

(** X24.  The earlier copy of the program, whose screens are not written
    yet, only talks: whatever is typed and however the run ends, the file
    is never written, and the dict is what [load_data] returned. *)
Theorem draft_run_only_talks (budget : nat) (w : world) :
  let w' := snd (Draft.run_program budget w) in
  disk w' = disk w /\ writes w' = writes w /\
  Draft.load_data w = (Return (data w'), w).
Proof.
  intros w'.
  pose proof (draft_load_data w) as L.
  rewrite (surjective_pairing (load_data w)), load_data_frame in L.
  set (d := match fst (load_data w) with Return d => d | Raise _ => [] end).
  assert (E : Draft.load_data w = (Return d, w)).
  { rewrite L. unfold d. destruct (fst (load_data w)); reflexivity. }
  unfold w'. rewrite (draft_run_program_from budget w d E).
  destruct (draft_main_loop_same_store budget
              (World d (disk w) (writes w) (stdin w) (stdout w)))
    as (D & F & W).
  cbn [data disk writes] in D, F, W. rewrite D, F, W.
  repeat split. exact E.
Qed.

(** X25.  What a run leaves is what the next run finds.  Take a run of
    [run_program] whose [load_data] returned a document (the empty dict
    when there is no file) and whose typed lines are text that survives
    the file (code points in which no high surrogate is directly followed
    by a low one, as is all text that a console delivers).  However the
    run goes and wherever it stops (exit, end of input, failure),
    [load_data] on the file it leaves returns exactly the dict the run
    had in memory, in any world [v] that has that file, whatever the
    dict and the console of [v]: nothing that was added is lost by a
    restart.  (The disk of the model can always be written, and the
    interpreter's limit on nested calls, which could interrupt a save, is
    not modelled.) *)
Theorem restart_finds_the_same
    (show : value -> str) (budget : nat) (w : world) (d : dict) :
  fst (load_data w) = Return d ->
  document d ->
  Forall str_ok (stdin w) ->
  let w' := snd (run_program show budget w) in
  forall v, disk v = disk w' -> load_data v = (Return (data w'), v).
Proof.
  intros H D T w' v Ev.
  assert (L : load_data w = (Return d, w)).
  { rewrite (surjective_pairing (load_data w)), load_data_frame, H.
    reflexivity. }
  unfold w' in *. rewrite (run_program_from show budget w d L) in *.
  set (w1 := World d (disk w) (writes w) (stdin w) (stdout w)) in *.
  pose proof (main_loop_document show budget w1 T D) as D'.
  pose proof
    (kept_main_loop in_step in_step_refl in_step_trans in_step_print
       in_step_input (fun name _ => in_step_add_recipient name)
       (fun r g o _ _ => in_step_add_gift r g o) show budget w1) as S.
  set (w2 := snd (main_loop show budget w1)) in *.
  destruct S as [(Sd & Sf & _)|[Sf _]].
  - rewrite (surjective_pairing (load_data v)), load_data_frame.
    rewrite (load_data_disk v w) by (rewrite Ev; exact Sf).
    rewrite H, Sd. reflexivity.
  - apply load_saved; [exact D' | rewrite Ev; exact Sf].
Qed.

Lemma restart_finds_the_same_witness :
  let w := World [] None 0
                 [lit "2"; lit "Mom"; lit "1"; lit "1"; lit "Scarf"; lit "1";
                  lit "1"; lit "0"] [] in
  let w' := snd (run_program (fun _ => []) 9 w) in
  let v := World [(lit "Dad", VList [])] (disk w') 0 [lit "0"] [] in
  load_data v = (Return (data w'), v).
Proof.
  intros w w' v.
  apply (restart_finds_the_same (fun _ => []) 9 w []).
  - reflexivity.
  - split; constructor.
  - repeat (apply Forall_cons; [text_ok|]). apply Forall_nil.
  - apply disk_of_world.
Defined.

(** X26.  A gift that has been saved is the last line of the list.  When
    the add-gift screen of a recipient whose gifts are records is given an
    idea, an occasion (picked on a line within the limit of [int]) and a
    confirmation, it returns, and the gifts screen of that recipient,
    opened on the dict as the add-gift screen left it, shows the earlier
    gifts in their order and then the new one, with the idea as
    [clean_text] left it and the occasion that was picked. *)
Theorem saved_gift_is_listed
    (show : value -> str) (budget : nat) (w : world)
    (r g c occasion line : str) (lines rest : list str)
    (pairs : list (str * str)) :
  stdin w = g :: lines ->
  eqb (lower (strip g)) (lit "cancel") = false ->
  clean_text (strip g) <> [] ->
  picks lines occasion (c :: line :: rest) ->
  strip c <> lit "2" ->
  getitem r (data w) = Some (VList (map record_of pairs)) ->
  exists w1,
    add_gift_screen r w = (Return tt, w1) /\
    let w2 := World (data w1) (disk w1) (writes w1) rest
                    (gifts_page r (pairs ++ [(clean_text (strip g), occasion)])
                     ++ stdout w1) in
    gift_list_screen show (S budget) r w1
    = if eqb (strip line) (lit "1") then lift (add_gift_screen r) w2
      else if eqb (strip line) (lit "2") then recipients_screen show budget w2
      else (Finished tt, w2).
Proof.
  intros Hin H1 H2 H3 H4 H5.
  destruct w as [d f n i o]; simpl in Hin, H5; subst i.
  destruct (add_gift_screen_confirmed r d f n g c lines occasion
              (line :: rest) o (map record_of pairs) H1 H2 H3 H4 H5)
    as [o' E].
  eexists. split; [exact E|]. cbn [data disk writes stdout].
  apply gift_list_screen_run.
  rewrite getitem_setitem_same, map_app. reflexivity.
Qed.

Lemma saved_gift_is_listed_witness :
  let pairs := [(lit "Scarf", lit "Birthday")] in
  let w := World [(lit "Mom", VList (map record_of pairs))] None 0
                 [lit " Tea   pot "; lit "3"; lit "Easter"; lit "1"; lit "0"]
                 [] in
  exists w1,
    add_gift_screen (lit "Mom") w = (Return tt, w1) /\
    let w2 := World (data w1) (disk w1) (writes w1) []
                    (gifts_page (lit "Mom")
                       (pairs ++ [(clean_text (strip (lit " Tea   pot ")),
                                   lit "Other: "
                                   ++ clean_text (strip (lit "Easter")))])
                     ++ stdout w1) in
    gift_list_screen (fun _ => []) 1 (lit "Mom") w1
    = if eqb (strip (lit "0")) (lit "1")
      then lift (add_gift_screen (lit "Mom")) w2
      else if eqb (strip (lit "0")) (lit "2")
           then recipients_screen (fun _ => []) 0 w2
           else (Finished tt, w2).
Proof.
  intros pairs w.
  apply (saved_gift_is_listed (fun _ => []) 0 w (lit "Mom")
           (lit " Tea   pot ") (lit "1") _ (lit "0")
           [lit "3"; lit "Easter"; lit "1"; lit "0"] [] pairs).
  - reflexivity.
  - reflexivity.
  - discriminate.
  - apply pick_other;
      [unfold within_limit; simpl; lia | reflexivity | reflexivity
      | discriminate].
  - discriminate.
  - reflexivity.
Defined.
